(** * Session engine of the crossword rooms (web/rooms.py)

    A shallow embedding of the answer grammar ([parse_clue],
    [parse_answer]), of the session operations ([apply_answer],
    [clear_incorrect_cells], [play_pause]) and of the snapshot
    serialisation ([Room.to_json], [Room.from_json]).

    Conventions.
    - A Python [str] is a Rocq [string]: a sequence of code points below
      256.  The character classes used by the built-ins ([str.isspace],
      [str.strip], [str.lower], [int]) are written out for that range.
    - A Python [int] is a [Z]; [int(text)] and [str(n)] refuse more than
      4300 digits, the default limit of CPython 3.11.
    - A [datetime] is a number of microseconds on the naive time line; a
      [timedelta] is a difference of two of them, and its [total_seconds]
      is the [float] nearest to the quotient by a million.
    - A cell of a grid is [None] (a block) or a string.
    - The room passed to an operation is a mutable object: its grid and its
      two dictionaries are updated in place.  The operations run in a small
      monad over that object and the key-value store, with exceptions. *)

From Stdlib Require Import ZArith Ascii String List Bool Lia.
From Stdlib Require Import DecimalString DecimalPos.
From stdpp Require Import base option list gmap strings.

Local Open Scope Z_scope.
Local Open Scope string_scope.

(** ** Python built-ins on characters and strings *)

Module Py.

Definition code (c : ascii) : N := N_of_ascii c.

(** [str.isspace] on one character: TAB..CR, FS..US and space, then NEL and
    NBSP above 127. *)
Definition isspace (c : ascii) : bool :=
  let n := code c in
  ((9 <=? n) && (n <=? 13) || (28 <=? n) && (n <=? 32)
   || (n =? 133) || (n =? 160))%N.

(** The C-level [Py_ISSPACE]: the six ASCII blanks only. *)
Definition c_isspace (c : ascii) : bool :=
  let n := code c in ((9 <=? n) && (n <=? 13) || (n =? 32))%N.

Definition isdigit (c : ascii) : bool :=
  let n := code c in ((48 <=? n) && (n <=? 57))%N.

Definition digit_value (c : ascii) : option Z :=
  if isdigit c then Some (Z.of_N (code c) - 48) else None.

(** [str.lower] on one character of the range: A..Z and the accented
    capitals, the multiplication sign apart. *)
Definition lower (c : ascii) : ascii :=
  let n := code c in
  if ((65 <=? n) && (n <=? 90)
      || (192 <=? n) && (n <=? 222) && negb (n =? 215))%N
  then ascii_of_N (n + 32) else c.

Fixpoint lstrip (s : string) : string :=
  match s with
  | EmptyString => EmptyString
  | String c s' => if isspace c then lstrip s' else s
  end.

Fixpoint rstrip (s : string) : string :=
  match s with
  | EmptyString => EmptyString
  | String c s' =>
      match rstrip s' with
      | EmptyString => if isspace c then EmptyString else String c EmptyString
      | r => String c r
      end
  end.

(** [s.strip()] *)
Definition strip (s : string) : string := rstrip (lstrip s).

(** [s[:-1]] *)
Fixpoint but_last (s : string) : string :=
  match s with
  | EmptyString => EmptyString
  | String c EmptyString => EmptyString
  | String c s' => String c (but_last s')
  end.

(** [s[-1]], which raises on the empty string *)
Fixpoint last_char (s : string) : option ascii :=
  match s with
  | EmptyString => None
  | String c EmptyString => Some c
  | String _ s' => last_char s'
  end.

Fixpoint string_forallb (p : ascii -> bool) (s : string) : bool :=
  match s with
  | EmptyString => true
  | String c s' => p c && string_forallb p s'
  end.

(** What [int] does to the text before it reads the number: a character
    below 127 is kept, a blank above becomes a space, anything else (the
    range has no other decimal digit) becomes a character that no number
    contains. *)
Definition int_transform_char (c : ascii) : ascii :=
  if (code c <? 127)%N then c
  else if isspace c then " "%char else "?"%char.

Fixpoint int_transform (s : string) : string :=
  match s with
  | EmptyString => EmptyString
  | String c s' => String (int_transform_char c) (int_transform s')
  end.

Fixpoint c_lstrip (s : string) : string :=
  match s with
  | EmptyString => EmptyString
  | String c s' => if c_isspace c then c_lstrip s' else s
  end.

(** The digit loop of [int], base ten: digits, a single underscore only
    between two digits, then blanks up to the end of the text. *)
Fixpoint scan_digits (acc : Z) (prev_digit : bool) (s : string) : option Z :=
  match s with
  | EmptyString => if prev_digit then Some acc else None
  | String c s' =>
      match digit_value c with
      | Some d => scan_digits (10 * acc + d) true s'
      | None =>
          if negb prev_digit then None
          else if Ascii.eqb c "_" then scan_digits acc false s'
          else if string_forallb c_isspace s then Some acc else None
      end
  end.

(** The number that [int] reads in a text, base ten: blanks, a sign, the
    digit loop. *)
Definition read_int (s : string) : option Z :=
  match c_lstrip (int_transform s) with
  | EmptyString => None
  | String c r =>
      if Ascii.eqb c "-" then Z.opp <$> scan_digits 0 false r
      else if Ascii.eqb c "+" then scan_digits 0 false r
      else scan_digits 0 false (String c r)
  end.

(** The limit on the conversions between [int] and [str]: the default of
    [sys.get_int_max_str_digits()] (CPython 3.11). *)
Definition max_str_digits : nat := 4300.

(** The digits of a text: what the limit counts, leading zeros included; a
    sign, an underscore or a blank is not counted. *)
Fixpoint count_digits (s : string) : nat :=
  match s with
  | EmptyString => 0%nat
  | String c s' => if isdigit c then S (count_digits s') else count_digits s'
  end.

(** [int(s)]: [None] is [ValueError], raised for a text that is no number
    and for a number of more than [max_str_digits] digits. *)
Definition int (s : string) : option Z :=
  match read_int s with
  | Some n => if (max_str_digits <? count_digits s)%nat then None else Some n
  | None => None
  end.

(** The decimal digits of [n], after a minus sign when [n] is negative. *)
Definition decimal_text (n : Z) : string := NilEmpty.string_of_int (Z.to_int n).

(** [str(n)]: [None] is [ValueError], raised for a number of more than
    [max_str_digits] digits. *)
Definition str (n : Z) : option string :=
  let text := decimal_text n in
  if (max_str_digits <? count_digits text)%nat then None else Some text.

(** A [float] that is finite and not subnormal: [mantissa * 2 ^ exponent],
    the mantissa with the sign. *)
Record float : Type := mkfloat { mantissa : Z; exponent : Z }.

(** The quotient of [a] by [b], [0 <= a] and [0 < b], rounded to the
    nearest integer, a tie to the even one. *)
Definition round_half_even (a b : Z) : Z :=
  let q := a / b in
  let r := a mod b in
  if (2 * r <? b)%Z then q
  else if (b <? 2 * r)%Z then q + 1
  else if Z.even q then q else q + 1.

(** [a / b] on two [int], [0 < a] and [0 < b]: the quotient rounded to 53
    significant bits.  [l] is the exponent of the quotient,
    [2 ^ l <= a / b < 2 ^ (l + 1)]. *)
Definition true_divide_pos (a b : Z) : float :=
  let k := Z.log2 a - Z.log2 b in
  let l := if (if 0 <=? k then b * 2 ^ k <=? a else b <=? a * 2 ^ (- k))%Z
           then k else k - 1 in
  let e := l - 52 in
  mkfloat (if (0 <=? e)%Z then round_half_even a (b * 2 ^ e)
           else round_half_even (a * 2 ^ (- e)) b) e.

(** [a / b] on two [int], [0 < b]: the true division of Python rounds the
    exact quotient once.  The quotients at hand (microseconds by a million,
    for intervals of dates) are far from the ends of the format. *)
Definition true_divide (a b : Z) : float :=
  if (a =? 0)%Z then mkfloat 0 0
  else if (a <? 0)%Z then
    let f := true_divide_pos (- a) b in mkfloat (- mantissa f) (exponent f)
  else true_divide_pos a b.

(** [int(x)] on a [float]: the integer part, toward zero. *)
Definition int_of_float (x : float) : Z :=
  if (0 <=? exponent x)%Z then mantissa x * 2 ^ exponent x
  else Z.quot (mantissa x) (2 ^ (- exponent x)).

End Py.

(** ** Exceptions *)

Inductive exn : Type :=
| IndexError | TypeError | ValueError | KeyError | AttributeError.

Inductive result (A : Type) : Type :=
| Ok (a : A)
| Raise (e : exn).
Arguments Ok {A} a.
Arguments Raise {A} e.

Definition rbind {A B} (r : result A) (k : A -> result B) : result B :=
  match r with
  | Ok a => k a
  | Raise e => Raise e
  end.

(** ** Answer grammar *)

(** [parse_clue]: [None] is the pair [(None, None)] of the source; the
    argument is [None] when the caller has no clue text. *)
Definition parse_clue (clue : option string) : option (Z * string) :=
  match clue with
  | None => None
  | Some clue =>
      let clue := Py.strip clue in
      if (String.length clue =? 0)%nat then None
      else
        match Py.int (Py.but_last clue) with
        | None => None
        | Some number =>
            match Py.last_char clue with
            | None => None
            | Some c =>
                let direction := String (Py.lower c) EmptyString in
                if negb (String.eqb direction "a") && negb (String.eqb direction "d")
                then None
                else Some (number, direction)
            end
        end
  end.

(** [cells[-1] += c] *)
Fixpoint append_to_last (cells : list string) (c : ascii) : result (list string) :=
  match cells with
  | [] => Raise IndexError
  | [s] => Ok [s ++ String c EmptyString]
  | s :: rest => rbind (append_to_last rest c) (fun r => Ok (s :: r))
  end.

(** One turn of the loop of [parse_answer] on the pair (cells, inParens). *)
Definition parse_answer_step (st : list string * bool) (c : ascii)
  : result (list string * bool) :=
  let '(cells, inParens) := st in
  if Py.isspace c then Ok (cells, inParens)
  else if inParens && Ascii.eqb c ")" then Ok (cells, false)
  else if inParens then
    rbind (append_to_last cells c) (fun cells' => Ok (cells', inParens))
  else if Ascii.eqb c "(" then Ok ((cells ++ [EmptyString])%list, true)
  else Ok ((cells ++ [if negb (Ascii.eqb c ".") then String c EmptyString
                      else EmptyString])%list, inParens).

Fixpoint parse_answer_loop (answer : string) (st : list string * bool)
  : result (list string * bool) :=
  match answer with
  | EmptyString => Ok st
  | String c rest => rbind (parse_answer_step st c) (parse_answer_loop rest)
  end.

Definition parse_answer (answer : string) : result (list string) :=
  rbind (parse_answer_loop answer ([], false)) (fun st => Ok (fst st)).

(** ** Data model *)

(** A cell: [None] for a block, otherwise the text it holds ([""] when
    blank, several characters for a rebus). *)
Abbreviation cell := (option string).
Abbreviation grid := (list (list (option string))).

(** Microseconds on the naive time line. *)
Definition datetime : Type := Z.

(** [delta.total_seconds()]: the microseconds of the [timedelta] divided by
    a million, as a [float]. *)
Definition total_seconds (delta : Z) : Py.float := Py.true_divide delta 1000000.

(** [int(delta.total_seconds())] *)
Definition whole_seconds (delta : Z) : Z := Py.int_of_float (total_seconds delta).

Module Puzzle.
Record t : Type := mk {
  rows : Z;
  cols : Z;
  title : string;
  publisher : string;
  published : Z;
  author : string;
  cells : grid;
  cell_clue_numbers : list (list Z);
  cell_circles : list (list bool);
  across_clues : gmap Z string;
  down_clues : gmap Z string
}.
End Puzzle.

Module Room.
Record t : Type := mk {
  play_pause_state : string;
  puzzle : Puzzle.t;
  cells : grid;
  across_clues_filled : gmap Z bool;
  down_clues_filled : gmap Z bool;
  last_start_time : option datetime;
  total_time_secs : Z
}.

(** [attr.evolve(room, play_pause_state=.., last_start_time=..,
    total_time_secs=..)]: a new room that shares the grid and the
    dictionaries of the old one. *)
Definition evolve (room : t) (state : string) (last : option datetime)
    (total : Z) : t :=
  mk state (puzzle room) (cells room) (across_clues_filled room)
     (down_clues_filled room) last total.

Definition with_cells (room : t) (g : grid) : t :=
  mk (play_pause_state room) (puzzle room) g (across_clues_filled room)
     (down_clues_filled room) (last_start_time room) (total_time_secs room).

Definition with_across (room : t) (m : gmap Z bool) : t :=
  mk (play_pause_state room) (puzzle room) (cells room) m
     (down_clues_filled room) (last_start_time room) (total_time_secs room).

Definition with_down (room : t) (m : gmap Z bool) : t :=
  mk (play_pause_state room) (puzzle room) (cells room)
     (across_clues_filled room) m (last_start_time room)
     (total_time_secs room).
End Room.

(** [g[y][x]] and [g[y][x] = v] with the bounds check of Python lists. *)
Definition grid_get (g : grid) (y x : nat) : result cell :=
  match g !! y with
  | Some row =>
      match row !! x with
      | Some v => Ok v
      | None => Raise IndexError
      end
  | None => Raise IndexError
  end.

Definition grid_set (g : grid) (y x : nat) (v : cell) : result grid :=
  match g !! y with
  | Some row =>
      if decide (x < length row)%nat
      then Ok (<[y := <[x := v]> row]> g)
      else Raise IndexError
  | None => Raise IndexError
  end.

(** The keys of a dictionary, as a [for] loop visits them.  The loops of
    the source visit them in insertion order, which the map does not keep:
    the order only decides which flags are already set when a turn
    raises. *)
Definition keys {V} (d : gmap Z V) : list Z := (map_to_list d).*1.

(** ** The monad of the operations *)

(** [obj] is the room object that the caller passes as [room]; [store] is
    the key-value store behind [set_room]. *)
Record World : Type := mkWorld {
  obj : Room.t;
  store : gmap string Room.t
}.

Definition M (A : Type) : Type := World -> result A * World.

Definition ret {A} (a : A) : M A := fun w => (Ok a, w).

Definition raise {A} (e : exn) : M A := fun w => (Raise e, w).

Definition bind {A B} (m : M A) (k : A -> M B) : M B :=
  fun w =>
    match m w with
    | (Ok a, w') => k a w'
    | (Raise e, w') => (Raise e, w')
    end.

Definition lift {A} (r : result A) : M A := fun w => (r, w).

Notation "x <- m ;; k" := (bind m (fun x => k))
  (at level 100, m at next level, right associativity).
Notation "m ;;; k" := (bind m (fun _ => k))
  (at level 100, right associativity).

Definition get_room_obj : M Room.t := fun w => (Ok (obj w), w).

Definition put_room_obj (room : Room.t) : M unit :=
  fun w => (Ok tt, mkWorld room (store w)).

Fixpoint for_each {A} (l : list A) (body : A -> M unit) : M unit :=
  match l with
  | [] => ret tt
  | a :: rest => body a ;;; for_each rest body
  end.

(** [set_room]: the snapshot is saved under ["room:" + name].  The store
    is modelled as holding rooms, not their texts: the writing of the text
    ([Room.to_json], which refuses an integer of more than 4300 digits) and
    the expiry of the key are outside this model of the store. *)
Definition set_room (name : string) (room : Room.t) : M unit :=
  fun w => (Ok tt, mkWorld (obj w) (<["room:" ++ name := room]> (store w))).

(** [room.cells[y][x] = v] *)
Definition set_cell (y x : nat) (v : cell) : M unit :=
  room <- get_room_obj ;;
  g <- lift (grid_set (Room.cells room) y x v) ;;
  put_room_obj (Room.with_cells room g).

(** [all(cells[y][x] != "" for (x, y) in coordinates)]: it stops at the
    first blank cell. *)
Fixpoint all_filled (g : grid) (coordinates : list (nat * nat)) : result bool :=
  match coordinates with
  | [] => Ok true
  | (x, y) :: rest =>
      rbind (grid_get g y x) (fun v =>
        if bool_decide (v ≠ Some EmptyString) then all_filled g rest
        else Ok false)
  end.

(** Truth value of a cell in an [if]: a block and a blank are false. *)
Definition truthy (v : cell) : bool :=
  match v with
  | None => false
  | Some s => negb (String.eqb s EmptyString)
  end.

Section Engine.

(** Modelled from the spec: [puzzles.get_answer_cells], of the puzzle
    store, is not part of the sources at hand; it maps a clue number and a
    direction to the ordered (x, y) grid coordinates of the answer.  A
    coordinate is a natural number: a negative index, which a Python list
    counts from its end, is not a grid coordinate. *)
Variable get_answer_cells : Puzzle.t -> Z -> string -> list (nat * nat).

(** The two loops that close [apply_answer] and [clear_incorrect_cells]. *)
Definition update_across (num : Z) : M unit :=
  room <- get_room_obj ;;
  b <- lift (all_filled (Room.cells room)
               (get_answer_cells (Room.puzzle room) num "a")) ;;
  put_room_obj (Room.with_across room (<[num := b]> (Room.across_clues_filled room))).

Definition update_down (num : Z) : M unit :=
  room <- get_room_obj ;;
  b <- lift (all_filled (Room.cells room)
               (get_answer_cells (Room.puzzle room) num "d")) ;;
  put_room_obj (Room.with_down room (<[num := b]> (Room.down_clues_filled room))).

Definition update_filled : M unit :=
  room <- get_room_obj ;;
  for_each (keys (Puzzle.across_clues (Room.puzzle room))) update_across ;;;
  for_each (keys (Puzzle.down_clues (Room.puzzle room))) update_down.

Definition write_value (allow_clearing : bool) (p : string * (nat * nat)) : M unit :=
  let '(value, (x, y)) := p in
  if allow_clearing || negb (String.eqb value EmptyString)
  then set_cell y x (Some value)
  else ret tt.

(** [apply_answer(room, name, clue, answer, allow_clearing)] at the clock
    value [now]; the result [None] is the rejection. *)
Definition apply_answer (name : string) (clue : option string) (answer : string)
    (allow_clearing : bool) (now : datetime) : M (option Room.t) :=
  match parse_clue clue with
  | None => ret None
  | Some (num, direction) =>
      answer <- lift (parse_answer answer) ;;
      room <- get_room_obj ;;
      let coordinates := get_answer_cells (Room.puzzle room) num direction in
      if negb (length answer =? length coordinates)%nat then ret None
      else
        for_each (zip answer coordinates) (write_value allow_clearing) ;;;
        update_filled ;;;
        room <- get_room_obj ;;
        if bool_decide (Room.cells room = Puzzle.cells (Room.puzzle room)) then
          match Room.last_start_time room with
          | None => raise TypeError
          | Some started =>
              let total_time_secs :=
                Room.total_time_secs room + whole_seconds (now - started) in
              let room := Room.evolve room "complete" None total_time_secs in
              set_room name room ;;; ret (Some room)
          end
        else
          set_room name room ;;; ret (Some room)
  end.

Definition clear_cell (y x : nat) : M unit :=
  room <- get_room_obj ;;
  v <- lift (grid_get (Room.cells room) y x) ;;
  if truthy v then
    s <- lift (grid_get (Puzzle.cells (Room.puzzle room)) y x) ;;
    if bool_decide (v ≠ s) then set_cell y x (Some EmptyString) else ret tt
  else ret tt.

Definition clear_incorrect_cells (name : string) : M Room.t :=
  room <- get_room_obj ;;
  for_each (seq 0 (Z.to_nat (Puzzle.rows (Room.puzzle room)))) (fun y =>
    for_each (seq 0 (Z.to_nat (Puzzle.cols (Room.puzzle room)))) (fun x =>
      clear_cell y x)) ;;;
  update_filled ;;;
  room <- get_room_obj ;;
  set_room name room ;;; ret room.

(** [play_pause(room, name)] at the clock value [now]. *)
Definition play_pause (name : string) (now : datetime) : M Room.t :=
  room <- get_room_obj ;;
  let state := Room.play_pause_state room in
  let last_start_time := Room.last_start_time room in
  let total_time_secs := Room.total_time_secs room in
  if String.eqb state "created" || String.eqb state "paused" then
    let room := Room.evolve room "playing" (Some now) total_time_secs in
    set_room name room ;;; ret room
  else if String.eqb state "playing" then
    match last_start_time with
    | None => raise TypeError
    | Some started =>
        let room := Room.evolve room "paused" None
                      (total_time_secs + whole_seconds (now - started)) in
        set_room name room ;;; ret room
    end
  else
    let room := Room.evolve room state last_start_time total_time_secs in
    set_room name room ;;; ret room.

End Engine.

(** ** Reading the store *)

(** [get_room(name)]: the room saved under ["room:" + name], [None] when
    there is none.  The store holds rooms, not their texts (see [set_room]):
    the reading of the text ([Room.from_json]) and the expiry that the call
    renews are outside this model of the store. *)
Definition get_room (name : string) : M (option Room.t) :=
  fun w => (Ok (store w !! ("room:" ++ name)), w).

(** What [get_correct_answer] appends for one cell: the value itself when
    it has one character, the value between parentheses otherwise. *)
Definition answer_part (value : string) : string :=
  if (String.length value =? 1)%nat then value else "(" ++ value ++ ")".

(** The loop of [get_correct_answer] over the cells of the clue, with the
    text built so far; [len] of a block raises. *)
Fixpoint correct_answer_loop (cells : grid) (coordinates : list (nat * nat))
    (answer : string) : result string :=
  match coordinates with
  | [] => Ok answer
  | (x, y) :: rest =>
      rbind (grid_get cells y x) (fun value =>
        match value with
        | None => Raise TypeError
        | Some value =>
            correct_answer_loop cells rest (answer ++ answer_part value)
        end)
  end.

Section Answers.

Variable get_answer_cells : Puzzle.t -> Z -> string -> list (nat * nat).

(** [get_correct_answer(name, clue)] *)
Definition get_correct_answer (name : string) (clue : option string)
  : M (option string) :=
  room <- get_room name ;;
  match room with
  | None => ret None
  | Some room =>
      match parse_clue clue with
      | None => ret None
      | Some (num, direction) =>
          answer <- lift (correct_answer_loop (Puzzle.cells (Room.puzzle room))
                            (get_answer_cells (Room.puzzle room) num direction)
                            EmptyString) ;;
          ret (Some answer)
      end
  end.

End Answers.

(** ** Room names *)

(** The continuation byte [10xxxxxx] of UTF-8: its six low bits. *)
Definition utf8_cont (b : Byte.byte) : option N :=
  let n := Byte.to_N b in
  if ((128 <=? n) && (n <=? 191))%N then Some (n - 128)%N else None.

(** [b.decode("utf-8")]: the code points of the text, as the strict decoder
    of Python reads them (no overlong form, no surrogate, nothing above
    U+10FFFF).  The text can hold any character, so it is given as its code
    points.  [ValueError] stands for [UnicodeDecodeError], one of its
    subclasses. *)
Fixpoint utf8_decode (bs : list Byte.byte) : result (list N) :=
  match bs with
  | [] => Ok []
  | b0 :: r0 =>
      let n0 := Byte.to_N b0 in
      if (n0 <? 128)%N then
        rbind (utf8_decode r0) (fun s => Ok (n0 :: s))
      else if ((194 <=? n0) && (n0 <=? 223))%N then
        match r0 with
        | b1 :: r1 =>
            match utf8_cont b1 with
            | Some c1 =>
                rbind (utf8_decode r1) (fun s =>
                  Ok (((n0 - 192) * 64 + c1)%N :: s))
            | None => Raise ValueError
            end
        | _ => Raise ValueError
        end
      else if ((224 <=? n0) && (n0 <=? 239))%N then
        match r0 with
        | b1 :: b2 :: r2 =>
            match utf8_cont b1, utf8_cont b2 with
            | Some c1, Some c2 =>
                let cp := ((n0 - 224) * 4096 + c1 * 64 + c2)%N in
                if ((cp <? 2048) || (55296 <=? cp) && (cp <=? 57343))%N
                then Raise ValueError
                else rbind (utf8_decode r2) (fun s => Ok (cp :: s))
            | _, _ => Raise ValueError
            end
        | _ => Raise ValueError
        end
      else if ((240 <=? n0) && (n0 <=? 244))%N then
        match r0 with
        | b1 :: b2 :: b3 :: r3 =>
            match utf8_cont b1, utf8_cont b2, utf8_cont b3 with
            | Some c1, Some c2, Some c3 =>
                let cp := ((n0 - 240) * 262144 + c1 * 4096 + c2 * 64 + c3)%N in
                if ((cp <? 65536) || (1114111 <? cp))%N
                then Raise ValueError
                else rbind (utf8_decode r3) (fun s => Ok (cp :: s))
            | _, _, _ => Raise ValueError
            end
        | _ => Raise ValueError
        end
      else Raise ValueError
  end.

(** [parse_room_name(b)]: the decoded text from its sixth character on. *)
Definition parse_room_name (b : list Byte.byte) : result (list N) :=
  rbind (utf8_decode b) (fun s => Ok (drop 5 s)).

(** [get_all_room_names()], from the keys that the scan of the store
    yields. *)
Definition get_all_room_names (scanned : list (list Byte.byte))
  : result (list (list N)) :=
  (fix names (l : list (list Byte.byte)) : result (list (list N)) :=
     match l with
     | [] => Ok []
     | name :: rest =>
         rbind (parse_room_name name) (fun n =>
         rbind (names rest) (fun ns => Ok (n :: ns)))
     end) scanned.

(** ** Serialisation of a room *)

#[local] Set Warnings "-register-all".

Module Json.

(** A Python value on its way to [json.dumps]: the key of a dictionary is
    an integer or a string. *)
Inductive key : Type := KInt (n : Z) | KStr (s : string).

Inductive value : Type :=
| VNone
| VBool (b : bool)
| VInt (n : Z)
| VStr (s : string)
| VList (l : list value)
| VDict (items : list (key * value)).

(** A JSON text, as the tree it denotes: the keys of an object are
    strings. *)
Inductive document : Type :=
| DNull
| DBool (b : bool)
| DInt (n : Z)
| DStr (s : string)
| DList (l : list document)
| DObj (fields : list (string * document)).

Definition traverse {A B} (f : A -> result B) : list A -> result (list B) :=
  fix go (l : list A) : result (list B) :=
    match l with
    | [] => Ok []
    | a :: rest =>
        rbind (f a) (fun b => rbind (go rest) (fun bs => Ok (b :: bs)))
    end.

(** [str(n)] as the encoder calls it. *)
Definition int_text (n : Z) : result string :=
  match Py.str n with
  | Some text => Ok text
  | None => Raise ValueError
  end.

(** [json.dumps] writes an integer key as the text of the integer. *)
Definition key_text (k : key) : result string :=
  match k with
  | KInt n => int_text n
  | KStr s => Ok s
  end.

(** [json.dumps]: it raises on an integer that [str] refuses. *)
Fixpoint dumps (v : value) : result document :=
  match v with
  | VNone => Ok DNull
  | VBool b => Ok (DBool b)
  | VInt n => rbind (int_text n) (fun _ => Ok (DInt n))
  | VStr s => Ok (DStr s)
  | VList l => rbind (traverse dumps l) (fun ds => Ok (DList ds))
  | VDict items =>
      rbind (traverse (fun kv =>
               rbind (key_text (fst kv)) (fun k =>
               rbind (dumps (snd kv)) (fun d => Ok (k, d)))) items)
            (fun fields => Ok (DObj fields))
  end.

(** [json.loads]: an integer of the text goes through [int], which raises
    on a literal that it refuses. *)
Fixpoint loads (d : document) : result value :=
  match d with
  | DNull => Ok VNone
  | DBool b => Ok (VBool b)
  | DInt n =>
      match Py.int (Py.decimal_text n) with
      | Some m => Ok (VInt m)
      | None => Raise ValueError
      end
  | DStr s => Ok (VStr s)
  | DList l => rbind (traverse loads l) (fun vs => Ok (VList vs))
  | DObj fields =>
      rbind (traverse (fun kv =>
               rbind (loads (snd kv)) (fun v => Ok (KStr (fst kv), v))) fields)
            (fun items => Ok (VDict items))
  end.

Definition is_key (k : string) (kv : key * value) : bool :=
  match fst kv with
  | KStr s => String.eqb s k
  | KInt _ => false
  end.

(** [d[k]] on a dictionary read from JSON: the last field of that name. *)
Definition getitem (items : list (key * value)) (k : string) : result value :=
  match find (is_key k) (rev items) with
  | Some kv => Ok (snd kv)
  | None => Raise KeyError
  end.

(** The decoders below read a value at the type of the field that receives
    it.  The source stores whatever the document holds; a value of another
    type gives no room of the data model, which is reported here as
    [TypeError]. *)
Definition as_str (v : value) : result string :=
  match v with VStr s => Ok s | _ => Raise TypeError end.

Definition as_int (v : value) : result Z :=
  match v with VInt n => Ok n | _ => Raise TypeError end.

Definition as_bool (v : value) : result bool :=
  match v with VBool b => Ok b | _ => Raise TypeError end.

Definition as_cell (v : value) : result cell :=
  match v with
  | VNone => Ok None
  | VStr s => Ok (Some s)
  | _ => Raise TypeError
  end.

Definition as_list {A} (f : value -> result A) (v : value) : result (list A) :=
  match v with VList l => traverse f l | _ => Raise TypeError end.

Definition as_grid (v : value) : result grid := as_list (as_list as_cell) v.

Definition cell_value (c : cell) : value :=
  match c with
  | None => VNone
  | Some s => VStr s
  end.

Definition grid_value (g : grid) : value :=
  VList (map (fun row => VList (map cell_value row)) g).

(** A dictionary from clue numbers, as the value handed to [json.dumps]. *)
Definition dict_value {V} (f : V -> value) (d : gmap Z V) : value :=
  VDict (map (fun nv => (KInt (fst nv), f (snd nv))) (map_to_list d)).

(** [int(n)] on a key. *)
Definition int_key (k : key) : result Z :=
  match k with
  | KStr s =>
      match Py.int s with
      | Some n => Ok n
      | None => Raise ValueError
      end
  | KInt n => Ok n
  end.

(** [{int(n): v for (n, v) in d.items()}]: of two items with the same
    number the later one stays. *)
Definition int_keyed {V} (f : value -> result V) (v : value) : result (gmap Z V) :=
  match v with
  | VDict items =>
      rbind (traverse (fun kv =>
               rbind (int_key (fst kv)) (fun n =>
               rbind (f (snd kv)) (fun x => Ok (n, x)))) items)
            (fun l => Ok (list_to_map (rev l)))
  | _ => Raise AttributeError
  end.

Section RoomJson.

(** [datetime.isoformat] and [dateutil.parser.parse], of the Python
    libraries. *)
Variable isoformat : datetime -> string.
Variable dateutil_parse : string -> result datetime.

(** Modelled from the spec: [Puzzle.to_dict] and [Puzzle.from_dict] are
    not part of the sources at hand; the puzzle is written to a dictionary
    and read back from one. *)
Variable to_dict : Puzzle.t -> value.
Variable from_dict : value -> result Puzzle.t.

Definition to_json (room : Room.t) : result document :=
  let last_start_time :=
    match Room.last_start_time room with
    | Some t => VStr (isoformat t)
    | None => VNone
    end in
  dumps (VDict [
    (KStr "play_pause_state", VStr (Room.play_pause_state room));
    (KStr "puzzle", to_dict (Room.puzzle room));
    (KStr "cells", grid_value (Room.cells room));
    (KStr "across_clues_filled", dict_value VBool (Room.across_clues_filled room));
    (KStr "down_clues_filled", dict_value VBool (Room.down_clues_filled room));
    (KStr "last_start_time", last_start_time);
    (KStr "total_time_secs", VInt (Room.total_time_secs room))
  ]).

(** [if v:] on a value read from JSON. *)
Definition truthy_value (v : value) : bool :=
  match v with
  | VNone => false
  | VBool b => b
  | VInt n => negb (n =? 0)%Z
  | VStr s => negb (String.eqb s EmptyString)
  | VList l => match l with [] => false | _ :: _ => true end
  | VDict items => match items with [] => false | _ :: _ => true end
  end.

(** The last start as [from_json] reads it.  A value that is true goes
    through the date parser, which takes a text and raises [TypeError] on
    anything else.  A value that is false is kept as it is: a null is the
    absent last start; an empty text, a zero, a false, an empty list or an
    empty object is a last start of no type of the data model, reported
    like the other fields of a wrong type. *)
Definition read_last_start (v : value) : result (option datetime) :=
  if truthy_value v then
    match v with
    | VStr s => rbind (dateutil_parse s) (fun t => Ok (Some t))
    | _ => Raise TypeError
    end
  else
    match v with
    | VNone => Ok None
    | _ => Raise TypeError
    end.

Definition from_json (s : document) : result Room.t :=
  rbind (loads s) (fun v =>
  match v with
  | VDict d =>
      rbind (getitem d "across_clues_filled") (fun across =>
      rbind (int_keyed as_bool across) (fun across_clues_filled =>
      rbind (getitem d "down_clues_filled") (fun down =>
      rbind (int_keyed as_bool down) (fun down_clues_filled =>
      rbind (getitem d "last_start_time") (fun last =>
      rbind (read_last_start last) (fun last_start_time =>
      rbind (getitem d "play_pause_state") (fun state =>
      rbind (as_str state) (fun play_pause_state =>
      rbind (getitem d "puzzle") (fun puzzle_dict =>
      rbind (from_dict puzzle_dict) (fun puzzle =>
      rbind (getitem d "cells") (fun cells_value =>
      rbind (as_grid cells_value) (fun cells =>
      rbind (getitem d "total_time_secs") (fun total =>
      rbind (as_int total) (fun total_time_secs =>
      Ok (Room.mk play_pause_state puzzle cells across_clues_filled
            down_clues_filled last_start_time total_time_secs)))))))))))))))
  | _ => Raise TypeError
  end).

End RoomJson.

End Json.

(** ** A small puzzle to run the operations on

    One row of three cells, one across clue (number 1) and three down
    clues (1, 2, 3) of one cell each. *)

Definition demo_puzzle (solution : list cell) : Puzzle.t :=
  Puzzle.mk 1 3 "demo" "none" 0 "nobody" [solution] [[1; 2; 3]]
    [[false; false; false]]
    {[ 1 := "Pet that purrs" ]}
    (<[1 := "First letter"]> (<[2 := "Second letter"]> {[ 3 := "Third letter" ]})).

Definition demo_answer_cells (p : Puzzle.t) (num : Z) (direction : string)
  : list (nat * nat) :=
  if String.eqb direction "a" then
    if (num =? 1)%Z then [(0, 0); (1, 0); (2, 0)]%nat else []
  else
    if (num =? 1)%Z then [(0, 0)]%nat
    else if (num =? 2)%Z then [(1, 0)]%nat
    else if (num =? 3)%Z then [(2, 0)]%nat
    else [].

Definition demo_room (state : string) (solution row : list cell)
    (last : option datetime) (total : Z) : Room.t :=
  Room.mk state (demo_puzzle solution) [row]
    (<[1 := false]> ∅)
    (<[1 := false]> (<[2 := false]> (<[3 := false]> ∅)))
    last total.

Definition demo_world (room : Room.t) : World := mkWorld room ∅.

Definition CAT : list cell := [Some "C"; Some "A"; Some "T"].
Definition COT : list cell := [Some "C"; Some "O"; Some "T"].

(** A paused room whose total has 4301 digits. *)
Definition long_total_room : Room.t :=
  demo_room "paused" CAT CAT None (10 ^ 4300).

(** ** A date format and a dictionary form to run the round trip on *)

Definition demo_isoformat (t : datetime) : string :=
  String "T" (Py.decimal_text t).

Definition demo_parse (s : string) : result datetime :=
  match s with
  | String c r =>
      if Ascii.eqb c "T" then
        match Py.int r with
        | Some t => Ok t
        | None => Raise ValueError
        end
      else Raise ValueError
  | EmptyString => Raise ValueError
  end.

Definition demo_to_dict (p : Puzzle.t) : Json.value :=
  Json.VDict [
    (Json.KStr "rows", Json.VInt (Puzzle.rows p));
    (Json.KStr "cols", Json.VInt (Puzzle.cols p));
    (Json.KStr "title", Json.VStr (Puzzle.title p));
    (Json.KStr "publisher", Json.VStr (Puzzle.publisher p));
    (Json.KStr "published", Json.VInt (Puzzle.published p));
    (Json.KStr "author", Json.VStr (Puzzle.author p));
    (Json.KStr "cells", Json.grid_value (Puzzle.cells p));
    (Json.KStr "cell_clue_numbers",
     Json.VList (map (fun row => Json.VList (map Json.VInt row))
                   (Puzzle.cell_clue_numbers p)));
    (Json.KStr "cell_circles",
     Json.VList (map (fun row => Json.VList (map Json.VBool row))
                   (Puzzle.cell_circles p)));
    (Json.KStr "across_clues", Json.dict_value Json.VStr (Puzzle.across_clues p));
    (Json.KStr "down_clues", Json.dict_value Json.VStr (Puzzle.down_clues p))
  ].

Definition demo_from_dict (v : Json.value) : result Puzzle.t :=
  match v with
  | Json.VDict d =>
      rbind (rbind (Json.getitem d "rows") Json.as_int) (fun rows =>
      rbind (rbind (Json.getitem d "cols") Json.as_int) (fun cols =>
      rbind (rbind (Json.getitem d "title") Json.as_str) (fun title =>
      rbind (rbind (Json.getitem d "publisher") Json.as_str) (fun publisher =>
      rbind (rbind (Json.getitem d "published") Json.as_int) (fun published =>
      rbind (rbind (Json.getitem d "author") Json.as_str) (fun author =>
      rbind (rbind (Json.getitem d "cells") Json.as_grid) (fun cells =>
      rbind (rbind (Json.getitem d "cell_clue_numbers")
               (Json.as_list (Json.as_list Json.as_int))) (fun numbers =>
      rbind (rbind (Json.getitem d "cell_circles")
               (Json.as_list (Json.as_list Json.as_bool))) (fun circles =>
      rbind (rbind (Json.getitem d "across_clues")
               (Json.int_keyed Json.as_str)) (fun across =>
      rbind (rbind (Json.getitem d "down_clues")
               (Json.int_keyed Json.as_str)) (fun down =>
      Ok (Puzzle.mk rows cols title publisher published author cells numbers
            circles across down))))))))))))
  | _ => Raise TypeError
  end.

(** * Properties *)

(** ** The answer grammar *)

Section ParseAnswer.

(** The invariant of the loop of [parse_answer]: inside a group the list of
    cells has a last entry to append to. *)
Definition group_open_ok (st : list string * bool) : Prop :=
  snd st = true -> fst st <> [].

Lemma append_to_last_ok (cells : list string) (c : ascii) :
  cells <> [] ->
  exists cells', append_to_last cells c = Ok cells' /\ cells' <> [].
Proof.
  induction cells as [|s rest IH]; intros Hne; [congruence|].
  destruct rest as [|s' rest'].
  - simpl. eexists. split; [reflexivity | discriminate].
  - destruct IH as (r & Hr & _); [discriminate|].
    change (append_to_last (s :: s' :: rest') c)
      with (rbind (append_to_last (s' :: rest') c) (fun r => Ok (s :: r))).
    rewrite Hr. simpl. eexists. split; [reflexivity | discriminate].
Qed.

Lemma app_singleton_not_nil {A} (l : list A) (a : A) : (l ++ [a])%list <> [].
Proof. destruct l; discriminate. Qed.

Lemma parse_answer_step_ok (st : list string * bool) (c : ascii) :
  group_open_ok st ->
  exists st', parse_answer_step st c = Ok st' /\ group_open_ok st'.
Proof.
  destruct st as [cells inParens]. unfold group_open_ok, parse_answer_step.
  simpl. intros Hinv.
  destruct (Py.isspace c); [eauto|].
  destruct inParens; simpl.
  - destruct (Ascii.eqb c ")").
    + eexists. split; [reflexivity|]. simpl. discriminate.
    + destruct (append_to_last_ok cells c (Hinv eq_refl)) as (r & Hr & Hne).
      rewrite Hr. simpl. eauto.
  - destruct (Ascii.eqb c "(").
    + eexists. split; [reflexivity|]. simpl. intros _.
      apply app_singleton_not_nil.
    + eexists. split; [reflexivity|]. simpl. discriminate.
Qed.

Lemma parse_answer_loop_ok (answer : string) :
  forall st, group_open_ok st ->
  exists st', parse_answer_loop answer st = Ok st' /\ group_open_ok st'.
Proof.
  induction answer as [|c rest IH]; intros st Hinv; simpl.
  - eauto.
  - destruct (parse_answer_step_ok st c Hinv) as (st1 & Hstep & Hinv1).
    rewrite Hstep. simpl. apply IH, Hinv1.
Qed.

End ParseAnswer.

Lemma parse_answer_returns (answer : string) :
  exists cells, parse_answer answer = Ok cells.
Proof.
  unfold parse_answer.
  destruct (parse_answer_loop_ok answer ([], false)) as (st & Hst & _).
  - unfold group_open_ok. simpl. discriminate.
  - rewrite Hst. simpl. eauto.
Qed.

(** C8: the three reference inputs of the answer grammar.  A rebus group
    becomes one entry of several characters, a dot outside a group becomes
    an empty entry, and whitespace is skipped. *)
Theorem parse_answer_reference_inputs :
  parse_answer "(red)velvet" = Ok ["red"; "v"; "e"; "l"; "v"; "e"; "t"]
  /\ parse_answer "....s" = Ok [""; ""; ""; ""; "s"]
  /\ parse_answer "red velvet" = Ok ["r"; "e"; "d"; "v"; "e"; "l"; "v"; "e"; "t"].
Proof. repeat split; reflexivity. Qed.

(** C10: [parse_answer] returns a list of strings on every input and never
    raises: the append to the last entry, taken inside a group, always finds
    the entry that opening the group has appended.  A closing parenthesis
    with no open group, an unclosed group and the empty input are among the
    inputs. *)
Theorem parse_answer_total :
  (forall answer : string, exists cells, parse_answer answer = Ok cells)
  /\ (forall (st : list string * bool) (c : ascii),
        group_open_ok st ->
        exists st', parse_answer_step st c = Ok st' /\ group_open_ok st')
  /\ parse_answer ")" = Ok [")"]
  /\ parse_answer "(re" = Ok ["re"]
  /\ parse_answer "" = Ok [].
Proof.
  split; [|split; [|repeat split; reflexivity]].
  - apply parse_answer_returns.
  - apply parse_answer_step_ok.
Qed.

Lemma parse_answer_total_witness :
  group_open_ok (["re"], true)
  /\ exists st', parse_answer_step (["re"], true) "d" = Ok st' /\ group_open_ok st'.
Proof.
  assert (H : group_open_ok (["re"], true)) by (intros _; discriminate).
  split; [exact H|].
  exact (proj1 (proj2 parse_answer_total) (["re"], true) "d"%char H).
Defined.

(** ** Clue references *)

(** A fact about one character that has a hypothesis on it: by inspection
    of the 256 characters. *)
Ltac by_ascii_cases c :=
  destruct c as [[] [] [] [] [] [] [] []]; vm_compute;
  intros; try discriminate; try reflexivity.

Section ParseClue.

(** The number that a string of decimal digits denotes. *)
Fixpoint decimal_from (acc : Z) (ds : string) : Z :=
  match ds with
  | EmptyString => acc
  | String c ds' => decimal_from (10 * acc + (Z.of_N (Py.code c) - 48)) ds'
  end.

Definition decimal (ds : string) : Z := decimal_from 0 ds.

Definition blanks (ws : string) : Prop := Py.string_forallb Py.isspace ws = true.

Definition digits (ds : string) : Prop :=
  ds <> EmptyString /\ Py.string_forallb Py.isdigit ds = true.

Definition direction_letter (l : ascii) : Prop :=
  l = "a"%char \/ l = "A"%char \/ l = "d"%char \/ l = "D"%char.

(** The clue references of the interface: blanks, digits, one direction
    letter, blanks. *)
Definition clue_reference (s : string) : Prop :=
  exists ws1 ds l ws2,
    s = ws1 ++ ds ++ String l ws2
    /\ blanks ws1 /\ digits ds /\ direction_letter l /\ blanks ws2.

Lemma lstrip_blanks (ws s : string) : blanks ws -> Py.lstrip (ws ++ s) = Py.lstrip s.
Proof.
  unfold blanks. induction ws as [|c ws IH]; simpl; [reflexivity|].
  intros H. apply andb_prop in H as [Hc Hws]. rewrite Hc. auto.
Qed.

Lemma rstrip_blanks_nil (ws : string) : blanks ws -> Py.rstrip ws = EmptyString.
Proof.
  unfold blanks. induction ws as [|c ws IH]; simpl; [reflexivity|].
  intros H. apply andb_prop in H as [Hc Hws]. rewrite (IH Hws), Hc. reflexivity.
Qed.

Lemma rstrip_last (s : string) (l : ascii) (ws : string) :
  Py.isspace l = false -> blanks ws ->
  Py.rstrip (s ++ String l ws) = s ++ String l EmptyString.
Proof.
  intros Hl Hws. induction s as [|c s IH]; simpl.
  - rewrite (rstrip_blanks_nil ws Hws), Hl. reflexivity.
  - rewrite IH. destruct s; reflexivity.
Qed.

Lemma but_last_snoc (s : string) (l : ascii) :
  Py.but_last (s ++ String l EmptyString) = s.
Proof.
  induction s as [|c s IH]; [reflexivity|].
  simpl. rewrite IH. destruct s; reflexivity.
Qed.

Lemma last_char_snoc (s : string) (l : ascii) :
  Py.last_char (s ++ String l EmptyString) = Some l.
Proof.
  induction s as [|c s IH]; [reflexivity|].
  simpl. rewrite IH. destruct s; reflexivity.
Qed.

Lemma length_snoc_pos (s : string) (l : ascii) :
  (String.length (s ++ String l EmptyString) =? 0)%nat = false.
Proof. destruct s; reflexivity. Qed.

Lemma isdigit_not_space (c : ascii) : Py.isdigit c = true -> Py.isspace c = false.
Proof. by_ascii_cases c. Qed.

Lemma isdigit_not_c_space (c : ascii) : Py.isdigit c = true -> Py.c_isspace c = false.
Proof. by_ascii_cases c. Qed.

Lemma isdigit_transform (c : ascii) :
  Py.isdigit c = true -> Py.int_transform_char c = c.
Proof. by_ascii_cases c. Qed.

Lemma isdigit_not_char (c d : ascii) :
  Py.isdigit c = true -> Py.isdigit d = false -> Ascii.eqb c d = false.
Proof.
  intros Hc Hd. destruct (Ascii.eqb_spec c d); [congruence | reflexivity].
Qed.

Lemma int_transform_digits (ds : string) :
  Py.string_forallb Py.isdigit ds = true -> Py.int_transform ds = ds.
Proof.
  induction ds as [|c ds IH]; simpl; [reflexivity|].
  intros H. apply andb_prop in H as [Hc Hds].
  rewrite (isdigit_transform c Hc), (IH Hds). reflexivity.
Qed.

Lemma scan_digits_digits (ds : string) :
  Py.string_forallb Py.isdigit ds = true ->
  forall acc, Py.scan_digits acc true ds = Some (decimal_from acc ds).
Proof.
  induction ds as [|c ds IH]; simpl; [reflexivity|].
  intros H acc. apply andb_prop in H as [Hc Hds].
  unfold Py.digit_value. rewrite Hc. apply IH, Hds.
Qed.

Lemma read_int_digits (ds : string) :
  digits ds -> Py.read_int ds = Some (decimal ds).
Proof.
  intros [Hne Hds]. unfold Py.read_int. rewrite (int_transform_digits ds Hds).
  destruct ds as [|c ds]; [congruence|].
  simpl in Hds. apply andb_prop in Hds as [Hc Hds].
  simpl. rewrite (isdigit_not_c_space c Hc).
  rewrite (isdigit_not_char c "-" Hc eq_refl), (isdigit_not_char c "+" Hc eq_refl).
  simpl. unfold Py.digit_value. rewrite Hc.
  apply scan_digits_digits, Hds.
Qed.

Lemma count_digits_digits (ds : string) :
  Py.string_forallb Py.isdigit ds = true -> Py.count_digits ds = String.length ds.
Proof.
  induction ds as [|c ds IH]; simpl; [reflexivity|].
  intros H. apply andb_prop in H as [Hc Hds]. rewrite Hc, (IH Hds). reflexivity.
Qed.

(** [int] reads a string of digits as the number it denotes, up to the
    limit on the number of digits, and refuses it beyond. *)
Lemma int_digits (ds : string) :
  digits ds -> (String.length ds <= Py.max_str_digits)%nat ->
  Py.int ds = Some (decimal ds).
Proof.
  intros Hds Hlen. unfold Py.int. rewrite (read_int_digits ds Hds).
  rewrite (count_digits_digits ds (proj2 Hds)).
  apply Nat.ltb_ge in Hlen. rewrite Hlen. reflexivity.
Qed.

Lemma int_long_digits (ds : string) :
  digits ds -> (Py.max_str_digits < String.length ds)%nat -> Py.int ds = None.
Proof.
  intros Hds Hlen. unfold Py.int. rewrite (read_int_digits ds Hds).
  rewrite (count_digits_digits ds (proj2 Hds)).
  apply Nat.ltb_lt in Hlen. rewrite Hlen. reflexivity.
Qed.

Lemma direction_letter_not_space (l : ascii) :
  direction_letter l -> Py.isspace l = false.
Proof. intros [->|[->|[->| ->]]]; reflexivity. Qed.

Lemma strip_clue_reference (ws1 ds : string) (l : ascii) (ws2 : string) :
  blanks ws1 -> digits ds -> direction_letter l -> blanks ws2 ->
  Py.strip (ws1 ++ ds ++ String l ws2) = ds ++ String l EmptyString.
Proof.
  intros H1 [Hne Hds] Hl H2. unfold Py.strip.
  rewrite (lstrip_blanks ws1 _ H1).
  destruct ds as [|c ds]; [congruence|].
  simpl in Hds. apply andb_prop in Hds as [Hc _].
  change (String c ds ++ String l ws2) with (String c (ds ++ String l ws2)).
  cbn [Py.lstrip]. rewrite (isdigit_not_space c Hc).
  change (String c (ds ++ String l ws2)) with (String c ds ++ String l ws2).
  apply rstrip_last; [apply direction_letter_not_space, Hl | exact H2].
Qed.

(** A clue reference parses to its number and its direction in lower case,
    whatever the blanks around it and the case of the letter. *)
Lemma parse_clue_reference (ws1 ds : string) (l : ascii) (ws2 : string) :
  blanks ws1 -> digits ds -> direction_letter l -> blanks ws2 ->
  (String.length ds <= Py.max_str_digits)%nat ->
  parse_clue (Some (ws1 ++ ds ++ String l ws2))
  = Some (decimal ds, String (Py.lower l) EmptyString).
Proof.
  intros H1 Hds Hl H2 Hlen. unfold parse_clue.
  rewrite (strip_clue_reference ws1 ds l ws2 H1 Hds Hl H2).
  rewrite length_snoc_pos, but_last_snoc, last_char_snoc.
  rewrite (int_digits ds Hds Hlen).
  destruct Hl as [->|[->|[->| ->]]]; reflexivity.
Qed.

(** Beyond the limit on the number of digits the reference does not
    parse. *)
Lemma parse_clue_long_reference (ws1 ds : string) (l : ascii) (ws2 : string) :
  blanks ws1 -> digits ds -> direction_letter l -> blanks ws2 ->
  (Py.max_str_digits < String.length ds)%nat ->
  parse_clue (Some (ws1 ++ ds ++ String l ws2)) = None.
Proof.
  intros H1 Hds Hl H2 Hlen. unfold parse_clue.
  rewrite (strip_clue_reference ws1 ds l ws2 H1 Hds Hl H2).
  rewrite length_snoc_pos, but_last_snoc.
  rewrite (int_long_digits ds Hds Hlen). reflexivity.
Qed.

(** What [parse_clue] accepts, read off the code: the stripped text ends in
    a direction letter and what precedes it is a number for [int]. *)
Lemma parse_clue_spec (s : string) (n : Z) (d : string) :
  parse_clue (Some s) = Some (n, d)
  <-> Py.int (Py.but_last (Py.strip s)) = Some n
      /\ exists l, Py.last_char (Py.strip s) = Some l
                   /\ direction_letter l
                   /\ d = String (Py.lower l) EmptyString.
Proof.
  unfold parse_clue.
  destruct (Py.strip s) as [|c0 t] eqn:Hs.
  - simpl. split; [discriminate|]. intros [H _]. discriminate H.
  - cbn [String.length Nat.eqb].
    destruct (Py.int (Py.but_last (String c0 t))) as [m|]; cycle 1.
    { split; [discriminate|]. intros [H _]. discriminate H. }
    destruct (Py.last_char (String c0 t)) as [l|]; cycle 1.
    { split; [discriminate|]. intros (_ & l & H & _). discriminate H. }
    assert (Hdir : negb (String.eqb (String (Py.lower l) EmptyString) "a")
                   && negb (String.eqb (String (Py.lower l) EmptyString) "d") = false
                   <-> direction_letter l).
    { unfold direction_letter.
      destruct l as [[] [] [] [] [] [] [] []]; vm_compute;
        split; intros H; try discriminate H; auto;
        repeat (destruct H as [H|H]; try discriminate H). }
    destruct (negb (String.eqb (String (Py.lower l) EmptyString) "a")
              && negb (String.eqb (String (Py.lower l) EmptyString) "d")).
    + split; [discriminate|]. intros (_ & l' & Hl' & Hd & _).
      injection Hl' as <-. apply Hdir in Hd. discriminate Hd.
    + split.
      * intros H. injection H as <- <-. split; [reflexivity|].
        exists l. split; [reflexivity|]. split; [apply Hdir; reflexivity | reflexivity].
      * intros (Hm & l' & Hl' & _ & ->). injection Hm as <-. injection Hl' as <-.
        reflexivity.
Qed.

End ParseClue.

Lemma append_nil_r (s : string) : s ++ EmptyString = s.
Proof.
  induction s as [|c s IH]; [reflexivity|].
  change (String c (s ++ EmptyString) = String c s). rewrite IH. reflexivity.
Qed.

Lemma minus_five_a_not_reference : ~ clue_reference "-5a".
Proof.
  intros (ws1 & ds & l & ws2 & Heq & H1 & [Hne Hds] & _ & _).
  destruct ws1 as [|c ws1].
  - destruct ds as [|c ds]; [congruence|].
    simpl in Heq. injection Heq as <- _. discriminate Hds.
  - simpl in Heq. injection Heq as <- _. discriminate H1.
Qed.

(** C3, as the specification states it, fails: a text that is not a clue
    reference can still parse.  ["-5a"] is not of the form blanks, digits,
    direction letter, blanks, and it is read as clue -5 across. *)
Lemma parse_clue_accepts_signed_number :
  ~ clue_reference "-5a" /\ parse_clue (Some "-5a") = Some (-5, "a").
Proof. split; [exact minus_five_a_not_reference | reflexivity]. Qed.

(** C3, amended: a clue reference (blanks, digits, a direction letter in
    either case, blanks) of at most 4300 digits parses to its number and its
    direction in lower case, whatever the blanks and the case; with more
    than 4300 digits it fails, [int] refusing the number.  A text parses
    exactly when, once stripped, it ends in a direction letter and what
    precedes the letter is a number for [int]; so an absent, empty or blank
    text, a last character that is no direction letter, and a leading part
    that [int] refuses all fail.  [int] takes more than digits: a sign,
    single underscores between digits, blanks around the number. *)
Theorem parse_clue_grammar :
  (forall (ws1 ds : string) (l : ascii) (ws2 : string),
     blanks ws1 -> digits ds -> direction_letter l -> blanks ws2 ->
     ((String.length ds <= 4300)%nat ->
      parse_clue (Some (ws1 ++ ds ++ String l ws2))
      = Some (decimal ds, String (Py.lower l) EmptyString))
     /\ ((4300 < String.length ds)%nat ->
         parse_clue (Some (ws1 ++ ds ++ String l ws2)) = None))
  /\ parse_clue None = None
  /\ (forall s, blanks s -> parse_clue (Some s) = None)
  /\ (forall s n d,
        parse_clue (Some s) = Some (n, d)
        <-> Py.int (Py.but_last (Py.strip s)) = Some n
            /\ exists l, Py.last_char (Py.strip s) = Some l
                         /\ direction_letter l
                         /\ d = String (Py.lower l) EmptyString)
  /\ (parse_clue (Some "-5a") = Some (-5, "a")
      /\ parse_clue (Some "+5a") = Some (5, "a")
      /\ parse_clue (Some "1_0d") = Some (10, "d")
      /\ parse_clue (Some "7 D") = Some (7, "d"))
  /\ (parse_clue (Some "a") = None
      /\ parse_clue (Some "12") = None
      /\ parse_clue (Some "12x") = None
      /\ parse_clue (Some "x2a") = None
      /\ parse_clue (Some "1.5d") = None).
Proof.
  split.
  { intros ws1 ds l ws2 H1 Hds Hl H2. split; intros Hlen.
    - apply parse_clue_reference; assumption.
    - apply parse_clue_long_reference; assumption. }
  split; [reflexivity|].
  split.
  { intros s Hs. unfold parse_clue, Py.strip.
    rewrite <- (append_nil_r s) at 1.
    rewrite (lstrip_blanks s EmptyString Hs). reflexivity. }
  split; [exact parse_clue_spec|].
  split; repeat split; reflexivity.
Qed.

Lemma parse_clue_grammar_witness :
  blanks " " /\ digits "12" /\ direction_letter "D"
  /\ parse_clue (Some " 12D  ") = Some (12, "d").
Proof.
  assert (H1 : blanks " ") by reflexivity.
  assert (H2 : digits "12") by (split; [discriminate | reflexivity]).
  assert (H3 : direction_letter "D") by (right; right; right; reflexivity).
  assert (H4 : blanks "  ") by reflexivity.
  split; [exact H1|]. split; [exact H2|]. split; [exact H3|].
  apply (proj1 (proj1 parse_clue_grammar " " "12" "D"%char "  " H1 H2 H3 H4)).
  simpl. lia.
Defined.

(** ** The seconds of an interval *)

Section Seconds.

Lemma round_half_even_bounds (a b : Z) :
  a / b <= Py.round_half_even a b <= a / b + 1.
Proof.
  unfold Py.round_half_even.
  destruct (2 * (a mod b) <? b)%Z; [lia|].
  destruct (b <? 2 * (a mod b))%Z; [lia|].
  destruct (Z.even (a / b)); lia.
Qed.

Lemma mantissa_nonneg (a b : Z) :
  0 < a -> 0 < b -> 0 <= Py.mantissa (Py.true_divide_pos a b).
Proof.
  intros Ha Hb. unfold Py.true_divide_pos. cbn [Py.mantissa].
  match goal with |- context [(0 <=? ?x)%Z] => set (e := x) end.
  destruct (Z.leb_spec 0 e) as [He|He].
  - pose proof (round_half_even_bounds a (b * 2 ^ e)) as [Hlo _].
    assert (0 < 2 ^ e) by (apply Z.pow_pos_nonneg; lia).
    assert (0 <= a / (b * 2 ^ e)) by (apply Z.div_pos; nia). lia.
  - pose proof (round_half_even_bounds (a * 2 ^ (- e)) b) as [Hlo _].
    assert (0 < 2 ^ (- e)) by (apply Z.pow_pos_nonneg; lia).
    assert (0 <= a * 2 ^ (- e) / b) by (apply Z.div_pos; nia). lia.
Qed.



Lemma whole_seconds_opp (delta : Z) :
  whole_seconds (- delta) = - whole_seconds delta.
Proof.
  assert (Hneg : forall x : Py.float,
            Py.int_of_float (Py.mkfloat (- Py.mantissa x) (Py.exponent x))
            = - Py.int_of_float x).
  { intros x. unfold Py.int_of_float. cbn [Py.mantissa Py.exponent].
    destruct (Z.leb_spec 0 (Py.exponent x)) as [He|He]; [lia|].
    apply Z.quot_opp_l.
    assert (0 < 2 ^ (- Py.exponent x)) by (apply Z.pow_pos_nonneg; lia). lia. }
  unfold whole_seconds, total_seconds, Py.true_divide.
  destruct (Z.eqb_spec delta 0) as [->|Hne]; [reflexivity|].
  destruct (Z.eqb_spec (- delta) 0); [lia|].
  destruct (Z.ltb_spec delta 0), (Z.ltb_spec (- delta) 0); try lia.
  - rewrite Hneg. lia.
  - rewrite Z.opp_involutive. apply Hneg.
Qed.

(** Below 2^33 seconds the exponent of the quotient leaves at least twenty
    bits to the fraction. *)
Lemma true_divide_pos_exponent (a : Z) :
  0 < a < 2 ^ 33 * 1000000 ->
  Py.exponent (Py.true_divide_pos a 1000000) <= -20.
Proof.
  intros [Hpos Hlt]. unfold Py.true_divide_pos. cbn [Py.exponent].
  change (2 ^ 33 * 1000000) with 8589934592000000 in Hlt.
  assert (Hlog : Z.log2 a < 53).
  { apply Z.log2_lt_pow2; [exact Hpos|].
    change (2 ^ 53) with 9007199254740992. lia. }
  change (Z.log2 1000000) with 19.
  destruct (Z.eq_dec (Z.log2 a - 19) 33) as [Hk|Hk].
  - rewrite Hk. change (0 <=? 33)%Z with true. cbv iota.
    change (1000000 * 2 ^ 33) with 8589934592000000.
    destruct (Z.leb_spec 8589934592000000 a); lia.
  - destruct (if (0 <=? Z.log2 a - 19)%Z then _ else _); lia.
Qed.

Lemma whole_seconds_pos (a : Z) :
  0 < a < 2 ^ 33 * 1000000 -> whole_seconds a = a / 1000000.
Proof.
  intros Ha. pose proof (true_divide_pos_exponent a Ha) as He.
  pose proof (mantissa_nonneg a 1000000 (proj1 Ha) eq_refl) as Hm.
  unfold whole_seconds, total_seconds, Py.true_divide.
  destruct (Z.eqb_spec a 0) as [Hz|_]; [lia|].
  destruct (Z.ltb_spec a 0) as [Hz|_]; [lia|].
  unfold Py.int_of_float.
  destruct (Z.leb_spec 0 (Py.exponent (Py.true_divide_pos a 1000000)))
    as [Hz|_]; [lia|].
  unfold Py.true_divide_pos in *. cbn [Py.mantissa Py.exponent] in *.
  match type of He with ?x <= _ => set (e := x) in * end.
  destruct (Z.leb_spec 0 e) as [Hz|_]; [lia|].
  assert (HP : 1048576 <= 2 ^ (- e)).
  { change 1048576 with (2 ^ 20). apply Z.pow_le_mono_r; lia. }
  set (P := 2 ^ (- e)) in *.
  pose proof (round_half_even_bounds (a * P) 1000000) as [Hlo Hhi].
  set (m := Py.round_half_even (a * P) 1000000) in *.
  rewrite Z.quot_div_nonneg by lia.
  pose proof (Z.div_mod a 1000000 ltac:(lia)) as Hn.
  pose proof (Z.mod_pos_bound a 1000000 eq_refl) as Hr1.
  pose proof (Z.div_mod (a * P) 1000000 ltac:(lia)) as Hq.
  pose proof (Z.mod_pos_bound (a * P) 1000000 eq_refl) as Hr2.
  set (n := a / 1000000) in *. set (r1 := a mod 1000000) in *.
  set (q := a * P / 1000000) in *. set (r2 := (a * P) mod 1000000) in *.
  assert (Hr1P : r1 * P <= 999999 * P) by (apply Z.mul_le_mono_nonneg_r; lia).
  assert (HaP : a * P = 1000000 * (n * P) + r1 * P) by (rewrite Hn at 1; ring).
  assert (0 <= r1 * P) by (apply Z.mul_nonneg_nonneg; lia).
  symmetry. apply (Z.div_unique m P n (m - P * n)); [left; lia | lia].
Qed.

(** For an interval shorter than 2^33 seconds, some 272 years, the float is
    near enough to the quotient: the seconds are those of the interval,
    toward zero. *)
Lemma whole_seconds_exact (delta : Z) :
  Z.abs delta < 2 ^ 33 * 1000000 ->
  whole_seconds delta = Z.quot delta 1000000.
Proof.
  intros H. destruct (Z.lt_trichotomy delta 0) as [Hneg|[->|Hpos]].
  - rewrite <- (Z.opp_involutive delta) at 1. rewrite whole_seconds_opp.
    rewrite whole_seconds_pos by lia.
    rewrite <- (Z.opp_involutive delta) at 2.
    rewrite Z.quot_opp_l by lia. rewrite Z.quot_div_nonneg by lia. reflexivity.
  - reflexivity.
  - rewrite whole_seconds_pos by lia. rewrite Z.quot_div_nonneg by lia.
    reflexivity.
Qed.

Lemma whole_seconds_floor (delta : Z) :
  0 <= delta < 2 ^ 33 * 1000000 -> whole_seconds delta = delta / 1000000.
Proof.
  intros H. rewrite whole_seconds_exact by lia. apply Z.quot_div_nonneg; lia.
Qed.

End Seconds.

(** ** The play/pause timer *)

Section PlayPause.

Definition room_key (name : string) : string := "room:" ++ name.

(** What a call returns and leaves behind when it saves and returns [room']:
    the room object it was given is untouched. *)
Definition saves (name : string) (w : World) (room' : Room.t) : result Room.t * World :=
  (Ok room', mkWorld (obj w) (<[room_key name := room']> (store w))).


Lemma play_pause_start (name : string) (now : datetime) (w : World) :
  Room.play_pause_state (obj w) = "created"
  \/ Room.play_pause_state (obj w) = "paused" ->
  play_pause name now w
  = saves name w (Room.evolve (obj w) "playing" (Some now)
                    (Room.total_time_secs (obj w))).
Proof.
  intros H. unfold play_pause, bind, get_room_obj.
  destruct H as [-> | ->]; reflexivity.
Qed.

Lemma play_pause_stop (name : string) (now started : datetime) (w : World) :
  Room.play_pause_state (obj w) = "playing" ->
  Room.last_start_time (obj w) = Some started ->
  play_pause name now w
  = saves name w (Room.evolve (obj w) "paused" None
                    (Room.total_time_secs (obj w) + whole_seconds (now - started))).
Proof.
  intros Hs Hl. unfold play_pause, bind, get_room_obj.
  rewrite Hs, Hl. reflexivity.
Qed.


End PlayPause.




(** ** The monad: what the loops leave alone *)

Section Quiet.

(** The fields of a room that only [attr.evolve] can change. *)
Definition frozen (room : Room.t) : string * Puzzle.t * option datetime * Z :=
  (Room.play_pause_state room, Room.puzzle room, Room.last_start_time room,
   Room.total_time_secs room).

(** A computation is quiet when, whatever its outcome, it leaves the frozen
    fields of the room object and the store as they were. *)
Definition quiet {A} (m : M A) : Prop :=
  forall w, frozen (obj (m w).2) = frozen (obj w) /\ store (m w).2 = store w.

Lemma bind_Ok {A B} (m : M A) (k : A -> M B) (w w' : World) (b : B) :
  bind m k w = (Ok b, w') ->
  exists a w1, m w = (Ok a, w1) /\ k a w1 = (Ok b, w').
Proof.
  unfold bind. destruct (m w) as [[a|e] w1]; [eauto | discriminate].
Qed.

Lemma quiet_run {A} (m : M A) (w w' : World) (r : result A) :
  quiet m -> m w = (r, w') ->
  frozen (obj w') = frozen (obj w) /\ store w' = store w.
Proof. intros Hq Hrun. specialize (Hq w). rewrite Hrun in Hq. exact Hq. Qed.

Lemma quiet_ret {A} (a : A) : quiet (ret a).
Proof. intros w. split; reflexivity. Qed.

Lemma quiet_raise {A} (e : exn) : quiet (@raise A e).
Proof. intros w. split; reflexivity. Qed.

Lemma quiet_lift {A} (r : result A) : quiet (lift r).
Proof. intros w. split; reflexivity. Qed.

Lemma quiet_get : quiet get_room_obj.
Proof. intros w. split; reflexivity. Qed.

Lemma quiet_bind {A B} (m : M A) (k : A -> M B) :
  quiet m -> (forall a, quiet (k a)) -> quiet (bind m k).
Proof.
  intros Hm Hk w. unfold bind. specialize (Hm w).
  destruct (m w) as [[a|e] w1]; simpl in *.
  - destruct (Hk a w1) as [H1 H2]. destruct Hm as [H3 H4].
    split; congruence.
  - exact Hm.
Qed.

Lemma quiet_for_each {A} (l : list A) (body : A -> M unit) :
  (forall a, quiet (body a)) -> quiet (for_each l body).
Proof.
  intros Hbody. induction l as [|a l IH]; simpl.
  - apply quiet_ret.
  - apply quiet_bind; [apply Hbody | intros _; exact IH].
Qed.

Lemma set_cell_run (y x : nat) (v : cell) (w : World) :
  set_cell y x v w
  = match grid_set (Room.cells (obj w)) y x v with
    | Ok g => (Ok tt, mkWorld (Room.with_cells (obj w) g) (store w))
    | Raise e => (Raise e, w)
    end.
Proof.
  unfold set_cell, bind, get_room_obj, lift, put_room_obj.
  destruct (grid_set _ _ _ _); reflexivity.
Qed.

Lemma quiet_set_cell (y x : nat) (v : cell) : quiet (set_cell y x v).
Proof.
  intros w. rewrite set_cell_run.
  destruct (grid_set _ _ _ _); split; reflexivity.
Qed.

Lemma quiet_write_value (allow_clearing : bool) (p : string * (nat * nat)) :
  quiet (write_value allow_clearing p).
Proof.
  destruct p as [value [x y]]. unfold write_value.
  destruct (allow_clearing || negb (String.eqb value EmptyString)).
  - apply quiet_set_cell.
  - apply quiet_ret.
Qed.

End Quiet.

Section QuietEngine.

Variable get_answer_cells : Puzzle.t -> Z -> string -> list (nat * nat).

Lemma update_across_run (num : Z) (w : World) :
  update_across get_answer_cells num w
  = match all_filled (Room.cells (obj w))
            (get_answer_cells (Room.puzzle (obj w)) num "a") with
    | Ok b => (Ok tt, mkWorld (Room.with_across (obj w)
                                 (<[num := b]> (Room.across_clues_filled (obj w))))
                              (store w))
    | Raise e => (Raise e, w)
    end.
Proof.
  unfold update_across, bind, get_room_obj, lift, put_room_obj.
  destruct (all_filled _ _); reflexivity.
Qed.

Lemma update_down_run (num : Z) (w : World) :
  update_down get_answer_cells num w
  = match all_filled (Room.cells (obj w))
            (get_answer_cells (Room.puzzle (obj w)) num "d") with
    | Ok b => (Ok tt, mkWorld (Room.with_down (obj w)
                                 (<[num := b]> (Room.down_clues_filled (obj w))))
                              (store w))
    | Raise e => (Raise e, w)
    end.
Proof.
  unfold update_down, bind, get_room_obj, lift, put_room_obj.
  destruct (all_filled _ _); reflexivity.
Qed.

Lemma quiet_update_across (num : Z) : quiet (update_across get_answer_cells num).
Proof.
  intros w. rewrite update_across_run.
  destruct (all_filled _ _); split; reflexivity.
Qed.

Lemma quiet_update_down (num : Z) : quiet (update_down get_answer_cells num).
Proof.
  intros w. rewrite update_down_run.
  destruct (all_filled _ _); split; reflexivity.
Qed.

Lemma quiet_update_filled : quiet (update_filled get_answer_cells).
Proof.
  unfold update_filled. apply quiet_bind; [apply quiet_get|]. intros room.
  apply quiet_bind.
  - apply quiet_for_each, quiet_update_across.
  - intros _. apply quiet_for_each, quiet_update_down.
Qed.

Lemma quiet_clear_cell (y x : nat) : quiet (clear_cell y x).
Proof.
  unfold clear_cell. apply quiet_bind; [apply quiet_get|]. intros room.
  apply quiet_bind; [apply quiet_lift|]. intros v.
  destruct (truthy v); [|apply quiet_ret].
  apply quiet_bind; [apply quiet_lift|]. intros s.
  destruct (bool_decide (v ≠ s)); [apply quiet_set_cell | apply quiet_ret].
Qed.

End QuietEngine.

(** ** Rejection, completion and faults of [apply_answer] *)

Section ApplyAnswer.

Variable get_answer_cells : Puzzle.t -> Z -> string -> list (nat * nat).

Lemma frozen_state (r r' : Room.t) :
  frozen r' = frozen r ->
  Room.play_pause_state r' = Room.play_pause_state r
  /\ Room.puzzle r' = Room.puzzle r
  /\ Room.last_start_time r' = Room.last_start_time r
  /\ Room.total_time_secs r' = Room.total_time_secs r.
Proof. unfold frozen. intros H. injection H as -> -> -> ->. auto. Qed.

(** The first two loops of [apply_answer], then those of
    [clear_incorrect_cells]. *)
Definition write_and_update (allow_clearing : bool)
    (pairs : list (string * (nat * nat))) : M unit :=
  for_each pairs (write_value allow_clearing) ;;;
  update_filled get_answer_cells.

Lemma quiet_write_and_update (allow_clearing : bool) pairs :
  quiet (write_and_update allow_clearing pairs).
Proof.
  apply quiet_bind.
  - apply quiet_for_each, quiet_write_value.
  - intros _. apply quiet_update_filled.
Qed.

Definition clear_and_update (rows cols : Z) : M unit :=
  for_each (seq 0 (Z.to_nat rows)) (fun y =>
    for_each (seq 0 (Z.to_nat cols)) (fun x => clear_cell y x)) ;;;
  update_filled get_answer_cells.

Lemma quiet_clear_and_update (rows cols : Z) : quiet (clear_and_update rows cols).
Proof.
  apply quiet_bind.
  - apply quiet_for_each. intros y. apply quiet_for_each, quiet_clear_cell.
  - intros _. apply quiet_update_filled.
Qed.

(** The end of [apply_answer]: the completion check, the save, the return. *)
Definition finish (name : string) (now : datetime) : M (option Room.t) :=
  room <- get_room_obj ;;
  if bool_decide (Room.cells room = Puzzle.cells (Room.puzzle room)) then
    match Room.last_start_time room with
    | None => raise TypeError
    | Some started =>
        let total_time_secs :=
          Room.total_time_secs room + whole_seconds (now - started) in
        let room := Room.evolve room "complete" None total_time_secs in
        set_room name room ;;; ret (Some room)
    end
  else
    set_room name room ;;; ret (Some room).

(** [apply_answer], once the clue and the answer are parsed and the lengths
    agree, is the two loops followed by [finish]. *)
Lemma apply_answer_run (name : string) (clue : option string) (answer : string)
    (allow_clearing : bool) (now : datetime) (w : World)
    (num : Z) (direction : string) (values : list string) :
  parse_clue clue = Some (num, direction) ->
  parse_answer answer = Ok values ->
  length values = length (get_answer_cells (Room.puzzle (obj w)) num direction) ->
  apply_answer get_answer_cells name clue answer allow_clearing now w
  = bind (write_and_update allow_clearing
            (zip values (get_answer_cells (Room.puzzle (obj w)) num direction)))
         (fun _ => finish name now) w.
Proof.
  intros Hclue Hans Hlen. unfold apply_answer. rewrite Hclue.
  unfold bind at 1. unfold lift. rewrite Hans.
  unfold bind at 1. unfold get_room_obj at 1.
  rewrite Hlen, Nat.eqb_refl. change (negb true) with false. cbv iota.
  unfold write_and_update, finish, bind.
  destruct (for_each _ _ w) as [[[]|e] w1]; [|reflexivity].
  destruct (update_filled _ w1) as [[[]|e] w2]; reflexivity.
Qed.

Lemma clear_incorrect_cells_run (name : string) (w : World) :
  clear_incorrect_cells get_answer_cells name w
  = bind (clear_and_update (Puzzle.rows (Room.puzzle (obj w)))
            (Puzzle.cols (Room.puzzle (obj w))))
         (fun _ => room <- get_room_obj ;; set_room name room ;;; ret room) w.
Proof.
  unfold clear_incorrect_cells, clear_and_update, bind, get_room_obj.
  destruct (for_each _ _ w) as [[[]|e] w1]; [|reflexivity].
  destruct (update_filled _ w1) as [[[]|e] w2]; reflexivity.
Qed.

Lemma apply_answer_mismatch (name : string) (clue : option string)
    (answer : string) (allow_clearing : bool) (now : datetime) (w : World)
    (num : Z) (direction : string) (values : list string) :
  parse_clue clue = Some (num, direction) ->
  parse_answer answer = Ok values ->
  length values <> length (get_answer_cells (Room.puzzle (obj w)) num direction) ->
  apply_answer get_answer_cells name clue answer allow_clearing now w = (Ok None, w).
Proof.
  intros Hclue Hans Hlen. unfold apply_answer. rewrite Hclue.
  unfold bind at 1. unfold lift. rewrite Hans.
  unfold bind at 1. unfold get_room_obj at 1.
  destruct (Nat.eqb_spec (length values)
              (length (get_answer_cells (Room.puzzle (obj w)) num direction)));
    [contradiction | reflexivity].
Qed.

(** In a room that is complete with no last start, [finish] either raises
    or saves and returns the room object as it is. *)
Lemma finish_complete (name : string) (now : datetime) (w : World) :
  Room.last_start_time (obj w) = None ->
  finish name now w = (Raise TypeError, w)
  \/ finish name now w
     = (Ok (Some (obj w)), mkWorld (obj w) (<[room_key name := obj w]> (store w))).
Proof.
  intros Hl. unfold finish, bind, get_room_obj.
  destruct (bool_decide _); [left | right].
  - rewrite Hl. reflexivity.
  - reflexivity.
Qed.

End ApplyAnswer.

(** C4: when the clue parses and the parsed answer has another length than
    the list of coordinates the clue resolves to, [apply_answer] returns the
    rejection, and the room object and the store are what they were: no
    cell, no filled flag, no state or timer field has changed and nothing
    has been saved. *)
Theorem apply_answer_rejects_length_mismatch
    (get_answer_cells : Puzzle.t -> Z -> string -> list (nat * nat))
    (name : string) (clue : option string) (answer : string)
    (allow_clearing : bool) (now : datetime) (w : World)
    (num : Z) (direction : string) (values : list string) :
  parse_clue clue = Some (num, direction) ->
  parse_answer answer = Ok values ->
  length values <> length (get_answer_cells (Room.puzzle (obj w)) num direction) ->
  apply_answer get_answer_cells name clue answer allow_clearing now w = (Ok None, w).
Proof. apply apply_answer_mismatch. Qed.

Lemma apply_answer_rejects_length_mismatch_witness :
  parse_clue (Some "1a") = Some (1, "a")
  /\ parse_answer "CA" = Ok ["C"; "A"]
  /\ apply_answer demo_answer_cells "demo" (Some "1a") "CA" true 0
       (demo_world (demo_room "playing" CAT [Some ""; Some ""; Some ""] (Some 0) 0))
     = (Ok None,
        demo_world (demo_room "playing" CAT [Some ""; Some ""; Some ""] (Some 0) 0)).
Proof.
  split; [reflexivity|]. split; [reflexivity|].
  apply (apply_answer_rejects_length_mismatch demo_answer_cells "demo"
           (Some "1a") "CA" true 0 _ 1 "a" ["C"; "A"]).
  - reflexivity.
  - reflexivity.
  - vm_compute. lia.
Defined.

(** C1: in a room whose state is "complete" and whose last start is absent,
    a call of [apply_answer] or of [clear_incorrect_cells] leaves the state
    of the room object "complete" and its last start absent, whatever the
    outcome of the call; a room that the call returns is in that state, with
    no last start, and is the one saved under the name of the room. *)
Theorem completion_is_terminal
    (get_answer_cells : Puzzle.t -> Z -> string -> list (nat * nat))
    (name : string) (clue : option string) (answer : string)
    (allow_clearing : bool) (now : datetime) (w : World) :
  Room.play_pause_state (obj w) = "complete" ->
  Room.last_start_time (obj w) = None ->
  (Room.play_pause_state
     (obj (apply_answer get_answer_cells name clue answer allow_clearing now w).2)
   = "complete"
   /\ Room.last_start_time
        (obj (apply_answer get_answer_cells name clue answer allow_clearing now w).2)
      = None
   /\ forall room',
        (apply_answer get_answer_cells name clue answer allow_clearing now w).1
        = Ok (Some room') ->
        Room.play_pause_state room' = "complete"
        /\ Room.last_start_time room' = None
        /\ store (apply_answer get_answer_cells name clue answer allow_clearing now w).2
             !! room_key name = Some room')
  /\ (Room.play_pause_state (obj (clear_incorrect_cells get_answer_cells name w).2)
      = "complete"
      /\ Room.last_start_time (obj (clear_incorrect_cells get_answer_cells name w).2)
         = None
      /\ forall room',
           (clear_incorrect_cells get_answer_cells name w).1 = Ok room' ->
           Room.play_pause_state room' = "complete"
           /\ Room.last_start_time room' = None
           /\ store (clear_incorrect_cells get_answer_cells name w).2
                !! room_key name = Some room').
Proof.
  intros Hs Hl. split.
  - destruct (parse_clue clue) as [[num direction]|] eqn:Hclue; cycle 1.
    { unfold apply_answer. rewrite Hclue. simpl.
      split; [assumption|]. split; [assumption|]. intros room' [=]. }
    destruct (parse_answer_returns answer) as [values Hans].
    destruct (decide (length values
                      = length (get_answer_cells (Room.puzzle (obj w)) num direction)))
      as [Hlen|Hlen]; cycle 1.
    { rewrite (apply_answer_mismatch _ _ _ _ _ _ _ _ _ _ Hclue Hans Hlen). simpl.
      split; [assumption|]. split; [assumption|]. intros room' [=]. }
    rewrite (apply_answer_run _ _ _ _ _ _ _ _ _ _ Hclue Hans Hlen).
    unfold bind.
    pose proof (quiet_write_and_update get_answer_cells allow_clearing
                  (zip values (get_answer_cells (Room.puzzle (obj w)) num direction)) w)
      as [Hq _].
    destruct (write_and_update _ _ _ w) as [[[]|e] w1]; simpl in Hq;
      apply frozen_state in Hq as (Hs1 & _ & Hl1 & _);
      rewrite Hs in Hs1; rewrite Hl in Hl1.
    + destruct (finish_complete name now w1 Hl1) as [-> | ->]; simpl.
      * split; [assumption|]. split; [assumption|]. intros room' [=].
      * split; [assumption|]. split; [assumption|]. intros room' [= <-].
        split; [assumption|]. split; [assumption|]. apply lookup_insert_eq.
    + simpl. split; [assumption|]. split; [assumption|]. intros room' [=].
  - rewrite clear_incorrect_cells_run. unfold bind.
    pose proof (quiet_clear_and_update get_answer_cells
                  (Puzzle.rows (Room.puzzle (obj w)))
                  (Puzzle.cols (Room.puzzle (obj w))) w) as [Hq _].
    destruct (clear_and_update _ _ _ w) as [[[]|e] w1]; simpl in Hq;
      apply frozen_state in Hq as (Hs1 & _ & Hl1 & _);
      rewrite Hs in Hs1; rewrite Hl in Hl1; simpl.
    + split; [assumption|]. split; [assumption|]. intros room' [= <-].
      split; [assumption|]. split; [assumption|]. apply lookup_insert_eq.
    + split; [assumption|]. split; [assumption|]. intros room' [=].
Qed.

Lemma completion_is_terminal_witness :
  Room.play_pause_state (obj (demo_world (demo_room "complete" CAT CAT None 42)))
  = "complete"
  /\ Room.last_start_time (obj (demo_world (demo_room "complete" CAT CAT None 42)))
     = None
  /\ Room.play_pause_state
       (obj (apply_answer demo_answer_cells "demo" (Some "1a") "dog" true 7
               (demo_world (demo_room "complete" CAT CAT None 42))).2)
     = "complete"
  /\ Room.play_pause_state
       (obj (clear_incorrect_cells demo_answer_cells "demo"
               (demo_world (demo_room "complete" CAT CAT None 42))).2)
     = "complete".
Proof.
  split; [reflexivity|]. split; [reflexivity|].
  pose proof (completion_is_terminal demo_answer_cells "demo" (Some "1a") "dog"
                true 7 (demo_world (demo_room "complete" CAT CAT None 42))
                eq_refl eq_refl) as [[H1 _] [H2 _]].
  split; [exact H1 | exact H2].
Defined.

(** C2 does not hold of the code: the completion branch of [apply_answer]
    subtracts the last start from the clock whatever the state of the room.
    In a paused room, which has no last start, the answer that completes the
    grid raises [TypeError]: the grid and the flags of the room object have
    been updated in place by then, and nothing is saved. *)
Lemma apply_answer_completing_while_paused_raises :
  Room.play_pause_state (demo_room "paused" CAT [Some "C"; Some "A"; Some ""] None 30)
  = "paused"
  /\ Room.last_start_time (demo_room "paused" CAT [Some "C"; Some "A"; Some ""] None 30)
     = None
  /\ apply_answer demo_answer_cells "demo" (Some "1a") "..T" false 5000000
       (demo_world (demo_room "paused" CAT [Some "C"; Some "A"; Some ""] None 30))
     = (Raise TypeError,
        demo_world
          (Room.mk "paused" (demo_puzzle CAT) [CAT]
             (<[1 := true]> ∅)
             (<[1 := true]> (<[2 := true]> (<[3 := true]> ∅)))
             None 30)).
Proof. split; [reflexivity|]. split; [reflexivity|]. vm_compute. reflexivity. Qed.

(** ** Grids *)

Section Grid.

Lemma grid_get_set (g g' : grid) (y x : nat) (v : cell) :
  grid_set g y x v = Ok g' ->
  forall y' x',
    grid_get g' y' x'
    = if decide (y' = y /\ x' = x) then Ok v else grid_get g y' x'.
Proof.
  unfold grid_set.
  destruct (g !! y) as [row|] eqn:Hrow; [|discriminate].
  case_decide as Hx; [|discriminate]. intros [= <-] y' x'.
  unfold grid_get. destruct (decide (y' = y)) as [->|Hy].
  - rewrite list_lookup_insert_eq by (eapply lookup_lt_Some; eassumption).
    destruct (decide (x' = x)) as [->|Hx'].
    + rewrite list_lookup_insert_eq by assumption.
      case_decide as H; [reflexivity | exfalso; auto].
    + rewrite list_lookup_insert_ne by congruence.
      case_decide as H; [exfalso; apply Hx', H|]. rewrite Hrow. reflexivity.
  - rewrite list_lookup_insert_ne by congruence.
    case_decide as H; [exfalso; apply Hy, H | reflexivity].
Qed.

(** The test of the source on a cell: it differs from the empty string. *)
Definition nonblank (g : grid) (p : nat * nat) : Prop :=
  exists v, grid_get g p.2 p.1 = Ok v /\ v <> Some EmptyString.

(** The cell holds a text that is not empty. *)
Definition holds_text (g : grid) (p : nat * nat) : Prop :=
  exists s, grid_get g p.2 p.1 = Ok (Some s) /\ s <> EmptyString.

Definition is_block (g : grid) (p : nat * nat) : Prop :=
  grid_get g p.2 p.1 = Ok None.

Lemma holds_text_nonblank (g : grid) (p : nat * nat) :
  holds_text g p -> nonblank g p.
Proof. intros (s & H & Hs). exists (Some s). split; [exact H | congruence]. Qed.

Lemma nonblank_holds_text (g : grid) (p : nat * nat) :
  ~ is_block g p -> nonblank g p -> holds_text g p.
Proof.
  intros Hb (v & H & Hv). destruct v as [s|]; [|contradiction].
  exists s. split; [exact H | congruence].
Qed.

Lemma all_filled_true (g : grid) (coordinates : list (nat * nat)) :
  all_filled g coordinates = Ok true <-> Forall (nonblank g) coordinates.
Proof.
  induction coordinates as [|[x y] rest IH]; simpl.
  - split; [constructor | reflexivity].
  - split.
    + intros H. destruct (grid_get g y x) as [v|e] eqn:Hv; [|discriminate].
      simpl in H. case_bool_decide as Hne; [|discriminate].
      constructor; [exists v; auto | apply IH, H].
    + intros H. apply Forall_cons in H as [(v & Hv & Hne) Hrest].
      simpl in Hv. rewrite Hv. simpl. rewrite bool_decide_eq_true_2 by assumption.
      apply IH, Hrest.
Qed.

Lemma all_filled_false (g : grid) (coordinates : list (nat * nat)) :
  all_filled g coordinates = Ok false -> ~ Forall (nonblank g) coordinates.
Proof.
  intros H Hall. apply all_filled_true in Hall. congruence.
Qed.

Lemma all_filled_iff (g : grid) (coordinates : list (nat * nat)) (b : bool) :
  all_filled g coordinates = Ok b ->
  (b = true <-> Forall (nonblank g) coordinates).
Proof.
  intros H. destruct b.
  - split; [intros _; apply all_filled_true, H | reflexivity].
  - split; [discriminate | intros Hall; exfalso; exact (all_filled_false _ _ H Hall)].
Qed.

(** No cell that is a block in [g'] was anything else in [g]. *)
Definition no_new_blocks (g g' : grid) : Prop :=
  forall p, is_block g' p -> is_block g p.

Lemma grid_set_text_no_new_blocks (g g' : grid) (y x : nat) (s : string) :
  grid_set g y x (Some s) = Ok g' -> no_new_blocks g g'.
Proof.
  intros Hset [x' y']. unfold is_block. simpl.
  rewrite (grid_get_set g g' y x (Some s) Hset y' x').
  case_decide; [discriminate | auto].
Qed.

End Grid.

Section Loops.

(** A fact that each turn of a loop establishes between the world before
    and the world after holds between the ends of the loop. *)
Lemma for_each_rel {A} (R : World -> World -> Prop) (l : list A)
    (body : A -> M unit) :
  (forall w, R w w) ->
  (forall w1 w2 w3, R w1 w2 -> R w2 w3 -> R w1 w3) ->
  (forall a w w', body a w = (Ok tt, w') -> R w w') ->
  forall w w', for_each l body w = (Ok tt, w') -> R w w'.
Proof.
  intros Hrefl Htrans Hbody. induction l as [|a l IH]; intros w w' Hrun.
  - injection Hrun as <-. apply Hrefl.
  - simpl in Hrun. apply bind_Ok in Hrun as ([] & w1 & H1 & H2).
    eapply Htrans; [eapply Hbody, H1 | apply IH, H2].
Qed.

Variable direction : string.
Variable get_answer_cells : Puzzle.t -> Z -> string -> list (nat * nat).

(** The flags that the loop sets, the flags of the other direction, and
    one turn of the loop. *)
Variable flags other : Room.t -> gmap Z bool.
Variable update : Z -> M unit.

Hypothesis update_ok : forall num w w',
  update num w = (Ok tt, w') ->
  exists b,
    all_filled (Room.cells (obj w))
      (get_answer_cells (Room.puzzle (obj w)) num direction) = Ok b
    /\ Room.cells (obj w') = Room.cells (obj w)
    /\ Room.puzzle (obj w') = Room.puzzle (obj w)
    /\ other (obj w') = other (obj w)
    /\ flags (obj w') = <[num := b]> (flags (obj w)).

Lemma flag_loop (nums : list Z) :
  forall w w',
    for_each nums update w = (Ok tt, w') ->
    Room.cells (obj w') = Room.cells (obj w)
    /\ Room.puzzle (obj w') = Room.puzzle (obj w)
    /\ other (obj w') = other (obj w)
    /\ (forall n, n ∉ nums -> flags (obj w') !! n = flags (obj w) !! n)
    /\ (forall n, n ∈ nums ->
          exists b,
            flags (obj w') !! n = Some b
            /\ all_filled (Room.cells (obj w))
                 (get_answer_cells (Room.puzzle (obj w)) n direction) = Ok b).
Proof.
  induction nums as [|a nums IH]; intros w w' Hrun.
  - injection Hrun as <-. repeat split; try reflexivity.
    intros n Hn. inversion Hn.
  - simpl in Hrun. apply bind_Ok in Hrun as ([] & w1 & H1 & H2).
    apply update_ok in H1 as (b & Hb & Hc1 & Hp1 & Ho1 & Hf1).
    apply IH in H2 as (Hc2 & Hp2 & Ho2 & Hout & Hin).
    split; [congruence|]. split; [congruence|]. split; [congruence|]. split.
    + intros n Hn. apply not_elem_of_cons in Hn as [Hna Hn].
      rewrite (Hout n Hn), Hf1. apply lookup_insert_ne. congruence.
    + intros n Hn. destruct (decide (n ∈ nums)) as [Hnn|Hnn].
      * destruct (Hin n Hnn) as (b' & Hb' & Hall). exists b'.
        split; [exact Hb'|]. rewrite <- Hc1, <- Hp1. exact Hall.
      * apply elem_of_cons in Hn as [-> | Hn]; [|contradiction].
        exists b. split; [|exact Hb].
        rewrite (Hout a Hnn), Hf1. apply lookup_insert_eq.
Qed.

End Loops.

(** ** The filled flags *)

Section Flags.

Variable get_answer_cells : Puzzle.t -> Z -> string -> list (nat * nat).

Lemma set_cell_Ok (y x : nat) (v : cell) (w w' : World) :
  set_cell y x v w = (Ok tt, w') ->
  exists g', grid_set (Room.cells (obj w)) y x v = Ok g'
             /\ w' = mkWorld (Room.with_cells (obj w) g') (store w).
Proof.
  rewrite set_cell_run. destruct (grid_set _ _ _ _) as [g'|e]; [|discriminate].
  intros [= <-]. eauto.
Qed.

Lemma update_across_ok (num : Z) (w w' : World) :
  update_across get_answer_cells num w = (Ok tt, w') ->
  exists b,
    all_filled (Room.cells (obj w))
      (get_answer_cells (Room.puzzle (obj w)) num "a") = Ok b
    /\ Room.cells (obj w') = Room.cells (obj w)
    /\ Room.puzzle (obj w') = Room.puzzle (obj w)
    /\ Room.down_clues_filled (obj w') = Room.down_clues_filled (obj w)
    /\ Room.across_clues_filled (obj w')
       = <[num := b]> (Room.across_clues_filled (obj w)).
Proof.
  rewrite update_across_run. destruct (all_filled _ _) as [b|e]; [|discriminate].
  intros [= <-]. exists b. repeat split; reflexivity.
Qed.

Lemma update_down_ok (num : Z) (w w' : World) :
  update_down get_answer_cells num w = (Ok tt, w') ->
  exists b,
    all_filled (Room.cells (obj w))
      (get_answer_cells (Room.puzzle (obj w)) num "d") = Ok b
    /\ Room.cells (obj w') = Room.cells (obj w)
    /\ Room.puzzle (obj w') = Room.puzzle (obj w)
    /\ Room.across_clues_filled (obj w') = Room.across_clues_filled (obj w)
    /\ Room.down_clues_filled (obj w')
       = <[num := b]> (Room.down_clues_filled (obj w)).
Proof.
  rewrite update_down_run. destruct (all_filled _ _) as [b|e]; [|discriminate].
  intros [= <-]. exists b. repeat split; reflexivity.
Qed.

Lemma elem_of_keys {V} (d : gmap Z V) (n : Z) : n ∈ keys d <-> n ∈ dom d.
Proof.
  unfold keys. rewrite elem_of_dom, list_elem_of_fmap. split.
  - intros ([k v] & -> & H). apply elem_of_map_to_list in H. simpl. eauto.
  - intros [v H]. exists (n, v). split; [reflexivity|].
    apply elem_of_map_to_list, H.
Qed.

(** The flag of a clue says whether each of its cells passes the test [P]. *)
Definition flag_says (P : nat * nat -> Prop) (coordinates : list (nat * nat))
    (flag : option bool) : Prop :=
  exists b, flag = Some b /\ (b = true <-> Forall P coordinates).

(** Every clue of the puzzle has its flag, and the flag is right. *)
Definition flags_say (P : grid -> nat * nat -> Prop) (room : Room.t) : Prop :=
  (forall n, n ∈ dom (Puzzle.across_clues (Room.puzzle room)) ->
     flag_says (P (Room.cells room))
       (get_answer_cells (Room.puzzle room) n "a")
       (Room.across_clues_filled room !! n))
  /\ (forall n, n ∈ dom (Puzzle.down_clues (Room.puzzle room)) ->
        flag_says (P (Room.cells room))
          (get_answer_cells (Room.puzzle room) n "d")
          (Room.down_clues_filled room !! n)).

(** The puzzle store resolves no clue of the puzzle to a block of the
    grid. *)
Definition playable (room : Room.t) : Prop :=
  (forall n, n ∈ dom (Puzzle.across_clues (Room.puzzle room)) ->
     Forall (fun p => ~ is_block (Room.cells room) p)
       (get_answer_cells (Room.puzzle room) n "a"))
  /\ (forall n, n ∈ dom (Puzzle.down_clues (Room.puzzle room)) ->
        Forall (fun p => ~ is_block (Room.cells room) p)
          (get_answer_cells (Room.puzzle room) n "d")).

Lemma update_filled_ok (w w' : World) :
  update_filled get_answer_cells w = (Ok tt, w') ->
  Room.cells (obj w') = Room.cells (obj w)
  /\ Room.puzzle (obj w') = Room.puzzle (obj w)
  /\ flags_say nonblank (obj w').
Proof.
  unfold update_filled. unfold bind at 1. unfold get_room_obj at 1.
  intros Hrun. apply bind_Ok in Hrun as ([] & w1 & Ha & Hd).
  apply (flag_loop "a" get_answer_cells Room.across_clues_filled
           Room.down_clues_filled (update_across get_answer_cells)
           update_across_ok) in Ha as (Hc1 & Hp1 & _ & _ & Hin1).
  apply (flag_loop "d" get_answer_cells Room.down_clues_filled
           Room.across_clues_filled (update_down get_answer_cells)
           update_down_ok) in Hd as (Hc2 & Hp2 & Ho2 & _ & Hin2).
  split; [congruence|]. split; [congruence|]. split.
  - intros n Hn. rewrite Hp2, Hp1 in Hn. apply elem_of_keys in Hn.
    destruct (Hin1 n Hn) as (b & Hb & Hall).
    exists b. split; [rewrite Ho2; exact Hb|].
    rewrite Hc2, Hc1, Hp2, Hp1. apply all_filled_iff, Hall.
  - intros n Hn. rewrite Hp2, Hp1 in Hn. apply elem_of_keys in Hn.
    destruct (Hin2 n Hn) as (b & Hb & Hall).
    exists b. split; [exact Hb|].
    rewrite Hc2, Hp2. apply all_filled_iff, Hall.
Qed.

(** With no block among the cells of the clues, the test of the source is
    the one of the data model: the cell holds a text that is not empty. *)
Lemma flags_say_text (room : Room.t) :
  playable room -> flags_say nonblank room -> flags_say holds_text room.
Proof.
  intros [Hpa Hpd] [Ha Hd]. split; intros n Hn.
  - destruct (Ha n Hn) as (b & Hb & Hiff). exists b. split; [exact Hb|].
    rewrite Hiff. specialize (Hpa n Hn). rewrite !Forall_forall in *.
    split; intros H p Hp.
    + apply nonblank_holds_text; auto.
    + apply holds_text_nonblank; auto.
  - destruct (Hd n Hn) as (b & Hb & Hiff). exists b. split; [exact Hb|].
    rewrite Hiff. specialize (Hpd n Hn). rewrite !Forall_forall in *.
    split; intros H p Hp.
    + apply nonblank_holds_text; auto.
    + apply holds_text_nonblank; auto.
Qed.

Lemma playable_no_new_blocks (room room' : Room.t) :
  Room.puzzle room' = Room.puzzle room ->
  no_new_blocks (Room.cells room) (Room.cells room') ->
  playable room -> playable room'.
Proof.
  intros Hp Hnb [Ha Hd]. unfold playable. rewrite Hp.
  split; intros n Hn; [specialize (Ha n Hn) | specialize (Hd n Hn)];
    rewrite Forall_forall in *; intros p Hin Hb; (eapply Ha || eapply Hd); eauto.
Qed.

End Flags.

(** ** What a successful call has done *)

Section Returns.

Variable get_answer_cells : Puzzle.t -> Z -> string -> list (nat * nat).

Lemma apply_answer_Ok (name : string) (clue : option string) (answer : string)
    (allow_clearing : bool) (now : datetime) (w w' : World) (room' : Room.t) :
  apply_answer get_answer_cells name clue answer allow_clearing now w
  = (Ok (Some room'), w') ->
  exists num direction values wa wb,
    parse_clue clue = Some (num, direction)
    /\ parse_answer answer = Ok values
    /\ length values
       = length (get_answer_cells (Room.puzzle (obj w)) num direction)
    /\ for_each (zip values (get_answer_cells (Room.puzzle (obj w)) num direction))
         (write_value allow_clearing) w = (Ok tt, wa)
    /\ update_filled get_answer_cells wa = (Ok tt, wb)
    /\ finish name now wb = (Ok (Some room'), w').
Proof.
  intros Hrun.
  destruct (parse_clue clue) as [[num direction]|] eqn:Hclue; cycle 1.
  { unfold apply_answer in Hrun. rewrite Hclue in Hrun. discriminate Hrun. }
  destruct (parse_answer_returns answer) as [values Hans].
  destruct (decide (length values
                    = length (get_answer_cells (Room.puzzle (obj w)) num direction)))
    as [Hlen|Hlen]; cycle 1.
  { rewrite (apply_answer_mismatch _ _ _ _ _ _ _ _ _ _ Hclue Hans Hlen) in Hrun.
    discriminate Hrun. }
  rewrite (apply_answer_run _ _ _ _ _ _ _ _ _ _ Hclue Hans Hlen) in Hrun.
  apply bind_Ok in Hrun as ([] & wb & Hwu & Hfin).
  apply bind_Ok in Hwu as ([] & wa & Hwrite & Hupd).
  exists num, direction, values, wa, wb. auto 10.
Qed.

Lemma finish_Ok (name : string) (now : datetime) (w w' : World) (room' : Room.t) :
  finish name now w = (Ok (Some room'), w') ->
  Room.cells room' = Room.cells (obj w)
  /\ Room.puzzle room' = Room.puzzle (obj w)
  /\ Room.across_clues_filled room' = Room.across_clues_filled (obj w)
  /\ Room.down_clues_filled room' = Room.down_clues_filled (obj w).
Proof.
  unfold finish, bind, get_room_obj.
  destruct (bool_decide _).
  - destruct (Room.last_start_time (obj w)); [|discriminate].
    simpl. intros [= <- _]. auto.
  - simpl. intros [= <- _]. auto.
Qed.

Lemma clear_incorrect_cells_Ok (name : string) (w w' : World) (room' : Room.t) :
  clear_incorrect_cells get_answer_cells name w = (Ok room', w') ->
  exists wa wb,
    for_each (seq 0 (Z.to_nat (Puzzle.rows (Room.puzzle (obj w))))) (fun y =>
      for_each (seq 0 (Z.to_nat (Puzzle.cols (Room.puzzle (obj w))))) (fun x =>
        clear_cell y x)) w = (Ok tt, wa)
    /\ update_filled get_answer_cells wa = (Ok tt, wb)
    /\ room' = obj wb.
Proof.
  rewrite clear_incorrect_cells_run. intros Hrun.
  apply bind_Ok in Hrun as ([] & wb & Hcu & Hfin).
  apply bind_Ok in Hcu as ([] & wa & Hclear & Hupd).
  exists wa, wb. split; [exact Hclear|]. split; [exact Hupd|].
  unfold bind, get_room_obj, set_room, ret in Hfin. simpl in Hfin.
  injection Hfin as <- _. reflexivity.
Qed.

(** The block relation, on worlds. *)
Definition blocks_kept (w w' : World) : Prop :=
  no_new_blocks (Room.cells (obj w)) (Room.cells (obj w')).

Lemma blocks_kept_refl (w : World) : blocks_kept w w.
Proof. intros p H. exact H. Qed.

Lemma blocks_kept_trans (w1 w2 w3 : World) :
  blocks_kept w1 w2 -> blocks_kept w2 w3 -> blocks_kept w1 w3.
Proof. intros H12 H23 p H. apply H12, H23, H. Qed.

Lemma set_cell_blocks_kept (y x : nat) (s : string) (w w' : World) :
  set_cell y x (Some s) w = (Ok tt, w') -> blocks_kept w w'.
Proof.
  intros (g' & Hset & ->)%set_cell_Ok. unfold blocks_kept. simpl.
  eapply grid_set_text_no_new_blocks, Hset.
Qed.

Lemma write_value_blocks_kept (allow_clearing : bool) (p : string * (nat * nat))
    (w w' : World) :
  write_value allow_clearing p w = (Ok tt, w') -> blocks_kept w w'.
Proof.
  destruct p as [value [x y]]. unfold write_value.
  destruct (allow_clearing || negb (String.eqb value EmptyString)).
  - apply set_cell_blocks_kept.
  - intros [= <-]. apply blocks_kept_refl.
Qed.

Lemma clear_cell_blocks_kept (y x : nat) (w w' : World) :
  clear_cell y x w = (Ok tt, w') -> blocks_kept w w'.
Proof.
  unfold clear_cell. unfold bind at 1. unfold get_room_obj at 1.
  unfold bind at 1. unfold lift at 1.
  destruct (grid_get (Room.cells (obj w)) y x) as [v|e]; [|discriminate].
  destruct (truthy v); cycle 1.
  { intros [= <-]. apply blocks_kept_refl. }
  unfold bind at 1. unfold lift at 1.
  destruct (grid_get (Puzzle.cells (Room.puzzle (obj w))) y x) as [s|e];
    [|discriminate].
  destruct (bool_decide (v ≠ s)).
  - apply set_cell_blocks_kept.
  - intros [= <-]. apply blocks_kept_refl.
Qed.

End Returns.

(** C5: after a call of [apply_answer] that returns a room, and after a call
    of [clear_incorrect_cells], in a room where no clue of the puzzle
    resolves to a block, every across clue number and every down clue number
    of the puzzle has its flag in the returned room, and the flag is true
    exactly when every cell the clue resolves to holds a text that is not
    empty in the returned grid: for the clue named in the call and for every
    other clue alike. *)
Theorem filled_flags_recomputed
    (get_answer_cells : Puzzle.t -> Z -> string -> list (nat * nat))
    (name : string) (clue : option string) (answer : string)
    (allow_clearing : bool) (now : datetime) (w w' : World) (room' : Room.t) :
  apply_answer get_answer_cells name clue answer allow_clearing now w
  = (Ok (Some room'), w')
  \/ clear_incorrect_cells get_answer_cells name w = (Ok room', w') ->
  playable get_answer_cells (obj w) ->
  flags_say get_answer_cells holds_text room'.
Proof.
  intros Hrun Hplay.
  assert (exists wa wb,
             blocks_kept w wa
             /\ update_filled get_answer_cells wa = (Ok tt, wb)
             /\ Room.puzzle (obj wa) = Room.puzzle (obj w)
             /\ Room.cells room' = Room.cells (obj wb)
             /\ Room.puzzle room' = Room.puzzle (obj wb)
             /\ Room.across_clues_filled room' = Room.across_clues_filled (obj wb)
             /\ Room.down_clues_filled room' = Room.down_clues_filled (obj wb))
    as (wa & wb & Hkept & Hupd & Hpa & Hc & Hp & Hfa & Hfd).
  { destruct Hrun as [Hrun|Hrun].
    - apply apply_answer_Ok in Hrun
        as (num & direction & values & wa & wb & _ & _ & _ & Hwrite & Hupd & Hfin).
      apply finish_Ok in Hfin as (Hc & Hp & Hfa & Hfd).
      exists wa, wb. split.
      { revert Hwrite. apply for_each_rel.
        - apply blocks_kept_refl.
        - apply blocks_kept_trans.
        - apply write_value_blocks_kept. }
      split; [exact Hupd|]. split; [|auto].
      assert (Hq : quiet (for_each
                (zip values (get_answer_cells (Room.puzzle (obj w)) num direction))
                (write_value allow_clearing)))
        by apply quiet_for_each, quiet_write_value.
      apply (quiet_run _ _ _ _ Hq) in Hwrite as [Hfr _].
      apply frozen_state in Hfr. tauto.
    - apply clear_incorrect_cells_Ok in Hrun as (wa & wb & Hclear & Hupd & ->).
      exists wa, wb. split.
      { revert Hclear. apply for_each_rel.
        - apply blocks_kept_refl.
        - apply blocks_kept_trans.
        - intros y. apply for_each_rel.
          + apply blocks_kept_refl.
          + apply blocks_kept_trans.
          + intros x. apply clear_cell_blocks_kept. }
      split; [exact Hupd|]. split; [|auto].
      assert (Hq : quiet (for_each
                (seq 0 (Z.to_nat (Puzzle.rows (Room.puzzle (obj w))))) (fun y =>
                for_each (seq 0 (Z.to_nat (Puzzle.cols (Room.puzzle (obj w)))))
                  (fun x => clear_cell y x)))).
      { apply quiet_for_each. intros y. apply quiet_for_each, quiet_clear_cell. }
      apply (quiet_run _ _ _ _ Hq) in Hclear as [Hfr _].
      apply frozen_state in Hfr. tauto. }
  apply update_filled_ok in Hupd as (Hcb & Hpb & Hflags).
  assert (Hplay' : playable get_answer_cells room').
  { apply (playable_no_new_blocks get_answer_cells (obj w)).
    - congruence.
    - rewrite Hc, Hcb. exact Hkept.
    - exact Hplay. }
  apply flags_say_text; [exact Hplay'|].
  destruct Hflags as [Ha Hd]. unfold flags_say.
  rewrite Hc, Hp, Hfa, Hfd. split; assumption.
Qed.

Lemma demo_playable (solution row : list cell) (state : string)
    (last : option datetime) (total : Z) (c0 c1 c2 : string) :
  row = [Some c0; Some c1; Some c2] ->
  playable demo_answer_cells (demo_room state solution row last total).
Proof.
  intros ->. split; intros n _; unfold demo_answer_cells; simpl;
    repeat match goal with |- context [(?a =? ?b)%Z] => destruct (a =? b)%Z end;
    repeat constructor; unfold is_block; simpl; discriminate.
Qed.

Lemma filled_flags_recomputed_witness :
  flags_say demo_answer_cells holds_text
    (Room.mk "playing" (demo_puzzle COT) [CAT]
       (<[1 := true]> ∅)
       (<[1 := true]> (<[2 := true]> (<[3 := true]> ∅)))
       (Some 0) 0).
Proof.
  apply (filled_flags_recomputed demo_answer_cells "demo" (Some "1a") ".AT" false 9
           (demo_world (demo_room "playing" COT [Some "C"; Some ""; Some ""] (Some 0) 0))
           (mkWorld
              (Room.mk "playing" (demo_puzzle COT) [CAT]
                 (<[1 := true]> ∅)
                 (<[1 := true]> (<[2 := true]> (<[3 := true]> ∅)))
                 (Some 0) 0)
              (<["room:demo" :=
                   Room.mk "playing" (demo_puzzle COT) [CAT]
                     (<[1 := true]> ∅)
                     (<[1 := true]> (<[2 := true]> (<[3 := true]> ∅)))
                     (Some 0) 0]> ∅))).
  - left. vm_compute. reflexivity.
  - apply (demo_playable COT _ "playing" (Some 0) 0 "C" "" ""). reflexivity.
Defined.

(** ** The writes of [apply_answer] *)

Section Writes.

Variable allow_clearing : bool.

(** What the write of one value leaves in a cell that held [old]. *)
Definition written (value : string) (old : result cell) : result cell :=
  if allow_clearing || negb (String.eqb value EmptyString)
  then Ok (Some value) else old.

Lemma write_value_cells (value : string) (x y : nat) (w w' : World) :
  write_value allow_clearing (value, (x, y)) w = (Ok tt, w') ->
  grid_get (Room.cells (obj w')) y x
  = written value (grid_get (Room.cells (obj w)) y x)
  /\ forall x' y', (x', y') <> (x, y) ->
       grid_get (Room.cells (obj w')) y' x' = grid_get (Room.cells (obj w)) y' x'.
Proof.
  unfold write_value, written.
  destruct (allow_clearing || negb (String.eqb value EmptyString)).
  - intros (g' & Hset & ->)%set_cell_Ok. simpl. split.
    + rewrite (grid_get_set _ _ _ _ _ Hset). case_decide as H; [reflexivity|].
      exfalso. auto.
    + intros x' y' Hne. rewrite (grid_get_set _ _ _ _ _ Hset).
      case_decide as H; [|reflexivity]. destruct H as [-> ->]. contradiction.
  - intros [= <-]. auto.
Qed.

Lemma write_loop_untouched (pairs : list (string * (nat * nat))) :
  forall w w',
    for_each pairs (write_value allow_clearing) w = (Ok tt, w') ->
    forall x y, (x, y) ∉ pairs.*2 ->
      grid_get (Room.cells (obj w')) y x = grid_get (Room.cells (obj w)) y x.
Proof.
  induction pairs as [|[value [x0 y0]] pairs IH]; intros w w' Hrun x y Hout.
  - injection Hrun as <-. reflexivity.
  - simpl in Hrun. apply bind_Ok in Hrun as ([] & w1 & H1 & H2).
    rewrite fmap_cons in Hout. apply not_elem_of_cons in Hout as [Hne Hout].
    rewrite (IH _ _ H2 x y Hout).
    apply (write_value_cells _ _ _ _ _ H1). exact Hne.
Qed.

Lemma write_loop_written (pairs : list (string * (nat * nat))) :
  NoDup pairs.*2 ->
  forall w w',
    for_each pairs (write_value allow_clearing) w = (Ok tt, w') ->
    forall i value x y,
      pairs !! i = Some (value, (x, y)) ->
      grid_get (Room.cells (obj w')) y x
      = written value (grid_get (Room.cells (obj w)) y x).
Proof.
  induction pairs as [|[value0 [x0 y0]] pairs IH]; intros Hnd w w' Hrun i value x y Hi.
  - discriminate Hi.
  - simpl in Hrun. apply bind_Ok in Hrun as ([] & w1 & H1 & H2).
    rewrite fmap_cons in Hnd. apply NoDup_cons in Hnd as [Hfresh Hnd].
    destruct (write_value_cells _ _ _ _ _ H1) as [Hhere Hothers].
    destruct i as [|i]; simpl in Hi.
    + injection Hi as -> -> ->.
      rewrite (write_loop_untouched _ _ _ H2 x y Hfresh). exact Hhere.
    + rewrite (IH Hnd _ _ H2 i value x y Hi). f_equal.
      apply Hothers. intros [= -> ->]. apply Hfresh.
      apply list_elem_of_fmap. exists (value, (x0, y0)). split; [reflexivity|].
      eapply list_elem_of_lookup_2, Hi.
Qed.

End Writes.

(** C7: in a call of [apply_answer] that returns a room, for a clue whose
    coordinates are distinct, the cell of each (value, coordinate) pair
    holds the value when clearing is allowed, an empty value included; when
    clearing is not allowed it holds the value if the value is not empty,
    and what it held before the call if the value is empty.  Applying
    ["..T"] to a clue of three cells that hold C, A, T leaves C, A, T
    without clearing and gives "", "", T with clearing.  Each turn of the
    loop does as much to its own cell, whatever the other coordinates. *)
Theorem partial_write_policy :
  (forall (get_answer_cells : Puzzle.t -> Z -> string -> list (nat * nat))
          (name : string) (clue : option string) (answer : string)
          (allow_clearing : bool) (now : datetime) (w w' : World)
          (room' : Room.t) (num : Z) (direction : string) (values : list string),
     apply_answer get_answer_cells name clue answer allow_clearing now w
     = (Ok (Some room'), w') ->
     parse_clue clue = Some (num, direction) ->
     parse_answer answer = Ok values ->
     NoDup (get_answer_cells (Room.puzzle (obj w)) num direction) ->
     forall (i : nat) (value : string) (x y : nat),
       values !! i = Some value ->
       get_answer_cells (Room.puzzle (obj w)) num direction !! i = Some (x, y) ->
       (allow_clearing = true ->
        grid_get (Room.cells room') y x = Ok (Some value))
       /\ (allow_clearing = false -> value <> EmptyString ->
           grid_get (Room.cells room') y x = Ok (Some value))
       /\ (allow_clearing = false -> value = EmptyString ->
           grid_get (Room.cells room') y x
           = grid_get (Room.cells (obj w)) y x))
  /\ (forall (allow_clearing : bool) (value : string) (x y : nat) (w w1 : World),
        write_value allow_clearing (value, (x, y)) w = (Ok tt, w1) ->
        (allow_clearing = true ->
         grid_get (Room.cells (obj w1)) y x = Ok (Some value))
        /\ (allow_clearing = false -> value <> EmptyString ->
            grid_get (Room.cells (obj w1)) y x = Ok (Some value))
        /\ (allow_clearing = false -> value = EmptyString -> w1 = w))
  /\ (exists room',
        (apply_answer demo_answer_cells "demo" (Some "1a") "..T" false 9
           (demo_world (demo_room "playing" COT CAT (Some 0) 0))).1
        = Ok (Some room')
        /\ Room.cells room' = [[Some "C"; Some "A"; Some "T"]])
  /\ (exists room',
        (apply_answer demo_answer_cells "demo" (Some "1a") "..T" true 9
           (demo_world (demo_room "playing" COT CAT (Some 0) 0))).1
        = Ok (Some room')
        /\ Room.cells room' = [[Some ""; Some ""; Some "T"]]).
Proof.
  split; [|split; [|split; eexists; (split; [vm_compute; reflexivity | reflexivity])]];
    cycle 1.
  { intros allow value x y w w1 Hstep.
    pose proof (write_value_cells allow value x y w w1 Hstep) as [Hcell _].
    unfold written in Hcell. split; [|split].
    - intros ->. exact Hcell.
    - intros -> Hne. simpl in Hcell.
      destruct (String.eqb_spec value EmptyString); [contradiction | exact Hcell].
    - intros -> ->. unfold write_value in Hstep. simpl in Hstep.
      injection Hstep as <-. reflexivity. }
  intros gac name clue answer allow now w w' room' num direction values
    Hrun Hclue Hans Hnd i value x y Hv Hxy.
  apply apply_answer_Ok in Hrun
    as (num' & direction' & values' & wa & wb & Hclue' & Hans' & Hlen
        & Hwrite & Hupd & Hfin).
  rewrite Hclue in Hclue'. injection Hclue' as <- <-.
  rewrite Hans in Hans'. injection Hans' as <-.
  apply finish_Ok in Hfin as (Hc & _).
  apply update_filled_ok in Hupd as (Hcb & _).
  assert (Hcell : grid_get (Room.cells room') y x
                  = written allow value (grid_get (Room.cells (obj w)) y x)).
  { rewrite Hc, Hcb.
    apply (write_loop_written allow
             (zip values (gac (Room.puzzle (obj w)) num direction)))
      with (i := i) (w := w) (w' := wa).
    - rewrite snd_zip by lia. exact Hnd.
    - exact Hwrite.
    - rewrite lookup_zip_with, Hv. simpl. rewrite Hxy. reflexivity. }
  rewrite Hcell. unfold written. split; [|split].
  - intros ->. reflexivity.
  - intros -> Hne. simpl.
    destruct (String.eqb_spec value EmptyString); [contradiction | reflexivity].
  - intros -> ->. reflexivity.
Qed.

Lemma partial_write_policy_witness :
  grid_get [[Some "C"; Some "A"; Some "T"]] 0 1 = Ok (Some "A")
  /\ grid_get [[Some "C"; Some "A"; Some "T"]] 0 1
     = grid_get (Room.cells (obj (demo_world (demo_room "playing" COT CAT (Some 0) 0))))
         0 1.
Proof.
  split; [reflexivity|].
  refine (proj2 (proj2 (proj1 partial_write_policy demo_answer_cells "demo"
            (Some "1a") "..T" false 9
            (demo_world (demo_room "playing" COT CAT (Some 0) 0))
            (mkWorld
               (Room.mk "playing" (demo_puzzle COT) [CAT]
                  (<[1 := true]> ∅)
                  (<[1 := true]> (<[2 := true]> (<[3 := true]> ∅)))
                  (Some 0) 0)
               (<["room:demo" :=
                    Room.mk "playing" (demo_puzzle COT) [CAT]
                      (<[1 := true]> ∅)
                      (<[1 := true]> (<[2 := true]> (<[3 := true]> ∅)))
                      (Some 0) 0]> ∅))
            (Room.mk "playing" (demo_puzzle COT) [CAT]
               (<[1 := true]> ∅)
               (<[1 := true]> (<[2 := true]> (<[3 := true]> ∅)))
               (Some 0) 0)
            1 "a" [""; ""; "T"] _ _ _ _ 1%nat "" 1%nat 0%nat _ _)) _ _).
  - vm_compute. reflexivity.
  - reflexivity.
  - reflexivity.
  - apply (bool_decide_unpack _). vm_compute. exact I.
  - reflexivity.
  - reflexivity.
  - reflexivity.
  - reflexivity.
Defined.

(** ** Integers as decimal text *)

(** The number of decimal digits of an integer, as the limit of the
    conversions counts them. *)
Definition decimal_digits (n : Z) : nat := Py.count_digits (Py.decimal_text n).

Section IntStr.

Lemma uint_digits (d : Decimal.uint) :
  Py.string_forallb Py.isdigit (NilEmpty.string_of_uint d) = true.
Proof. induction d; simpl; auto. Qed.

Lemma decimal_from_uint_acc (d : Decimal.uint) :
  forall p : positive,
    decimal_from (Z.pos p) (NilEmpty.string_of_uint d)
    = Z.pos (Pos.of_uint_acc d p).
Proof.
  induction d as [|d IH|d IH|d IH|d IH|d IH|d IH|d IH|d IH|d IH|d IH];
    intros p; [reflexivity|..];
    cbn [NilEmpty.string_of_uint decimal_from Pos.of_uint_acc];
    rewrite <- IH; f_equal; vm_compute (Z.of_N (Py.code _) - 48); lia.
Qed.

Lemma decimal_uint (d : Decimal.uint) :
  decimal (NilEmpty.string_of_uint d) = Z.of_N (Pos.of_uint d).
Proof.
  unfold decimal.
  induction d as [|d IH|d IH|d IH|d IH|d IH|d IH|d IH|d IH|d IH|d IH];
    [reflexivity | exact IH | ..];
    cbn [NilEmpty.string_of_uint decimal_from Pos.of_uint];
    cbn [Z.of_N]; rewrite <- decimal_from_uint_acc; f_equal.
Qed.

Lemma pos_digits (p : positive) :
  digits (NilEmpty.string_of_uint (Pos.to_uint p)).
Proof.
  split; [|apply uint_digits].
  intros Hnil. pose proof (DecimalPos.Unsigned.of_to p) as Hp.
  destruct (Pos.to_uint p); try discriminate Hnil. discriminate Hp.
Qed.

Lemma scan_digits_start (ds : string) :
  digits ds -> Py.scan_digits 0 false ds = Some (decimal ds).
Proof.
  intros [Hne Hds]. destruct ds as [|c ds]; [congruence|].
  simpl in Hds. apply andb_prop in Hds as [Hc Hds].
  simpl. unfold Py.digit_value. rewrite Hc.
  apply scan_digits_digits, Hds.
Qed.

Lemma read_int_minus_digits (ds : string) :
  digits ds -> Py.read_int (String "-" ds) = Some (- decimal ds).
Proof.
  intros Hds. unfold Py.read_int. cbn [Py.int_transform].
  rewrite (int_transform_digits ds (proj2 Hds)).
  change (Py.int_transform_char "-") with "-"%char.
  cbn [Py.c_lstrip]. change (Py.c_isspace "-") with false. cbv iota.
  change (Ascii.eqb "-" "-") with true. cbv iota.
  rewrite (scan_digits_start ds Hds). reflexivity.
Qed.

Lemma int_minus_digits (ds : string) :
  digits ds -> (String.length ds <= Py.max_str_digits)%nat ->
  Py.int (String "-" ds) = Some (- decimal ds).
Proof.
  intros Hds Hlen. unfold Py.int. rewrite (read_int_minus_digits ds Hds).
  cbn [Py.count_digits]. change (Py.isdigit "-") with false. cbv iota.
  rewrite (count_digits_digits ds (proj2 Hds)).
  apply Nat.ltb_ge in Hlen. rewrite Hlen. reflexivity.
Qed.

(** The decimal text of an integer reads back as the integer, up to the
    limit on the number of digits. *)
Lemma int_decimal_text (n : Z) :
  (decimal_digits n <= Py.max_str_digits)%nat ->
  Py.int (Py.decimal_text n) = Some n.
Proof.
  unfold decimal_digits.
  destruct n as [|p|p]; [reflexivity|..]; unfold Py.decimal_text; simpl.
  - rewrite (count_digits_digits _ (proj2 (pos_digits p))). intros Hlen.
    rewrite (int_digits _ (pos_digits p) Hlen), decimal_uint.
    rewrite DecimalPos.Unsigned.of_to. reflexivity.
  - rewrite (count_digits_digits _ (proj2 (pos_digits p))). intros Hlen.
    rewrite (int_minus_digits _ (pos_digits p) Hlen), decimal_uint.
    rewrite DecimalPos.Unsigned.of_to. reflexivity.
Qed.

Lemma str_short (n : Z) :
  (decimal_digits n <= Py.max_str_digits)%nat ->
  Py.str n = Some (Py.decimal_text n).
Proof.
  intros Hlen. unfold Py.str. fold (decimal_digits n).
  apply Nat.ltb_ge in Hlen. rewrite Hlen. reflexivity.
Qed.

Lemma str_long (n : Z) :
  (Py.max_str_digits < decimal_digits n)%nat -> Py.str n = None.
Proof.
  intros Hlen. unfold Py.str. fold (decimal_digits n).
  apply Nat.ltb_lt in Hlen. rewrite Hlen. reflexivity.
Qed.

(** The text that [str] gives reads back as the integer. *)
Lemma int_str (n : Z) (text : string) :
  Py.str n = Some text -> Py.int text = Some n.
Proof.
  destruct (Nat.le_gt_cases (decimal_digits n) Py.max_str_digits) as [H|H].
  - rewrite (str_short n H). intros [= <-]. apply int_decimal_text, H.
  - rewrite (str_long n H). discriminate.
Qed.

End IntStr.

(** ** The size of an integer and the number of its digits *)

Section Digits.

Lemma digit_value_bounds (c : ascii) :
  Py.isdigit c = true -> 0 <= Z.of_N (Py.code c) - 48 <= 9.
Proof.
  destruct c as [[] [] [] [] [] [] [] []]; intros H; try discriminate H;
    split; intros Hc; vm_compute in Hc; discriminate Hc.
Qed.

Lemma decimal_from_split (ds : string) :
  Py.string_forallb Py.isdigit ds = true ->
  forall acc,
    decimal_from acc ds = acc * 10 ^ Z.of_nat (String.length ds) + decimal ds
    /\ 0 <= decimal ds < 10 ^ Z.of_nat (String.length ds).
Proof.
  unfold decimal. induction ds as [|c ds IH]; intros Hds acc.
  - simpl. lia.
  - simpl in Hds. apply andb_prop in Hds as [Hc Hds].
    pose proof (digit_value_bounds c Hc) as Hd.
    cbn [decimal_from String.length].
    destruct (IH Hds (10 * acc + (Z.of_N (Py.code c) - 48))) as [-> _].
    destruct (IH Hds (10 * 0 + (Z.of_N (Py.code c) - 48))) as [-> Hb].
    rewrite Nat2Z.inj_succ, Z.pow_succ_r by lia.
    set (P := 10 ^ Z.of_nat (String.length ds)) in *.
    set (d := Z.of_N (Py.code c) - 48) in *.
    set (r := decimal_from 0 ds) in *.
    split; [ring|]. nia.
Qed.

(** A string of digits that does not start with a zero is at least the
    power of ten of its length less one. *)
Lemma decimal_lower (c : ascii) (ds : string) :
  Py.string_forallb Py.isdigit (String c ds) = true ->
  c <> "0"%char ->
  10 ^ Z.of_nat (String.length ds) <= decimal (String c ds).
Proof.
  intros Hds Hc. simpl in Hds. apply andb_prop in Hds as [Hdc Hds].
  unfold decimal. cbn [decimal_from].
  destruct (decimal_from_split ds Hds (10 * 0 + (Z.of_N (Py.code c) - 48)))
    as [-> Hb].
  assert (1 <= Z.of_N (Py.code c) - 48).
  { revert Hdc Hc. destruct c as [[] [] [] [] [] [] [] []]; intros H Hne;
      try discriminate H; try (exfalso; apply Hne; reflexivity);
      intros Hc; vm_compute in Hc; discriminate Hc. }
  assert (0 < 10 ^ Z.of_nat (String.length ds)) by (apply Z.pow_pos_nonneg; lia).
  nia.
Qed.

Lemma to_uint_normal (p : positive) :
  Decimal.unorm (Pos.to_uint p) = Pos.to_uint p.
Proof.
  rewrite <- (DecimalPos.Unsigned.to_of (Pos.to_uint p)).
  rewrite DecimalPos.Unsigned.of_to. reflexivity.
Qed.

(** The text of a positive number does not start with a zero. *)
Lemma to_uint_head (p : positive) :
  exists c ds,
    NilEmpty.string_of_uint (Pos.to_uint p) = String c ds /\ c <> "0"%char.
Proof.
  pose proof (to_uint_normal p) as Hn.
  pose proof (DecimalPos.Unsigned.to_uint_nonzero p) as Hz.
  destruct (Pos.to_uint p) as [|d|d|d|d|d|d|d|d|d|d];
    try (eexists; eexists; split; [reflexivity | discriminate]).
  - exfalso. apply Hz. discriminate Hn.
  - exfalso. destruct d as [|d|d|d|d|d|d|d|d|d|d];
      try (apply Hz; reflexivity).
    all: match type of Hn with
         | Decimal.unorm (Decimal.D0 ?u) = _ =>
             assert (Hu : u <> Decimal.Nil) by discriminate;
             pose proof (DecimalFacts.nb_digits_unorm u Hu) as Hle;
             change (Decimal.unorm (Decimal.D0 u)) with (Decimal.unorm u) in Hn;
             rewrite Hn in Hle; simpl in Hle; lia
         end.
Qed.

Lemma decimal_digits_pos (p : positive) :
  10 ^ (Z.of_nat (decimal_digits (Z.pos p)) - 1) <= Z.pos p
  /\ Z.pos p < 10 ^ Z.of_nat (decimal_digits (Z.pos p)).
Proof.
  unfold decimal_digits, Py.decimal_text. simpl.
  pose proof (pos_digits p) as [_ Hds].
  rewrite (count_digits_digits _ Hds).
  pose proof (decimal_uint (Pos.to_uint p)) as Hval.
  rewrite DecimalPos.Unsigned.of_to in Hval. simpl in Hval.
  destruct (to_uint_head p) as (c & ds & Heq & Hc).
  rewrite Heq in *. split.
  - rewrite <- Hval. cbn [String.length].
    replace (Z.of_nat (S (String.length ds)) - 1)
      with (Z.of_nat (String.length ds)) by lia.
    apply decimal_lower; assumption.
  - rewrite <- Hval. apply (decimal_from_split _ Hds 0).
Qed.

Lemma decimal_digits_opp (p : positive) :
  decimal_digits (Z.neg p) = decimal_digits (Z.pos p).
Proof. reflexivity. Qed.

(** An integer has at most [k] digits exactly when it is below the [k]-th
    power of ten in absolute value. *)
Lemma decimal_digits_le (n : Z) (k : nat) :
  (1 <= k)%nat ->
  (decimal_digits n <= k)%nat <-> Z.abs n < 10 ^ Z.of_nat k.
Proof.
  intros Hk.
  assert (Hpos : forall p,
            (decimal_digits (Z.pos p) <= k)%nat <-> Z.pos p < 10 ^ Z.of_nat k).
  { intros p. destruct (decimal_digits_pos p) as [Hlo Hhi]. split.
    - intros Hle. eapply Z.lt_le_trans; [exact Hhi|].
      apply Z.pow_le_mono_r; lia.
    - intros Hlt. destruct (Nat.le_gt_cases (decimal_digits (Z.pos p)) k)
        as [H|H]; [exact H|]. exfalso.
      assert (10 ^ Z.of_nat k <= 10 ^ (Z.of_nat (decimal_digits (Z.pos p)) - 1))
        by (apply Z.pow_le_mono_r; lia).
      lia. }
  destruct n as [|p|p].
  - change (decimal_digits 0) with 1%nat. simpl Z.abs.
    assert (0 < 10 ^ Z.of_nat k) by (apply Z.pow_pos_nonneg; lia).
    split; intros; [assumption | lia].
  - apply Hpos.
  - rewrite decimal_digits_opp. apply Hpos.
Qed.

Lemma decimal_digits_limit (n : Z) :
  (decimal_digits n <= Py.max_str_digits)%nat <-> Z.abs n < 10 ^ 4300.
Proof.
  change 4300 with (Z.of_nat Py.max_str_digits).
  apply decimal_digits_le. unfold Py.max_str_digits. lia.
Qed.

(** The 4300th power of ten has 4301 digits. *)
Lemma long_power : (Py.max_str_digits < decimal_digits (10 ^ 4300))%nat.
Proof.
  destruct (Nat.le_gt_cases (decimal_digits (10 ^ 4300)) Py.max_str_digits)
    as [H|H]; [|exact H].
  apply decimal_digits_limit in H.
  assert (Hpos : 0 <= 10 ^ 4300) by (apply Z.pow_nonneg; discriminate).
  rewrite (Z.abs_eq _ Hpos) in H. apply Z.lt_irrefl in H. contradiction.
Qed.

(** A number of one digit is far below the limit. *)
Lemma one_digit_below_limit (n : Z) : Z.abs n < 10 -> Z.abs n < 10 ^ 4300.
Proof.
  intros H. eapply Z.lt_le_trans; [exact H|].
  rewrite <- (Z.pow_1_r 10) at 1. apply Z.pow_le_mono_r; [reflexivity|].
  discriminate.
Qed.

Lemma int_decimal_text_long (n : Z) :
  (Py.max_str_digits < decimal_digits n)%nat ->
  Py.int (Py.decimal_text n) = None.
Proof.
  intros H. unfold Py.int. fold (decimal_digits n).
  apply Nat.ltb_lt in H. rewrite H.
  destruct (Py.read_int (Py.decimal_text n)); reflexivity.
Qed.

End Digits.

(** ** The round trip of a room through JSON *)

(** The documents that [json.dumps] writes for a cell, a grid and a
    dictionary of flags, and the dictionary that [json.loads] reads in the
    last one: its keys are texts. *)
Definition cell_doc (c : cell) : Json.document :=
  match c with
  | None => Json.DNull
  | Some s => Json.DStr s
  end.

Definition grid_doc (g : grid) : Json.document :=
  Json.DList (map (fun row => Json.DList (map cell_doc row)) g).

Definition flags_doc (d : gmap Z bool) : Json.document :=
  Json.DObj (map (fun nv => (Py.decimal_text (fst nv), Json.DBool (snd nv)))
               (map_to_list d)).

Definition flags_read (d : gmap Z bool) : Json.value :=
  Json.VDict (map (fun nv => (Json.KStr (Py.decimal_text (fst nv)),
                              Json.VBool (snd nv)))
                (map_to_list d)).

Section RoundTrip.

Import Json.

Lemma traverse_cons {A B} (f : A -> result B) (a : A) (l : list A) :
  traverse f (a :: l)
  = rbind (f a) (fun b => rbind (traverse f l) (fun bs => Ok (b :: bs))).
Proof. reflexivity. Qed.

Lemma traverse_map {A B C} (g : A -> B) (f : B -> result C) (l : list A) :
  traverse f (map g l) = traverse (fun a => f (g a)) l.
Proof.
  induction l as [|a l IH]; [reflexivity|].
  cbn [map]. rewrite !traverse_cons, IH. reflexivity.
Qed.

Lemma traverse_Ok_Forall {A B} (f : A -> result B) (h : A -> B) (l : list A) :
  Forall (fun a => f a = Ok (h a)) l -> traverse f l = Ok (map h l).
Proof.
  induction 1 as [|a l Ha _ IH]; [reflexivity|].
  rewrite traverse_cons, Ha, IH. reflexivity.
Qed.

Lemma traverse_Ok {A B} (f : A -> result B) (h : A -> B) (l : list A) :
  (forall a, f a = Ok (h a)) -> traverse f l = Ok (map h l).
Proof. intros Hf. apply traverse_Ok_Forall, Forall_forall. auto. Qed.

Lemma map_id_ext {A} (h : A -> A) (l : list A) :
  (forall a, h a = a) -> map h l = l.
Proof.
  intros Hh. induction l as [|a l IH]; [reflexivity|].
  simpl. rewrite Hh, IH. reflexivity.
Qed.

Lemma dumps_list (l : list value) :
  dumps (VList l) = rbind (traverse dumps l) (fun ds => Ok (DList ds)).
Proof. reflexivity. Qed.

Lemma loads_list (l : list document) :
  loads (DList l) = rbind (traverse loads l) (fun vs => Ok (VList vs)).
Proof. reflexivity. Qed.

Lemma dumps_dict (items : list (key * value)) :
  dumps (VDict items)
  = rbind (traverse (fun kv =>
             rbind (key_text (fst kv)) (fun k =>
             rbind (dumps (snd kv)) (fun d => Ok (k, d)))) items)
          (fun fields => Ok (DObj fields)).
Proof. reflexivity. Qed.

Lemma loads_obj (fields : list (string * document)) :
  loads (DObj fields)
  = rbind (traverse (fun kv =>
             rbind (loads (snd kv)) (fun v => Ok (KStr (fst kv), v))) fields)
          (fun items => Ok (VDict items)).
Proof. reflexivity. Qed.

Lemma dumps_cell (c : cell) : dumps (cell_value c) = Ok (cell_doc c).
Proof. destruct c; reflexivity. Qed.

Lemma loads_cell (c : cell) : loads (cell_doc c) = Ok (cell_value c).
Proof. destruct c; reflexivity. Qed.

Lemma dumps_grid (g : grid) : dumps (grid_value g) = Ok (grid_doc g).
Proof.
  unfold grid_value, grid_doc. rewrite dumps_list, traverse_map.
  rewrite (traverse_Ok _ (fun row => DList (map cell_doc row))); [reflexivity|].
  intros row. rewrite dumps_list, traverse_map.
  rewrite (traverse_Ok _ cell_doc) by apply dumps_cell. reflexivity.
Qed.

Lemma loads_grid (g : grid) : loads (grid_doc g) = Ok (grid_value g).
Proof.
  unfold grid_value, grid_doc. rewrite loads_list, traverse_map.
  rewrite (traverse_Ok _ (fun row => VList (map cell_value row))); [reflexivity|].
  intros row. rewrite loads_list, traverse_map.
  rewrite (traverse_Ok _ cell_value) by apply loads_cell. reflexivity.
Qed.

Lemma as_grid_value (g : grid) : as_grid (grid_value g) = Ok g.
Proof.
  unfold grid_value, as_grid, as_list at 1. rewrite traverse_map.
  rewrite (traverse_Ok _ (fun row => row)).
  - rewrite map_id_ext; reflexivity.
  - intros row. unfold as_list. rewrite traverse_map.
    rewrite (traverse_Ok _ (fun c => c)) by (intros []; reflexivity).
    rewrite map_id_ext; reflexivity.
Qed.

Lemma int_text_short (n : Z) :
  (decimal_digits n <= Py.max_str_digits)%nat ->
  int_text n = Ok (Py.decimal_text n).
Proof. intros H. unfold int_text. rewrite (str_short n H). reflexivity. Qed.

Lemma int_text_long (n : Z) :
  (Py.max_str_digits < decimal_digits n)%nat -> int_text n = Raise ValueError.
Proof. intros H. unfold int_text. rewrite (str_long n H). reflexivity. Qed.

Lemma list_to_map_rev_to_list {V} (d : gmap Z V) :
  list_to_map (rev (map_to_list d)) = d.
Proof.
  rewrite <- (list_to_map_to_list d) at 2.
  symmetry. apply list_to_map_proper.
  - apply NoDup_fst_map_to_list.
  - apply Permutation_rev.
Qed.

Definition short_keys (d : gmap Z bool) : Prop :=
  forall n b, d !! n = Some b -> (decimal_digits n <= Py.max_str_digits)%nat.

Lemma short_keys_Forall (d : gmap Z bool) (P : Z * bool -> Prop) :
  short_keys d ->
  (forall n b, (decimal_digits n <= Py.max_str_digits)%nat -> P (n, b)) ->
  Forall P (map_to_list d).
Proof.
  intros Hd HP. apply Forall_forall. intros [n b] Hin.
  apply HP. apply (Hd n b). apply elem_of_map_to_list. exact Hin.
Qed.

(** A dictionary of flags is written with its clue numbers as texts, and
    comes back from JSON with its integer keys. *)
Lemma dumps_flags (d : gmap Z bool) :
  short_keys d -> dumps (dict_value VBool d) = Ok (flags_doc d).
Proof.
  intros Hd. unfold dict_value, flags_doc. rewrite dumps_dict, traverse_map.
  rewrite (traverse_Ok_Forall _
             (fun nv => (Py.decimal_text (fst nv), DBool (snd nv))));
    [reflexivity|].
  apply (short_keys_Forall d _ Hd). intros n b Hn.
  cbn [fst snd key_text]. rewrite (int_text_short n Hn). reflexivity.
Qed.

Lemma loads_flags (d : gmap Z bool) : loads (flags_doc d) = Ok (flags_read d).
Proof.
  unfold flags_doc, flags_read. rewrite loads_obj, traverse_map.
  rewrite (traverse_Ok _
             (fun nv => (KStr (Py.decimal_text (fst nv)), VBool (snd nv))));
    reflexivity.
Qed.

Lemma int_keyed_flags (d : gmap Z bool) :
  short_keys d -> int_keyed as_bool (flags_read d) = Ok d.
Proof.
  intros Hd. unfold flags_read, int_keyed. rewrite traverse_map.
  rewrite (traverse_Ok_Forall _ (fun nv => (fst nv, snd nv))).
  - cbn [rbind]. rewrite map_id_ext by (intros []; reflexivity).
    rewrite list_to_map_rev_to_list. reflexivity.
  - apply (short_keys_Forall d _ Hd). intros n b Hn.
    cbn [fst snd int_key]. rewrite (int_decimal_text n Hn). reflexivity.
Qed.

Variable isoformat : datetime -> string.
Variable dateutil_parse : string -> result datetime.
Variable to_dict : Puzzle.t -> value.
Variable from_dict : value -> result Puzzle.t.

(** The document that [to_json] writes, given the one of the puzzle. *)
Definition room_doc (room : Room.t) (puzzle_doc : document) : document :=
  DObj [
    ("play_pause_state", DStr (Room.play_pause_state room));
    ("puzzle", puzzle_doc);
    ("cells", grid_doc (Room.cells room));
    ("across_clues_filled", flags_doc (Room.across_clues_filled room));
    ("down_clues_filled", flags_doc (Room.down_clues_filled room));
    ("last_start_time",
     match Room.last_start_time room with
     | Some t => DStr (isoformat t)
     | None => DNull
     end);
    ("total_time_secs", DInt (Room.total_time_secs room))].

Lemma to_json_room_doc (room : Room.t) (puzzle_doc : document) :
  dumps (to_dict (Room.puzzle room)) = Ok puzzle_doc ->
  (decimal_digits (Room.total_time_secs room) <= Py.max_str_digits)%nat ->
  short_keys (Room.across_clues_filled room) ->
  short_keys (Room.down_clues_filled room) ->
  to_json isoformat to_dict room = Ok (room_doc room puzzle_doc).
Proof.
  intros Hpuzzle Htotal Hacross Hdown. unfold to_json, room_doc.
  rewrite dumps_dict, !traverse_cons. cbn [fst snd key_text rbind].
  rewrite Hpuzzle, dumps_grid, (dumps_flags _ Hacross), (dumps_flags _ Hdown).
  cbn [rbind dumps].
  rewrite (int_text_short _ Htotal).
  destruct (Room.last_start_time room); reflexivity.
Qed.

(** With a total of more digits than the limit, [to_json] raises. *)
Lemma to_json_long_total (room : Room.t) (puzzle_doc : document) :
  dumps (to_dict (Room.puzzle room)) = Ok puzzle_doc ->
  short_keys (Room.across_clues_filled room) ->
  short_keys (Room.down_clues_filled room) ->
  (Py.max_str_digits < decimal_digits (Room.total_time_secs room))%nat ->
  to_json isoformat to_dict room = Raise ValueError.
Proof.
  intros Hpuzzle Hacross Hdown Htotal. unfold to_json.
  rewrite dumps_dict, !traverse_cons. cbn [fst snd key_text rbind].
  rewrite Hpuzzle, dumps_grid, (dumps_flags _ Hacross), (dumps_flags _ Hdown).
  cbn [rbind dumps].
  rewrite (int_text_long _ Htotal).
  destruct (Room.last_start_time room); reflexivity.
Qed.

Lemma from_json_room_doc (room : Room.t) (puzzle_doc : document)
    (puzzle_value : value) :
  loads puzzle_doc = Ok puzzle_value ->
  from_dict puzzle_value = Ok (Room.puzzle room) ->
  (forall t, Room.last_start_time room = Some t ->
     isoformat t <> EmptyString /\ dateutil_parse (isoformat t) = Ok t) ->
  (decimal_digits (Room.total_time_secs room) <= Py.max_str_digits)%nat ->
  short_keys (Room.across_clues_filled room) ->
  short_keys (Room.down_clues_filled room) ->
  from_json dateutil_parse from_dict (room_doc room puzzle_doc) = Ok room.
Proof.
  intros Hloads Hpuzzle Hdate Htotal Hacross Hdown. unfold from_json, room_doc.
  rewrite loads_obj, !traverse_cons. cbn [fst snd rbind].
  rewrite Hloads, loads_grid, !loads_flags.
  replace (loads (DInt (Room.total_time_secs room)))
    with (Ok (VInt (Room.total_time_secs room)) : result value)
    by (cbn [loads]; rewrite (int_decimal_text _ Htotal); reflexivity).
  replace (loads (DStr (Room.play_pause_state room)))
    with (Ok (VStr (Room.play_pause_state room)) : result value) by reflexivity.
  assert (Hlast :
    exists v,
      loads match Room.last_start_time room with
            | Some t => DStr (isoformat t)
            | None => DNull
            end = Ok v
      /\ read_last_start dateutil_parse v = Ok (Room.last_start_time room)).
  { destruct (Room.last_start_time room) as [t|] eqn:Hl.
    - destruct (Hdate t eq_refl) as [Hne Hparse].
      exists (VStr (isoformat t)). split; [reflexivity|].
      unfold read_last_start, truthy_value.
      destruct (String.eqb_spec (isoformat t) EmptyString); [contradiction|].
      cbn [negb]. rewrite Hparse. reflexivity.
    - exists VNone. split; reflexivity. }
  destruct Hlast as (v & -> & Hread).
  cbn [rbind traverse].
  match goal with |- context [getitem ?l "across_clues_filled"] => set (d := l) end.
  replace (getitem d "across_clues_filled")
    with (Ok (flags_read (Room.across_clues_filled room))) by reflexivity.
  cbn [rbind]. rewrite (int_keyed_flags _ Hacross). cbn [rbind].
  replace (getitem d "down_clues_filled")
    with (Ok (flags_read (Room.down_clues_filled room))) by reflexivity.
  cbn [rbind]. rewrite (int_keyed_flags _ Hdown). cbn [rbind].
  replace (getitem d "last_start_time") with (Ok v) by reflexivity.
  cbn [rbind]. rewrite Hread. cbn [rbind].
  replace (getitem d "play_pause_state")
    with (Ok (VStr (Room.play_pause_state room))) by reflexivity.
  cbn [rbind as_str].
  replace (getitem d "puzzle") with (Ok puzzle_value) by reflexivity.
  cbn [rbind]. rewrite Hpuzzle. cbn [rbind].
  replace (getitem d "cells") with (Ok (grid_value (Room.cells room)))
    by reflexivity.
  cbn [rbind]. rewrite as_grid_value. cbn [rbind].
  replace (getitem d "total_time_secs")
    with (Ok (VInt (Room.total_time_secs room))) by reflexivity.
  cbn [rbind as_int]. destruct room; reflexivity.
Qed.

End RoundTrip.

(** The clue numbers of the flags of [demo_room] have one digit. *)
Lemma demo_flags_short (state : string) (solution row : list cell)
    (last : option datetime) (total : Z) :
  (forall n b,
     Room.across_clues_filled (demo_room state solution row last total) !! n
     = Some b -> Z.abs n < 10 ^ 4300)
  /\ (forall n b,
        Room.down_clues_filled (demo_room state solution row last total) !! n
        = Some b -> Z.abs n < 10 ^ 4300).
Proof.
  assert (Ha : map_Forall (fun n (_ : bool) => Z.abs n < 10)
                 (Room.across_clues_filled
                    (demo_room state solution row last total)))
    by (apply (bool_decide_unpack _); vm_compute; exact I).
  assert (Hd : map_Forall (fun n (_ : bool) => Z.abs n < 10)
                 (Room.down_clues_filled
                    (demo_room state solution row last total)))
    by (apply (bool_decide_unpack _); vm_compute; exact I).
  split; intros n b H; apply one_digit_below_limit.
  - exact (Ha n b H).
  - exact (Hd n b H).
Qed.

(** C9, as the specification states it, fails on a room of the data model
    whose total has 4301 digits: the state is one of the four, the last
    start is absent, the total is not negative and the puzzle goes through
    its dictionary form and JSON, yet [to_json] raises [ValueError], the
    encoder refusing to write the integer, and there is no text to read
    back. *)
Lemma room_to_json_refuses_long_integer :
  Room.play_pause_state long_total_room = "paused"
  /\ Room.last_start_time long_total_room = None
  /\ 0 <= Room.total_time_secs long_total_room
  /\ (exists puzzle_doc puzzle_value,
        Json.dumps (demo_to_dict (Room.puzzle long_total_room)) = Ok puzzle_doc
        /\ Json.loads puzzle_doc = Ok puzzle_value
        /\ demo_from_dict puzzle_value = Ok (Room.puzzle long_total_room))
  /\ Json.to_json demo_isoformat demo_to_dict long_total_room
     = Raise ValueError.
Proof.
  split; [reflexivity|]. split; [reflexivity|].
  split; [apply Z.pow_nonneg; discriminate|].
  change (Room.puzzle long_total_room) with (demo_puzzle CAT).
  assert (Hpuzzle : exists puzzle_doc puzzle_value,
            Json.dumps (demo_to_dict (demo_puzzle CAT)) = Ok puzzle_doc
            /\ Json.loads puzzle_doc = Ok puzzle_value
            /\ demo_from_dict puzzle_value = Ok (demo_puzzle CAT)).
  { eexists. eexists. split; [reflexivity|]. split; [reflexivity|].
    vm_compute. reflexivity. }
  split; [exact Hpuzzle|].
  destruct Hpuzzle as (puzzle_doc & _ & Hdumps & _).
  destruct (demo_flags_short "paused" CAT CAT None (10 ^ 4300)) as [Ha Hd].
  apply (to_json_long_total _ _ _ puzzle_doc).
  - exact Hdumps.
  - intros n b Hn. apply decimal_digits_limit, (Ha n b Hn).
  - intros n b Hn. apply decimal_digits_limit, (Hd n b Hn).
  - exact long_power.
Qed.

(** C9, amended: a room goes through [to_json] and [from_json] unchanged,
    provided its puzzle comes back from its dictionary form through JSON,
    its last start, when it has one, is written as a text that the date
    parser reads back, and its total and the clue numbers that key its two
    dictionaries of flags are below 10^4300 in absolute value, that is of at
    most 4300 digits.  Such a clue number is written as its decimal text and
    read back as the same integer; an integer of more digits is refused by
    the encoder, which raises [ValueError].  An absent last start is written
    as null and stays absent. *)
Theorem room_json_round_trip
    (isoformat : datetime -> string) (dateutil_parse : string -> result datetime)
    (to_dict : Puzzle.t -> Json.value) (from_dict : Json.value -> result Puzzle.t)
    (room : Room.t) (puzzle_doc : Json.document) (puzzle_value : Json.value) :
  Json.dumps (to_dict (Room.puzzle room)) = Ok puzzle_doc ->
  Json.loads puzzle_doc = Ok puzzle_value ->
  from_dict puzzle_value = Ok (Room.puzzle room) ->
  (forall t, Room.last_start_time room = Some t ->
     isoformat t <> EmptyString /\ dateutil_parse (isoformat t) = Ok t) ->
  Z.abs (Room.total_time_secs room) < 10 ^ 4300 ->
  (forall n b, Room.across_clues_filled room !! n = Some b ->
     Z.abs n < 10 ^ 4300) ->
  (forall n b, Room.down_clues_filled room !! n = Some b ->
     Z.abs n < 10 ^ 4300) ->
  (exists doc,
     Json.to_json isoformat to_dict room = Ok doc
     /\ Json.from_json dateutil_parse from_dict doc = Ok room)
  /\ (forall n : Z,
        Z.abs n < 10 ^ 4300 ->
        exists text,
          Json.key_text (Json.KInt n) = Ok text
          /\ Json.int_key (Json.KStr text) = Ok n)
  /\ (forall n : Z,
        10 ^ 4300 <= Z.abs n ->
        Json.key_text (Json.KInt n) = Raise ValueError
        /\ Json.dumps (Json.VInt n) = Raise ValueError)
  /\ (exists doc v,
        Json.dumps (Json.dict_value Json.VBool (Room.across_clues_filled room))
        = Ok doc
        /\ Json.loads doc = Ok v
        /\ Json.int_keyed Json.as_bool v = Ok (Room.across_clues_filled room))
  /\ (exists doc v,
        Json.dumps (Json.dict_value Json.VBool (Room.down_clues_filled room))
        = Ok doc
        /\ Json.loads doc = Ok v
        /\ Json.int_keyed Json.as_bool v = Ok (Room.down_clues_filled room)).
Proof.
  intros Hdumps Hloads Hpuzzle Hdate Htotal Hacross Hdown.
  apply decimal_digits_limit in Htotal.
  assert (Ha : short_keys (Room.across_clues_filled room)).
  { intros n b Hn. apply decimal_digits_limit, (Hacross n b Hn). }
  assert (Hd : short_keys (Room.down_clues_filled room)).
  { intros n b Hn. apply decimal_digits_limit, (Hdown n b Hn). }
  split; [|split; [|split; [|split]]].
  - exists (room_doc isoformat room puzzle_doc). split.
    + apply to_json_room_doc; assumption.
    + apply from_json_room_doc with (puzzle_value := puzzle_value); assumption.
  - intros n Hn. apply decimal_digits_limit in Hn.
    exists (Py.decimal_text n). cbn [Json.key_text Json.int_key].
    rewrite (int_text_short n Hn), (int_decimal_text n Hn). auto.
  - intros n Hn.
    assert (Hlong : (Py.max_str_digits < decimal_digits n)%nat).
    { destruct (Nat.le_gt_cases (decimal_digits n) Py.max_str_digits)
        as [H|H]; [|exact H].
      apply decimal_digits_limit in H. lia. }
    cbn [Json.key_text Json.dumps]. rewrite (int_text_long n Hlong). auto.
  - exists (flags_doc (Room.across_clues_filled room)),
      (flags_read (Room.across_clues_filled room)).
    split; [apply dumps_flags, Ha|]. split; [apply loads_flags|].
    apply int_keyed_flags, Ha.
  - exists (flags_doc (Room.down_clues_filled room)),
      (flags_read (Room.down_clues_filled room)).
    split; [apply dumps_flags, Hd|]. split; [apply loads_flags|].
    apply int_keyed_flags, Hd.
Qed.

Lemma room_json_round_trip_witness :
  exists doc,
    Json.to_json demo_isoformat demo_to_dict
      (demo_room "playing" CAT [Some "C"; Some ""; Some "RE"] (Some 5000000) 3)
    = Ok doc
    /\ Json.from_json demo_parse demo_from_dict doc
       = Ok (demo_room "playing" CAT [Some "C"; Some ""; Some "RE"]
               (Some 5000000) 3).
Proof.
  pose (room := demo_room "playing" CAT [Some "C"; Some ""; Some "RE"]
                  (Some 5000000) 3).
  pose (puzzle_doc := match Json.dumps (demo_to_dict (Room.puzzle room)) with
                      | Ok d => d
                      | Raise _ => Json.DNull
                      end).
  pose (puzzle_value := match Json.loads puzzle_doc with
                        | Ok v => v
                        | Raise _ => Json.VNone
                        end).
  apply (proj1 (room_json_round_trip demo_isoformat demo_parse demo_to_dict
                  demo_from_dict room puzzle_doc puzzle_value
                  ltac:(vm_compute; reflexivity)
                  ltac:(vm_compute; reflexivity)
                  ltac:(vm_compute; reflexivity)
                  ltac:(intros t [= <-]; split;
                        [discriminate | vm_compute; reflexivity])
                  ltac:(apply one_digit_below_limit; vm_compute; reflexivity)
                  (proj1 (demo_flags_short _ _ _ _ _))
                  (proj2 (demo_flags_short _ _ _ _ _)))).
Defined.

(** * Further properties of the operations *)

(** ** Loops over cells *)

Section ForEach.

Lemma for_each_app {A} (l1 l2 : list A) (body : A -> M unit) (w : World) :
  for_each (l1 ++ l2)%list body w
  = bind (for_each l1 body) (fun _ => for_each l2 body) w.
Proof.
  revert w. induction l1 as [|a l1 IH]; intros w.
  - reflexivity.
  - simpl. unfold bind. destruct (body a w) as [[[]|e] w1]; [|reflexivity].
    rewrite IH. unfold bind. reflexivity.
Qed.

Lemma for_each_fmap {A B} (g : A -> B) (l : list A) (body : B -> M unit)
    (w : World) :
  for_each (g <$> l) body w = for_each l (fun a => body (g a)) w.
Proof.
  revert w. induction l as [|a l IH]; intros w; [reflexivity|].
  simpl. unfold bind. destruct (body (g a) w) as [[[]|e] w1]; [|reflexivity].
  apply IH.
Qed.

Lemma for_each_bind {A B} (f : A -> list B) (l : list A) (body : B -> M unit)
    (w : World) :
  for_each (l ≫= f) body w = for_each l (fun a => for_each (f a) body) w.
Proof.
  revert w. induction l as [|a l IH]; intros w; [reflexivity|].
  change ((a :: l) ≫= f) with (f a ++ (l ≫= f))%list.
  rewrite for_each_app. simpl. unfold bind.
  destruct (for_each (f a) body w) as [[[]|e] w1]; [|reflexivity].
  apply IH.
Qed.

(** A loop whose turns each leave the world as it is leaves it as it is. *)
Lemma for_each_id {A} (l : list A) (body : A -> M unit) (w : World) :
  (forall a, a ∈ l -> body a w = (Ok tt, w)) ->
  for_each l body w = (Ok tt, w).
Proof.
  induction l as [|a l IH]; intros Hbody; [reflexivity|].
  simpl. unfold bind. rewrite (Hbody a) by apply list_elem_of_here.
  apply IH. intros b Hb. apply Hbody. apply list_elem_of_further, Hb.
Qed.

(** The cells that the two loops of [clear_incorrect_cells] visit, in the
    order of the visit. *)
Definition grid_positions (rows cols : nat) : list (nat * nat) :=
  seq 0 rows ≫= fun y => (fun x => (x, y)) <$> seq 0 cols.

Lemma elem_of_grid_positions (rows cols : nat) (x y : nat) :
  (x, y) ∈ grid_positions rows cols <-> (y < rows)%nat /\ (x < cols)%nat.
Proof.
  unfold grid_positions. rewrite list_elem_of_bind. split.
  - intros (y' & Hx & Hy). apply list_elem_of_fmap in Hx as (x' & [= -> ->] & Hx).
    apply elem_of_seq in Hx, Hy. lia.
  - intros [Hy Hx]. exists y. split.
    + apply list_elem_of_fmap. exists x. split; [reflexivity|].
      apply elem_of_seq. lia.
    + apply elem_of_seq. lia.
Qed.

Lemma NoDup_grid_positions (rows cols : nat) : NoDup (grid_positions rows cols).
Proof.
  unfold grid_positions. apply NoDup_bind.
  - intros y1 y2 p _ _ H1 H2.
    apply list_elem_of_fmap in H1 as (x1 & -> & _).
    apply list_elem_of_fmap in H2 as (x2 & [= _ ->] & _). reflexivity.
  - intros y _. apply NoDup_fmap_2; [|apply NoDup_seq].
    intros x1 x2 [= ->]. reflexivity.
  - apply NoDup_seq.
Qed.

Lemma nested_loops_positions (rows cols : nat) (body : nat -> nat -> M unit)
    (w : World) :
  for_each (seq 0 rows) (fun y => for_each (seq 0 cols) (fun x => body y x)) w
  = for_each (grid_positions rows cols) (fun p => body p.2 p.1) w.
Proof.
  unfold grid_positions. rewrite for_each_bind.
  revert w. induction (seq 0 rows) as [|y ys IH]; intros w; [reflexivity|].
  simpl. unfold bind. rewrite for_each_fmap. simpl.
  destruct (for_each (seq 0 cols) (fun x => body y x) w) as [[[]|e] w1];
    [|reflexivity].
  apply IH.
Qed.

(** The content of a cell of the room object, or the exception that
    reading it raises. *)
Definition cell_at (w : World) (p : nat * nat) : result cell :=
  grid_get (Room.cells (obj w)) p.2 p.1.

Variable body : nat * nat -> M unit.
Variable step : Puzzle.t -> nat * nat -> result cell -> result cell -> Prop.

Hypothesis body_ok : forall p w w',
  body p w = (Ok tt, w') ->
  Room.puzzle (obj w') = Room.puzzle (obj w)
  /\ (forall q, q <> p -> cell_at w' q = cell_at w q)
  /\ step (Room.puzzle (obj w)) p (cell_at w p) (cell_at w' p).

(** A loop over distinct cells, each turn of which touches its own cell
    only: every visited cell has taken one step, the others are as they
    were. *)
Lemma cell_loop (l : list (nat * nat)) :
  NoDup l ->
  forall w w',
    for_each l body w = (Ok tt, w') ->
    Room.puzzle (obj w') = Room.puzzle (obj w)
    /\ (forall q, q ∉ l -> cell_at w' q = cell_at w q)
    /\ (forall p, p ∈ l -> step (Room.puzzle (obj w)) p (cell_at w p) (cell_at w' p)).
Proof.
  induction l as [|a l IH]; intros Hnd w w' Hrun.
  - injection Hrun as <-. split; [reflexivity|]. split; [reflexivity|].
    intros p Hp. inversion Hp.
  - apply NoDup_cons in Hnd as [Ha Hnd].
    simpl in Hrun. apply bind_Ok in Hrun as ([] & w1 & H1 & H2).
    apply body_ok in H1 as (Hp1 & Hout1 & Hstep1).
    apply (IH Hnd) in H2 as (Hp2 & Hout2 & Hin2).
    split; [congruence|]. split.
    + intros q Hq. apply not_elem_of_cons in Hq as [Hqa Hq].
      rewrite (Hout2 q Hq). apply Hout1, Hqa.
    + intros p Hp. apply elem_of_cons in Hp as [-> | Hp].
      * rewrite (Hout2 a Ha). exact Hstep1.
      * assert (p <> a) by (intros ->; contradiction).
        rewrite <- Hp1, <- (Hout1 p) by assumption. apply Hin2, Hp.
Qed.

End ForEach.

(** ** What [clear_incorrect_cells] does to the grid *)

Section Clearing.

Variable get_answer_cells : Puzzle.t -> Z -> string -> list (nat * nat).

(** One visit of [clear_incorrect_cells] to the cell [p], from what reading
    the cell gave before the visit to what it gives after: a blank or a
    block stays (the solution is not looked at), a text stays when it is
    the solution of the cell and becomes blank when it is not. *)
Definition clear_step (puz : Puzzle.t) (p : nat * nat) (before after : result cell)
  : Prop :=
  exists v,
    before = Ok v
    /\ if truthy v then
         exists s, grid_get (Puzzle.cells puz) p.2 p.1 = Ok s
                   /\ after = Ok (if bool_decide (v ≠ s) then Some EmptyString else v)
       else after = Ok v.

(** The cell needs no clearing: it is a blank, a block, or its solution. *)
Definition clean (w : World) (p : nat * nat) : Prop :=
  exists v,
    cell_at w p = Ok v
    /\ (truthy v = false
        \/ grid_get (Puzzle.cells (Room.puzzle (obj w))) p.2 p.1 = Ok v).

Lemma clear_cell_ok (p : nat * nat) (w w' : World) :
  clear_cell p.2 p.1 w = (Ok tt, w') ->
  Room.puzzle (obj w') = Room.puzzle (obj w)
  /\ (forall q, q <> p -> cell_at w' q = cell_at w q)
  /\ clear_step (Room.puzzle (obj w)) p (cell_at w p) (cell_at w' p).
Proof.
  destruct p as [x y]. unfold clear_cell, clear_step, cell_at. simpl.
  unfold bind at 1. unfold get_room_obj at 1.
  unfold bind at 1. unfold lift at 1.
  destruct (grid_get (Room.cells (obj w)) y x) as [v|e] eqn:Hv; [|discriminate].
  destruct (truthy v) eqn:Htruthy; cycle 1.
  { unfold ret. intros [= <-]. split; [reflexivity|]. split; [reflexivity|].
    exists v. rewrite Htruthy. auto. }
  unfold bind at 1. unfold lift at 1.
  destruct (grid_get (Puzzle.cells (Room.puzzle (obj w))) y x) as [s|e] eqn:Hs;
    [|discriminate].
  case_bool_decide as Hne.
  - intros (g' & Hset & ->)%set_cell_Ok. simpl.
    split; [reflexivity|]. split.
    + intros [x' y'] Hq. simpl. rewrite (grid_get_set _ _ _ _ _ Hset).
      case_decide as H; [|reflexivity]. destruct H as [-> ->]. contradiction.
    + exists v. rewrite Htruthy. split; [reflexivity|]. exists s.
      split; [reflexivity|]. rewrite (grid_get_set _ _ _ _ _ Hset).
      rewrite (bool_decide_eq_true_2 _ Hne).
      case_decide as H; [reflexivity | exfalso; auto].
  - unfold ret. intros [= <-]. split; [reflexivity|]. split; [reflexivity|].
    exists v. rewrite Htruthy. split; [reflexivity|]. exists s.
    split; [reflexivity|].
    rewrite bool_decide_eq_false_2 by (intros H; apply H, Hne). exact Hv.
Qed.

Lemma clear_cell_clean (x y : nat) (w : World) :
  clean w (x, y) -> clear_cell y x w = (Ok tt, w).
Proof.
  intros (v & Hv & Hclean). unfold cell_at in Hv. simpl in *.
  unfold clear_cell, bind, get_room_obj, lift. rewrite Hv.
  destruct (truthy v) eqn:Htruthy; [|reflexivity].
  destruct Hclean as [Hf|Hs]; [discriminate|].
  rewrite Hs. rewrite bool_decide_eq_false_2 by auto. reflexivity.
Qed.

Lemma clear_step_clean (w w' : World) (p : nat * nat) :
  Room.puzzle (obj w') = Room.puzzle (obj w) ->
  clear_step (Room.puzzle (obj w)) p (cell_at w p) (cell_at w' p) ->
  clean w' p.
Proof.
  intros Hp (v & _ & Hstep). unfold clean. rewrite Hp.
  destruct (truthy v) eqn:Htruthy.
  - destruct Hstep as (s & Hs & Hafter). case_bool_decide as Hne.
    + exists (Some EmptyString). split; [exact Hafter | left; reflexivity].
    + exists v. split; [exact Hafter|]. right.
      assert (v = s) as -> by (destruct (decide (v = s)); [assumption | contradiction]).
      exact Hs.
  - exists v. split; [exact Hstep | left; exact Htruthy].
Qed.

(** The two loops of [clear_incorrect_cells], as one loop over the cells. *)
Lemma clear_loops (w wa : World) :
  for_each (seq 0 (Z.to_nat (Puzzle.rows (Room.puzzle (obj w))))) (fun y =>
    for_each (seq 0 (Z.to_nat (Puzzle.cols (Room.puzzle (obj w))))) (fun x =>
      clear_cell y x)) w = (Ok tt, wa) ->
  Room.puzzle (obj wa) = Room.puzzle (obj w)
  /\ (forall q,
        q ∉ grid_positions (Z.to_nat (Puzzle.rows (Room.puzzle (obj w))))
              (Z.to_nat (Puzzle.cols (Room.puzzle (obj w)))) ->
        cell_at wa q = cell_at w q)
  /\ (forall p,
        p ∈ grid_positions (Z.to_nat (Puzzle.rows (Room.puzzle (obj w))))
              (Z.to_nat (Puzzle.cols (Room.puzzle (obj w)))) ->
        clear_step (Room.puzzle (obj w)) p (cell_at w p) (cell_at wa p)).
Proof.
  rewrite (nested_loops_positions _ _ (fun y x => clear_cell y x)).
  apply (cell_loop (fun p => clear_cell p.2 p.1) clear_step clear_cell_ok).
  apply NoDup_grid_positions.
Qed.

Lemma update_filled_flags (w w' : World) :
  update_filled get_answer_cells w = (Ok tt, w') ->
  Room.cells (obj w') = Room.cells (obj w)
  /\ Room.puzzle (obj w') = Room.puzzle (obj w)
  /\ (forall n, n ∈ keys (Puzzle.across_clues (Room.puzzle (obj w))) ->
        exists b,
          Room.across_clues_filled (obj w') !! n = Some b
          /\ all_filled (Room.cells (obj w))
               (get_answer_cells (Room.puzzle (obj w)) n "a") = Ok b)
  /\ (forall n, n ∈ keys (Puzzle.down_clues (Room.puzzle (obj w))) ->
        exists b,
          Room.down_clues_filled (obj w') !! n = Some b
          /\ all_filled (Room.cells (obj w))
               (get_answer_cells (Room.puzzle (obj w)) n "d") = Ok b)
  /\ (forall n, n ∉ keys (Puzzle.across_clues (Room.puzzle (obj w))) ->
        Room.across_clues_filled (obj w') !! n
        = Room.across_clues_filled (obj w) !! n)
  /\ (forall n, n ∉ keys (Puzzle.down_clues (Room.puzzle (obj w))) ->
        Room.down_clues_filled (obj w') !! n
        = Room.down_clues_filled (obj w) !! n).
Proof.
  unfold update_filled. unfold bind at 1. unfold get_room_obj at 1.
  intros Hrun. apply bind_Ok in Hrun as ([] & w1 & Ha & Hd).
  apply (flag_loop "a" get_answer_cells Room.across_clues_filled
           Room.down_clues_filled (update_across get_answer_cells)
           (update_across_ok get_answer_cells))
    in Ha as (Hc1 & Hp1 & Ho1 & Hout1 & Hin1).
  apply (flag_loop "d" get_answer_cells Room.down_clues_filled
           Room.across_clues_filled (update_down get_answer_cells)
           (update_down_ok get_answer_cells))
    in Hd as (Hc2 & Hp2 & Ho2 & Hout2 & Hin2).
  split; [congruence|]. split; [congruence|]. split; [|split; [|split]].
  - intros n Hn. destruct (Hin1 n Hn) as (b & Hb & Hall).
    exists b. split; [rewrite Ho2; exact Hb | exact Hall].
  - intros n Hn. destruct (Hin2 n Hn) as (b & Hb & Hall).
    exists b. split; [exact Hb|]. rewrite <- Hc1, <- Hp1. exact Hall.
  - intros n Hn. rewrite Ho2. apply Hout1, Hn.
  - intros n Hn. rewrite (Hout2 n Hn), Ho1. reflexivity.
Qed.

Lemma world_eta_across (w : World) (n : Z) (b : bool) :
  Room.across_clues_filled (obj w) !! n = Some b ->
  mkWorld (Room.with_across (obj w) (<[n := b]> (Room.across_clues_filled (obj w))))
          (store w) = w.
Proof.
  intros H. rewrite (insert_id _ _ _ H). destruct w as [[] ?]. reflexivity.
Qed.

Lemma world_eta_down (w : World) (n : Z) (b : bool) :
  Room.down_clues_filled (obj w) !! n = Some b ->
  mkWorld (Room.with_down (obj w) (<[n := b]> (Room.down_clues_filled (obj w))))
          (store w) = w.
Proof.
  intros H. rewrite (insert_id _ _ _ H). destruct w as [[] ?]. reflexivity.
Qed.

(** Flags that already say what the rescan finds are left as they are. *)
Lemma update_filled_id (w : World) :
  (forall n, n ∈ keys (Puzzle.across_clues (Room.puzzle (obj w))) ->
     exists b,
       Room.across_clues_filled (obj w) !! n = Some b
       /\ all_filled (Room.cells (obj w))
            (get_answer_cells (Room.puzzle (obj w)) n "a") = Ok b) ->
  (forall n, n ∈ keys (Puzzle.down_clues (Room.puzzle (obj w))) ->
     exists b,
       Room.down_clues_filled (obj w) !! n = Some b
       /\ all_filled (Room.cells (obj w))
            (get_answer_cells (Room.puzzle (obj w)) n "d") = Ok b) ->
  update_filled get_answer_cells w = (Ok tt, w).
Proof.
  intros Ha Hd. unfold update_filled. unfold bind at 1. unfold get_room_obj at 1.
  unfold bind. rewrite for_each_id.
  - apply for_each_id. intros n Hn. destruct (Hd n Hn) as (b & Hb & Hall).
    rewrite update_down_run, Hall. f_equal. apply world_eta_down, Hb.
  - intros n Hn. destruct (Ha n Hn) as (b & Hb & Hall).
    rewrite update_across_run, Hall. f_equal. apply world_eta_across, Hb.
Qed.

Lemma clear_incorrect_cells_inv (name : string) (w w' : World) (room' : Room.t) :
  clear_incorrect_cells get_answer_cells name w = (Ok room', w') ->
  exists wa wb,
    for_each (seq 0 (Z.to_nat (Puzzle.rows (Room.puzzle (obj w))))) (fun y =>
      for_each (seq 0 (Z.to_nat (Puzzle.cols (Room.puzzle (obj w))))) (fun x =>
        clear_cell y x)) w = (Ok tt, wa)
    /\ update_filled get_answer_cells wa = (Ok tt, wb)
    /\ room' = obj wb
    /\ w' = mkWorld (obj wb) (<["room:" ++ name := obj wb]> (store wb)).
Proof.
  rewrite clear_incorrect_cells_run. intros Hrun.
  apply bind_Ok in Hrun as ([] & wb & Hcu & Hfin).
  apply bind_Ok in Hcu as ([] & wa & Hclear & Hupd).
  exists wa, wb. split; [exact Hclear|]. split; [exact Hupd|].
  unfold bind, get_room_obj, set_room, ret in Hfin. simpl in Hfin.
  injection Hfin as <- <-. split; reflexivity.
Qed.

End Clearing.

(** X1: when [clear_incorrect_cells] returns, every cell of the rows and
    columns of the puzzle has been visited once: a blank or a block is as it
    was, a text that is the solution of its cell is as it was, any other
    text is now blank.  Cells outside those rows and columns, the state, the
    puzzle and the timer fields are untouched. *)
Theorem clear_incorrect_cells_clears
    (get_answer_cells : Puzzle.t -> Z -> string -> list (nat * nat))
    (name : string) (w w' : World) (room' : Room.t) :
  clear_incorrect_cells get_answer_cells name w = (Ok room', w') ->
  frozen room' = frozen (obj w)
  /\ (forall x y : nat,
        (y < Z.to_nat (Puzzle.rows (Room.puzzle (obj w))))%nat ->
        (x < Z.to_nat (Puzzle.cols (Room.puzzle (obj w))))%nat ->
        clear_step (Room.puzzle (obj w)) (x, y)
          (grid_get (Room.cells (obj w)) y x) (grid_get (Room.cells room') y x))
  /\ (forall x y : nat,
        ~ ((y < Z.to_nat (Puzzle.rows (Room.puzzle (obj w))))%nat
           /\ (x < Z.to_nat (Puzzle.cols (Room.puzzle (obj w))))%nat) ->
        grid_get (Room.cells room') y x = grid_get (Room.cells (obj w)) y x).
Proof.
  intros Hrun.
  apply clear_incorrect_cells_inv in Hrun as (wa & wb & Hclear & Hupd & -> & _).
  assert (Hfa : frozen (obj wa) = frozen (obj w)).
  { refine (proj1 (quiet_run _ _ _ _ _ Hclear)).
    apply quiet_for_each. intros y. apply quiet_for_each, quiet_clear_cell. }
  assert (Hfb : frozen (obj wb) = frozen (obj wa))
    by exact (proj1 (quiet_run _ _ _ _ (quiet_update_filled get_answer_cells) Hupd)).
  apply update_filled_flags in Hupd as (Hcb & _).
  apply clear_loops in Hclear as (_ & Hout & Hin).
  split; [congruence|]. rewrite Hcb. split.
  - intros x y Hy Hx. apply (Hin (x, y)). apply elem_of_grid_positions. auto.
  - intros x y Hxy. apply (Hout (x, y)). rewrite elem_of_grid_positions. tauto.
Qed.

Lemma clear_incorrect_cells_clears_witness :
  clear_step (demo_puzzle CAT) (1%nat, 0%nat)
    (Ok (Some "X")) (Ok (Some ""))
  /\ clear_step (demo_puzzle CAT) (0%nat, 0%nat)
       (Ok (Some "C")) (Ok (Some "C")).
Proof.
  pose proof (clear_incorrect_cells_clears demo_answer_cells "demo"
    (demo_world (demo_room "playing" CAT [Some "C"; Some "X"; Some ""] (Some 0) 0))
    (mkWorld
       (Room.mk "playing" (demo_puzzle CAT) [[Some "C"; Some ""; Some ""]]
          (<[1 := false]> ∅)
          (<[1 := true]> (<[2 := false]> (<[3 := false]> ∅)))
          (Some 0) 0)
       (<["room:demo" :=
            Room.mk "playing" (demo_puzzle CAT) [[Some "C"; Some ""; Some ""]]
              (<[1 := false]> ∅)
              (<[1 := true]> (<[2 := false]> (<[3 := false]> ∅)))
              (Some 0) 0]> ∅))
    (Room.mk "playing" (demo_puzzle CAT) [[Some "C"; Some ""; Some ""]]
       (<[1 := false]> ∅)
       (<[1 := true]> (<[2 := false]> (<[3 := false]> ∅)))
       (Some 0) 0)) as H.
  destruct H as (_ & Hin & _); [vm_compute; reflexivity|].
  split.
  - apply (Hin 1%nat 0%nat); vm_compute; lia.
  - apply (Hin 0%nat 0%nat); vm_compute; lia.
Defined.

(** X2: [clear_incorrect_cells] is idempotent: called again on the room
    object that a first call has returned, with the store that call has
    left, it returns the same room and leaves the room object and the store
    as they are. *)
Theorem clear_incorrect_cells_idempotent
    (get_answer_cells : Puzzle.t -> Z -> string -> list (nat * nat))
    (name : string) (w w1 : World) (room1 : Room.t) :
  clear_incorrect_cells get_answer_cells name w = (Ok room1, w1) ->
  clear_incorrect_cells get_answer_cells name w1 = (Ok room1, w1).
Proof.
  intros Hrun.
  apply clear_incorrect_cells_inv in Hrun as (wa & wb & Hclear & Hupd & -> & ->).
  pose proof (clear_loops _ _ Hclear) as (Hpa & _ & Hin).
  pose proof (update_filled_flags get_answer_cells _ _ Hupd)
    as (Hcb & Hpb & Hacross & Hdown & _).
  set (w1 := mkWorld (obj wb) (<["room:" ++ name := obj wb]> (store wb))).
  assert (Hloops :
    for_each (seq 0 (Z.to_nat (Puzzle.rows (Room.puzzle (obj w1))))) (fun y =>
      for_each (seq 0 (Z.to_nat (Puzzle.cols (Room.puzzle (obj w1))))) (fun x =>
        clear_cell y x)) w1 = (Ok tt, w1)).
  { apply for_each_id. intros y Hy. apply for_each_id. intros x Hx.
    apply clear_cell_clean.
    assert (Hp : (x, y) ∈ grid_positions
                   (Z.to_nat (Puzzle.rows (Room.puzzle (obj w))))
                   (Z.to_nat (Puzzle.cols (Room.puzzle (obj w))))).
    { apply elem_of_grid_positions. apply elem_of_seq in Hx, Hy.
      simpl in Hx, Hy. rewrite Hpb, Hpa in Hx, Hy. lia. }
    apply (clear_step_clean w) with (w' := w1).
    - simpl. congruence.
    - unfold cell_at at 2. simpl. rewrite Hcb. apply Hin, Hp. }
  assert (Hflags : update_filled get_answer_cells w1 = (Ok tt, w1)).
  { apply update_filled_id; simpl; intros n Hn; rewrite Hpb in Hn.
    - destruct (Hacross n Hn) as (b & Hb & Hall). exists b.
      split; [exact Hb|]. rewrite Hcb, Hpb. exact Hall.
    - destruct (Hdown n Hn) as (b & Hb & Hall). exists b.
      split; [exact Hb|]. rewrite Hcb, Hpb. exact Hall. }
  rewrite clear_incorrect_cells_run. unfold clear_and_update, bind.
  rewrite Hloops, Hflags. unfold get_room_obj, set_room, ret. simpl.
  rewrite insert_insert_eq. reflexivity.
Qed.

Lemma clear_incorrect_cells_idempotent_witness :
  clear_incorrect_cells demo_answer_cells "demo"
    (mkWorld
       (Room.mk "playing" (demo_puzzle CAT) [[Some "C"; Some ""; Some ""]]
          (<[1 := false]> ∅)
          (<[1 := true]> (<[2 := false]> (<[3 := false]> ∅)))
          (Some 0) 0)
       (<["room:demo" :=
            Room.mk "playing" (demo_puzzle CAT) [[Some "C"; Some ""; Some ""]]
              (<[1 := false]> ∅)
              (<[1 := true]> (<[2 := false]> (<[3 := false]> ∅)))
              (Some 0) 0]> ∅))
  = (Ok (Room.mk "playing" (demo_puzzle CAT) [[Some "C"; Some ""; Some ""]]
           (<[1 := false]> ∅)
           (<[1 := true]> (<[2 := false]> (<[3 := false]> ∅)))
           (Some 0) 0),
     mkWorld
       (Room.mk "playing" (demo_puzzle CAT) [[Some "C"; Some ""; Some ""]]
          (<[1 := false]> ∅)
          (<[1 := true]> (<[2 := false]> (<[3 := false]> ∅)))
          (Some 0) 0)
       (<["room:demo" :=
            Room.mk "playing" (demo_puzzle CAT) [[Some "C"; Some ""; Some ""]]
              (<[1 := false]> ∅)
              (<[1 := true]> (<[2 := false]> (<[3 := false]> ∅)))
              (Some 0) 0]> ∅)).
Proof.
  apply (clear_incorrect_cells_idempotent demo_answer_cells "demo"
    (demo_world (demo_room "playing" CAT [Some "C"; Some "X"; Some ""] (Some 0) 0))).
  vm_compute. reflexivity.
Defined.

(** ** The outcomes of [apply_answer] *)

Section Outcomes.

Variable get_answer_cells : Puzzle.t -> Z -> string -> list (nat * nat).

(** [finish] never rejects: it raises, or it saves the room it returns. *)
Lemma finish_inv (name : string) (now : datetime) (w w' : World)
    (r : option Room.t) :
  finish name now w = (Ok r, w') ->
  exists room',
    r = Some room'
    /\ w' = mkWorld (obj w) (<["room:" ++ name := room']> (store w))
    /\ ((Room.cells (obj w) = Puzzle.cells (Room.puzzle (obj w))
         /\ exists started,
              Room.last_start_time (obj w) = Some started
              /\ room' = Room.evolve (obj w) "complete" None
                           (Room.total_time_secs (obj w)
                            + whole_seconds (now - started)))
        \/ (Room.cells (obj w) <> Puzzle.cells (Room.puzzle (obj w))
            /\ room' = obj w)).
Proof.
  unfold finish, bind, get_room_obj. case_bool_decide as Hdone.
  - destruct (Room.last_start_time (obj w)) as [started|]; [|discriminate].
    simpl. intros [= <- <-]. eexists. split; [reflexivity|].
    split; [reflexivity|]. left. split; [exact Hdone|]. eauto.
  - simpl. intros [= <- <-]. eexists. split; [reflexivity|].
    split; [reflexivity|]. right. auto.
Qed.


(** The three ways [apply_answer] runs: it rejects at once, or it runs the
    two loops and [finish]. *)
Lemma apply_answer_cases (name : string) (clue : option string) (answer : string)
    (allow_clearing : bool) (now : datetime) (w : World) :
  (parse_clue clue = None
   /\ apply_answer get_answer_cells name clue answer allow_clearing now w
      = (Ok None, w))
  \/ (exists num direction values,
        parse_clue clue = Some (num, direction)
        /\ parse_answer answer = Ok values
        /\ length values
           <> length (get_answer_cells (Room.puzzle (obj w)) num direction)
        /\ apply_answer get_answer_cells name clue answer allow_clearing now w
           = (Ok None, w))
  \/ (exists num direction values,
        parse_clue clue = Some (num, direction)
        /\ parse_answer answer = Ok values
        /\ length values
           = length (get_answer_cells (Room.puzzle (obj w)) num direction)
        /\ apply_answer get_answer_cells name clue answer allow_clearing now w
           = bind (write_and_update get_answer_cells allow_clearing
                     (zip values
                        (get_answer_cells (Room.puzzle (obj w)) num direction)))
                  (fun _ => finish name now) w).
Proof.
  destruct (parse_clue clue) as [[num direction]|] eqn:Hclue; cycle 1.
  { left. split; [reflexivity|]. unfold apply_answer. rewrite Hclue. reflexivity. }
  right. destruct (parse_answer_returns answer) as [values Hans].
  destruct (decide (length values
                    = length (get_answer_cells (Room.puzzle (obj w)) num direction)))
    as [Hlen|Hlen].
  - right. exists num, direction, values. repeat split; try assumption.
    apply apply_answer_run; assumption.
  - left. exists num, direction, values. repeat split; try assumption.
    apply apply_answer_mismatch with (num := num) (direction := direction)
                                     (values := values); assumption.
Qed.

End Outcomes.

(** X3: [apply_answer] returns the rejection exactly when the clue does not
    parse or the parsed answer has another length than the coordinates of
    the clue; the room object and the store are then what they were before
    the call. *)
Theorem apply_answer_rejects_iff
    (get_answer_cells : Puzzle.t -> Z -> string -> list (nat * nat))
    (name : string) (clue : option string) (answer : string)
    (allow_clearing : bool) (now : datetime) (w w' : World) :
  apply_answer get_answer_cells name clue answer allow_clearing now w = (Ok None, w')
  <-> w' = w
      /\ (parse_clue clue = None
          \/ exists num direction values,
               parse_clue clue = Some (num, direction)
               /\ parse_answer answer = Ok values
               /\ length values
                  <> length (get_answer_cells (Room.puzzle (obj w)) num direction)).
Proof.
  destruct (apply_answer_cases get_answer_cells name clue answer allow_clearing now w)
    as [[Hclue Hrun] | [(num & dir & values & Hclue & Hans & Hlen & Hrun)
                       | (num & dir & values & Hclue & Hans & Hlen & Hrun)]];
    rewrite Hrun.
  - split.
    + intros [= <-]. auto.
    + intros [-> _]. reflexivity.
  - split.
    + intros [= <-]. split; [reflexivity|]. right. eauto 10.
    + intros [-> _]. reflexivity.
  - split.
    + intros Hnone. apply bind_Ok in Hnone as ([] & wb & _ & Hfin).
      apply finish_inv in Hfin as (room' & Hr & _). discriminate Hr.
    + intros [_ [Hnone | (num' & dir' & values' & Hclue' & Hans' & Hlen')]].
      * congruence.
      * rewrite Hclue in Hclue'. injection Hclue' as <- <-.
        rewrite Hans in Hans'. injection Hans' as <-. contradiction.
Qed.

(** X4: a room that [apply_answer] returns has the puzzle of the room it was
    given.  If its grid equals the solution, the room had a last start, and
    the returned room is "complete", has no last start, and its total has
    grown by [int(delta.total_seconds())] for the interval from that last
    start to the clock value: the [float] nearest to its seconds, cut toward
    zero, which for an interval shorter than 2^33 seconds is the whole
    seconds of the interval toward zero.  If the grid differs from the
    solution, the state, the last start and the total are those of the room
    it was given. *)
Theorem apply_answer_completion
    (get_answer_cells : Puzzle.t -> Z -> string -> list (nat * nat))
    (name : string) (clue : option string) (answer : string)
    (allow_clearing : bool) (now : datetime) (w w' : World) (room' : Room.t) :
  apply_answer get_answer_cells name clue answer allow_clearing now w
  = (Ok (Some room'), w') ->
  Room.puzzle room' = Room.puzzle (obj w)
  /\ (Room.cells room' = Puzzle.cells (Room.puzzle (obj w)) ->
      exists started,
        Room.last_start_time (obj w) = Some started
        /\ Room.play_pause_state room' = "complete"
        /\ Room.last_start_time room' = None
        /\ Room.total_time_secs room'
           = Room.total_time_secs (obj w) + whole_seconds (now - started)
        /\ (Z.abs (now - started) < 2 ^ 33 * 1000000 ->
            Room.total_time_secs room'
            = Room.total_time_secs (obj w) + Z.quot (now - started) 1000000))
  /\ (Room.cells room' <> Puzzle.cells (Room.puzzle (obj w)) ->
      Room.play_pause_state room' = Room.play_pause_state (obj w)
      /\ Room.last_start_time room' = Room.last_start_time (obj w)
      /\ Room.total_time_secs room' = Room.total_time_secs (obj w)).
Proof.
  intros Hrun.
  destruct (apply_answer_cases get_answer_cells name clue answer allow_clearing now w)
    as [[_ Hcase] | [(num & dir & values & _ & _ & _ & Hcase)
                    | (num & dir & values & _ & _ & _ & Hcase)]];
    rewrite Hcase in Hrun; try discriminate Hrun.
  apply bind_Ok in Hrun as ([] & wb & Hloops & Hfin).
  apply (quiet_run _ _ _ _ (quiet_write_and_update get_answer_cells _ _)) in Hloops
    as [Hfr _].
  apply frozen_state in Hfr as (Hs & Hp & Hl & Ht).
  apply finish_inv in Hfin
    as (r & [= <-] & _ & [(Hdone & started & Hstarted & ->) | (Hnot & ->)]);
    simpl.
  - split; [exact Hp|]. split.
    + intros _. exists started. rewrite <- Hl, <- Ht.
      split; [exact Hstarted|]. split; [reflexivity|]. split; [reflexivity|].
      split; [reflexivity|].
      intros Hb. rewrite (whole_seconds_exact _ Hb). reflexivity.
    + intros Hne. exfalso. apply Hne. rewrite <- Hp. exact Hdone.
  - split; [exact Hp|]. split.
    + intros Heq. exfalso. apply Hnot. rewrite Hp. exact Heq.
    + intros _. auto.
Qed.

Lemma apply_answer_completion_witness :
  Room.play_pause_state
    (Room.mk "complete" (demo_puzzle CAT) [CAT]
       (<[1 := true]> ∅)
       (<[1 := true]> (<[2 := true]> (<[3 := true]> ∅)))
       None 37) = "complete"
  /\ 37 = 30 + whole_seconds (9500000 - 2000000).
Proof.
  pose proof (apply_answer_completion demo_answer_cells "demo" (Some "1a") "..T"
    false 9500000
    (demo_world (demo_room "playing" CAT [Some "C"; Some "A"; Some ""]
                   (Some 2000000) 30))
    (mkWorld
       (Room.mk "playing" (demo_puzzle CAT) [CAT]
          (<[1 := true]> ∅)
          (<[1 := true]> (<[2 := true]> (<[3 := true]> ∅)))
          (Some 2000000) 30)
       (<["room:demo" :=
            Room.mk "complete" (demo_puzzle CAT) [CAT]
              (<[1 := true]> ∅)
              (<[1 := true]> (<[2 := true]> (<[3 := true]> ∅)))
              None 37]> ∅))
    (Room.mk "complete" (demo_puzzle CAT) [CAT]
       (<[1 := true]> ∅)
       (<[1 := true]> (<[2 := true]> (<[3 := true]> ∅)))
       None 37)) as H.
  destruct H as (_ & Hdone & _); [vm_compute; reflexivity|].
  destruct (Hdone eq_refl) as (started & Hstarted & Hstate & _ & Htotal & _).
  injection Hstarted as <-. split; [exact Hstate | exact Htotal].
Defined.

(** ** Saving *)

Section Saving.

Variable get_answer_cells : Puzzle.t -> Z -> string -> list (nat * nat).




End Saving.



(** ** The timer invariant *)





(** ** The shape of the grid *)

Section Shape.

(** The coordinate is inside the grid: reading it raises nothing. *)
Definition in_grid (g : grid) (p : nat * nat) : Prop :=
  exists v, grid_get g p.2 p.1 = Ok v.

Definition same_shape (g g' : grid) : Prop :=
  forall p, in_grid g' p <-> in_grid g p.

Lemma grid_set_Ok_iff (g : grid) (y x : nat) (v : cell) :
  (exists g', grid_set g y x v = Ok g') <-> in_grid g (x, y).
Proof.
  unfold grid_set, in_grid, grid_get. simpl.
  destruct (g !! y) as [row|]; cycle 1.
  { split; intros [? H]; discriminate H. }
  case_decide as Hx.
  - split; [|eauto]. intros _.
    destruct (lookup_lt_is_Some_2 row x Hx) as [v0 Hv0]. rewrite Hv0. eauto.
  - split; [intros [? H]; discriminate H|].
    intros [v0 Hv0]. destruct (row !! x) eqn:Hrow; [|discriminate Hv0].
    exfalso. apply Hx. eapply lookup_lt_Some, Hrow.
Qed.

Lemma grid_set_same_shape (g g' : grid) (y x : nat) (v : cell) :
  grid_set g y x v = Ok g' -> same_shape g g'.
Proof.
  intros Hset [x' y']. unfold in_grid. simpl.
  rewrite (grid_get_set _ _ _ _ _ Hset).
  case_decide as H; [|reflexivity]. destruct H as [-> ->].
  split; [|eauto]. intros _.
  apply (grid_set_Ok_iff g y x v). eauto.
Qed.

(** The relation on worlds: the same puzzle, a grid of the same shape, the
    same store. *)
Definition shape_kept (w w' : World) : Prop :=
  Room.puzzle (obj w') = Room.puzzle (obj w)
  /\ same_shape (Room.cells (obj w)) (Room.cells (obj w')).

Lemma shape_kept_refl (w : World) : shape_kept w w.
Proof. split; [reflexivity|]. intros p. reflexivity. Qed.

Lemma shape_kept_trans (w1 w2 w3 : World) :
  shape_kept w1 w2 -> shape_kept w2 w3 -> shape_kept w1 w3.
Proof.
  intros [Hp1 Hs1] [Hp2 Hs2]. split; [congruence|].
  intros p. rewrite (Hs2 p). apply Hs1.
Qed.

Lemma set_cell_shape_kept (y x : nat) (v : cell) (w w' : World) :
  set_cell y x v w = (Ok tt, w') -> shape_kept w w'.
Proof.
  intros (g' & Hset & ->)%set_cell_Ok. split; [reflexivity|]. simpl.
  eapply grid_set_same_shape, Hset.
Qed.


Lemma write_value_shape_kept (allow_clearing : bool) (p : string * (nat * nat))
    (w w' : World) :
  write_value allow_clearing p w = (Ok tt, w') -> shape_kept w w'.
Proof.
  destruct p as [value [x y]]. unfold write_value.
  destruct (allow_clearing || negb (String.eqb value EmptyString)).
  - apply set_cell_shape_kept.
  - intros [= <-]. apply shape_kept_refl.
Qed.

Lemma clear_cell_shape_kept (y x : nat) (w w' : World) :
  clear_cell y x w = (Ok tt, w') -> shape_kept w w'.
Proof.
  unfold clear_cell. unfold bind at 1. unfold get_room_obj at 1.
  unfold bind at 1. unfold lift at 1.
  destruct (grid_get (Room.cells (obj w)) y x) as [v|e]; [|discriminate].
  destruct (truthy v); cycle 1.
  { intros [= <-]. apply shape_kept_refl. }
  unfold bind at 1. unfold lift at 1.
  destruct (grid_get (Puzzle.cells (Room.puzzle (obj w))) y x) as [s|e];
    [|discriminate].
  destruct (bool_decide (v ≠ s)).
  - apply set_cell_shape_kept.
  - intros [= <-]. apply shape_kept_refl.
Qed.



End Shape.

(** ** Faults *)

Section Faults.

Variable get_answer_cells : Puzzle.t -> Z -> string -> list (nat * nat).








End Faults.






(** ** What [apply_answer] leaves alone *)

Section Frame.

Variable get_answer_cells : Puzzle.t -> Z -> string -> list (nat * nat).

Definition flags_kept (w w' : World) : Prop :=
  Room.across_clues_filled (obj w') = Room.across_clues_filled (obj w)
  /\ Room.down_clues_filled (obj w') = Room.down_clues_filled (obj w).

Lemma write_loop_flags_kept (allow_clearing : bool)
    (pairs : list (string * (nat * nat))) (w w' : World) :
  for_each pairs (write_value allow_clearing) w = (Ok tt, w') -> flags_kept w w'.
Proof.
  apply for_each_rel.
  - intros w0. split; reflexivity.
  - intros w1 w2 w3 [Ha1 Hd1] [Ha2 Hd2]. split; congruence.
  - intros [value [x y]] w0 w0'. unfold write_value.
    destruct (allow_clearing || negb (String.eqb value EmptyString)).
    + intros (g' & _ & ->)%set_cell_Ok. split; reflexivity.
    + intros [= <-]. split; reflexivity.
Qed.

End Frame.

(** X10: a call of [apply_answer] that returns a room leaves alone what the
    clue does not name: a cell that is not among the coordinates of the clue
    reads as before, a coordinate is inside the returned grid exactly when
    it was inside the grid before, no cell has become a block, and the flag
    of a number that is no clue number of the puzzle is what it was. *)
Theorem apply_answer_frame
    (get_answer_cells : Puzzle.t -> Z -> string -> list (nat * nat))
    (name : string) (clue : option string) (answer : string)
    (allow_clearing : bool) (now : datetime) (w w' : World) (room' : Room.t)
    (num : Z) (direction : string) :
  apply_answer get_answer_cells name clue answer allow_clearing now w
  = (Ok (Some room'), w') ->
  parse_clue clue = Some (num, direction) ->
  (forall x y,
     (x, y) ∉ get_answer_cells (Room.puzzle (obj w)) num direction ->
     grid_get (Room.cells room') y x = grid_get (Room.cells (obj w)) y x)
  /\ same_shape (Room.cells (obj w)) (Room.cells room')
  /\ no_new_blocks (Room.cells (obj w)) (Room.cells room')
  /\ (forall n, n ∉ dom (Puzzle.across_clues (Room.puzzle (obj w))) ->
        Room.across_clues_filled room' !! n
        = Room.across_clues_filled (obj w) !! n)
  /\ (forall n, n ∉ dom (Puzzle.down_clues (Room.puzzle (obj w))) ->
        Room.down_clues_filled room' !! n
        = Room.down_clues_filled (obj w) !! n).
Proof.
  intros Hrun Hclue.
  apply apply_answer_Ok in Hrun
    as (num' & direction' & values & wa & wb & Hclue' & _ & Hlen
        & Hwrite & Hupd & Hfin).
  rewrite Hclue in Hclue'. injection Hclue' as <- <-.
  apply finish_Ok in Hfin as (Hc & _ & Hfa & Hfd).
  apply update_filled_flags in Hupd as (Hcb & _ & _ & _ & Houta & Houtd).
  assert (Hpa : Room.puzzle (obj wa) = Room.puzzle (obj w)).
  { assert (Hq : quiet (for_each
              (zip values (get_answer_cells (Room.puzzle (obj w)) num direction))
              (write_value allow_clearing)))
      by apply quiet_for_each, quiet_write_value.
    apply (quiet_run _ _ _ _ Hq) in Hwrite as [Hfr _].
    apply frozen_state in Hfr. tauto. }
  pose proof (write_loop_flags_kept allow_clearing _ _ _ Hwrite) as [Hka Hkd].
  rewrite Hc, Hcb, Hfa, Hfd. split; [|split; [|split; [|split]]].
  - intros x y Hout.
    apply (write_loop_untouched allow_clearing _ _ _ Hwrite).
    rewrite snd_zip by lia. exact Hout.
  - assert (Hshape : shape_kept w wa).
    { revert Hwrite. apply for_each_rel.
      - apply shape_kept_refl.
      - apply shape_kept_trans.
      - apply write_value_shape_kept. }
    apply Hshape.
  - revert Hwrite. apply (for_each_rel blocks_kept).
    + apply blocks_kept_refl.
    + apply blocks_kept_trans.
    + apply write_value_blocks_kept.
  - intros n Hn. rewrite Houta, Hka; [reflexivity|].
    rewrite Hpa. intros Hin. apply Hn. apply elem_of_keys, Hin.
  - intros n Hn. rewrite Houtd, Hkd; [reflexivity|].
    rewrite Hpa. intros Hin. apply Hn. apply elem_of_keys, Hin.
Qed.

Lemma apply_answer_frame_witness :
  Room.across_clues_filled
    (Room.mk "playing" (demo_puzzle COT) [CAT]
       (<[1 := true]> (<[7 := false]> ∅))
       (<[1 := true]> (<[2 := true]> (<[3 := true]> ∅)))
       (Some 0) 0) !! 7
  = (<[7 := false]> ∅ : gmap Z bool) !! 7.
Proof.
  refine (proj1 (proj2 (proj2 (proj2 (apply_answer_frame demo_answer_cells "demo"
    (Some "1a") ".AT" false 9
    (demo_world (Room.mk "playing" (demo_puzzle COT) [[Some "C"; Some ""; Some ""]]
                   (<[7 := false]> ∅) ∅ (Some 0) 0))
    (mkWorld
       (Room.mk "playing" (demo_puzzle COT) [CAT]
          (<[1 := true]> (<[7 := false]> ∅))
          (<[1 := true]> (<[2 := true]> (<[3 := true]> ∅)))
          (Some 0) 0)
       (<["room:demo" :=
            Room.mk "playing" (demo_puzzle COT) [CAT]
              (<[1 := true]> (<[7 := false]> ∅))
              (<[1 := true]> (<[2 := true]> (<[3 := true]> ∅)))
              (Some 0) 0]> ∅))
    _ 1 "a" _ _)))) 7 _).
  - vm_compute. reflexivity.
  - reflexivity.
  - intros H. apply elem_of_dom in H as [v Hv]. vm_compute in Hv. discriminate Hv.
Defined.

(** ** More on the answer grammar *)

Section AnswerGrammar.

(** The text without its blanks. *)
Fixpoint remove_spaces (s : string) : string :=
  match s with
  | EmptyString => EmptyString
  | String c rest =>
      if Py.isspace c then remove_spaces rest else String c (remove_spaces rest)
  end.

(** The entry that a character outside a group stands for. *)
Definition entry_of_char (c : ascii) : string :=
  if Ascii.eqb c "." then EmptyString else String c EmptyString.

Definition has_no (c : ascii) (s : string) : Prop :=
  Py.string_forallb (fun d => negb (Ascii.eqb d c)) s = true.

Lemma parse_answer_step_space (st : list string * bool) (c : ascii) :
  Py.isspace c = true -> parse_answer_step st c = Ok st.
Proof. intros H. destruct st. unfold parse_answer_step. rewrite H. reflexivity. Qed.

Lemma parse_answer_loop_spaces (s : string) :
  forall st, parse_answer_loop s st = parse_answer_loop (remove_spaces s) st.
Proof.
  induction s as [|c s IH]; intros st; [reflexivity|]. simpl.
  destruct (Py.isspace c) eqn:Hc.
  - rewrite (parse_answer_step_space st c Hc). simpl. apply IH.
  - simpl. destruct (parse_answer_step st c); simpl; [apply IH | reflexivity].
Qed.

Lemma parse_answer_loop_app (s1 s2 : string) :
  forall st,
    parse_answer_loop (s1 ++ s2) st
    = rbind (parse_answer_loop s1 st) (parse_answer_loop s2).
Proof.
  induction s1 as [|c s1 IH]; intros st; [reflexivity|].
  change (String c s1 ++ s2) with (String c (s1 ++ s2)). simpl.
  destruct (parse_answer_step st c); simpl; [apply IH | reflexivity].
Qed.

Lemma append_to_last_snoc (cells : list string) (cur : string) (c : ascii) :
  append_to_last (cells ++ [cur])%list c
  = Ok (cells ++ [(cur ++ String c EmptyString)%string])%list.
Proof.
  induction cells as [|s cells IH]; [reflexivity|].
  change ((s :: cells) ++ [cur])%list with (s :: (cells ++ [cur]))%list.
  destruct (cells ++ [cur])%list as [|s' rest] eqn:Hrest.
  - destruct cells; discriminate Hrest.
  - change (append_to_last (s :: s' :: rest) c)
      with (rbind (append_to_last (s' :: rest) c) (fun r => Ok (s :: r))).
    rewrite IH. reflexivity.
Qed.

Lemma append_snoc_assoc (cur : string) (c : ascii) (t : string) :
  (cur ++ String c EmptyString) ++ t = cur ++ String c t.
Proof.
  induction cur as [|d cur IH]; [reflexivity|].
  change (String d ((cur ++ String c EmptyString) ++ t) = String d (cur ++ String c t)).
  rewrite IH. reflexivity.
Qed.

(** Outside a group, with no opening parenthesis ahead, each character
    that is not a blank gives one entry. *)
Lemma parse_answer_loop_plain (s : string) :
  has_no "(" s ->
  forall cells,
    parse_answer_loop s (cells, false)
    = Ok ((cells ++ map entry_of_char (list_ascii_of_string (remove_spaces s)))%list,
          false).
Proof.
  unfold has_no. induction s as [|c s IH]; intros Hno cells.
  - simpl. rewrite app_nil_r. reflexivity.
  - simpl in Hno. apply andb_prop in Hno as [Hc Hno].
    simpl. destruct (Py.isspace c) eqn:Hsp; simpl.
    + apply IH, Hno.
    + apply negb_true_iff in Hc. rewrite Hc. simpl.
      rewrite (IH Hno). unfold entry_of_char.
      destruct (Ascii.eqb c "."); simpl; rewrite <- app_assoc; reflexivity.
Qed.

(** Inside a group, with no closing parenthesis ahead, each character that
    is not a blank is appended to the entry of the group. *)
Lemma parse_answer_loop_group (body : string) :
  has_no ")" body ->
  forall cells cur,
    parse_answer_loop body ((cells ++ [cur])%list, true)
    = Ok ((cells ++ [(cur ++ remove_spaces body)%string])%list, true).
Proof.
  unfold has_no. induction body as [|c body IH]; intros Hno cells cur.
  - simpl. rewrite append_nil_r. reflexivity.
  - simpl in Hno. apply andb_prop in Hno as [Hc Hno].
    simpl. destruct (Py.isspace c) eqn:Hsp; simpl.
    + apply IH, Hno.
    + apply negb_true_iff in Hc. rewrite Hc. simpl.
      rewrite append_to_last_snoc. simpl. rewrite (IH Hno).
      rewrite append_snoc_assoc. reflexivity.
Qed.

(** The state after a text is the same whatever entries came before it. *)
Lemma parse_answer_loop_prefix (s : string) (pre : list string) :
  forall cells b,
    parse_answer_loop s ([], false) = Ok (cells, b) ->
    parse_answer_loop s (pre, false) = Ok ((pre ++ cells)%list, b).
Proof.
  assert (Hstep : forall c cells b cells' b',
            group_open_ok (cells, b) ->
            parse_answer_step (cells, b) c = Ok (cells', b') ->
            parse_answer_step ((pre ++ cells)%list, b) c
            = Ok ((pre ++ cells')%list, b')).
  { intros c cells b cells' b' Hinv. unfold parse_answer_step.
    destruct (Py.isspace c); [intros [= <- <-]; reflexivity|].
    destruct b; simpl.
    - destruct (Ascii.eqb c ")"); [intros [= <- <-]; reflexivity|].
      assert (Hne : cells <> []) by exact (Hinv eq_refl).
      destruct (exists_last Hne) as (front & cur & ->).
      rewrite append_to_last_snoc. simpl. intros [= <- <-].
      rewrite app_assoc, append_to_last_snoc, <- app_assoc. reflexivity.
    - destruct (Ascii.eqb c "("); intros [= <- <-]; rewrite app_assoc; reflexivity. }
  assert (Hloop : forall s0 cells0 b0 cells b,
            group_open_ok (cells0, b0) ->
            parse_answer_loop s0 (cells0, b0) = Ok (cells, b) ->
            parse_answer_loop s0 ((pre ++ cells0)%list, b0)
            = Ok ((pre ++ cells)%list, b)).
  { induction s0 as [|c s0 IH]; intros cells0 b0 cells b Hinv Hrun.
    - injection Hrun as <- <-. reflexivity.
    - cbn [parse_answer_loop] in Hrun. cbn [parse_answer_loop].
      destruct (parse_answer_step_ok (cells0, b0) c Hinv) as ([cells1 b1] & H1 & Hinv1).
      rewrite H1 in Hrun. cbn [rbind] in Hrun.
      rewrite (Hstep c cells0 b0 cells1 b1 Hinv H1). cbn [rbind].
      apply IH; assumption. }
  intros cells b Hrun.
  rewrite <- (app_nil_r pre) at 1. apply Hloop; [|exact Hrun].
  unfold group_open_ok. simpl. discriminate.
Qed.

End AnswerGrammar.

Section AnswerText.

Lemma append_assoc (s t u : string) : (s ++ t) ++ u = s ++ (t ++ u).
Proof.
  induction s as [|c s IH]; [reflexivity|].
  change (String c ((s ++ t) ++ u) = String c (s ++ (t ++ u))).
  rewrite IH. reflexivity.
Qed.

(** The text that [get_correct_answer] builds from the values of the
    cells of a clue. *)
Definition answer_text (values : list string) : string :=
  fold_right (fun value text => answer_part value ++ text) EmptyString values.

(** A value that the text gives back to [parse_answer]: alone, a character
    that is no blank, no dot and no opening parenthesis; between
    parentheses, a text with no blank and no closing parenthesis. *)
Definition answer_safe (value : string) : Prop :=
  match value with
  | String c EmptyString =>
      Py.isspace c = false /\ c <> "."%char /\ c <> "("%char
  | _ => has_no ")" value /\ remove_spaces value = value
  end.

Lemma correct_answer_loop_text (cells : grid) (coordinates : list (nat * nat)) :
  forall answer text,
    correct_answer_loop cells coordinates answer = Ok text ->
    exists values,
      Forall2 (fun p value => grid_get cells p.2 p.1 = Ok (Some value))
        coordinates values
      /\ text = answer ++ answer_text values.
Proof.
  induction coordinates as [|[x y] rest IH]; intros answer text Hrun.
  - injection Hrun as <-. exists []. split; [constructor|].
    simpl. rewrite append_nil_r. reflexivity.
  - simpl in Hrun. destruct (grid_get cells y x) as [[value|]|e] eqn:Hv;
      simpl in Hrun; try discriminate Hrun.
    apply IH in Hrun as (values & Hall & ->).
    exists (value :: values). split; [constructor; assumption|].
    simpl. apply append_assoc.
Qed.

Lemma parse_answer_loop_part (value : string) (cells : list string) :
  answer_safe value ->
  parse_answer_loop (answer_part value) (cells, false)
  = Ok ((cells ++ [value])%list, false).
Proof.
  unfold answer_safe, answer_part.
  destruct value as [|c [|d rest]].
  - intros _. reflexivity.
  - intros (Hsp & Hdot & Hpar). simpl. rewrite Hsp.
    destruct (Ascii.eqb_spec c "("); [contradiction|].
    destruct (Ascii.eqb_spec c "."); [contradiction|]. reflexivity.
  - set (value := String c (String d rest)). intros [Hno Hsp].
    change (if (String.length value =? 1)%nat then value else "(" ++ value ++ ")")
      with (String "(" (value ++ ")")).
    cbn [parse_answer_loop]. change (parse_answer_step (cells, false) "(")
      with (Ok ((cells ++ [EmptyString])%list, true) : result (list string * bool)).
    cbn [rbind]. rewrite parse_answer_loop_app.
    rewrite (parse_answer_loop_group value Hno). cbn [rbind].
    change (EmptyString ++ remove_spaces value) with (remove_spaces value).
    rewrite Hsp. reflexivity.
Qed.

Lemma parse_answer_loop_text (values : list string) :
  Forall answer_safe values ->
  forall cells rest,
    parse_answer_loop (answer_text values ++ rest) (cells, false)
    = parse_answer_loop rest ((cells ++ values)%list, false).
Proof.
  induction values as [|value values IH]; intros Hsafe cells rest.
  - simpl. rewrite app_nil_r. reflexivity.
  - apply Forall_cons in Hsafe as [Hv Hsafe].
    cbn [answer_text fold_right]. fold (answer_text values).
    rewrite append_assoc, parse_answer_loop_app.
    rewrite (parse_answer_loop_part value cells Hv). cbn [rbind].
    rewrite (IH Hsafe). rewrite <- app_assoc. reflexivity.
Qed.

Lemma parse_answer_text (values : list string) :
  Forall answer_safe values -> parse_answer (answer_text values) = Ok values.
Proof.
  intros Hsafe. unfold parse_answer.
  rewrite <- (append_nil_r (answer_text values)).
  rewrite (parse_answer_loop_text values Hsafe). reflexivity.
Qed.

Variable get_answer_cells : Puzzle.t -> Z -> string -> list (nat * nat).

Lemma get_correct_answer_inv (name : string) (clue : option string) (w w' : World)
    (text : string) :
  get_correct_answer get_answer_cells name clue w = (Ok (Some text), w') ->
  w' = w
  /\ exists room num direction values,
       store w !! ("room:" ++ name) = Some room
       /\ parse_clue clue = Some (num, direction)
       /\ Forall2 (fun p value =>
                     grid_get (Puzzle.cells (Room.puzzle room)) p.2 p.1
                     = Ok (Some value))
            (get_answer_cells (Room.puzzle room) num direction) values
       /\ text = answer_text values.
Proof.
  unfold get_correct_answer, bind, get_room. simpl.
  destruct (store w !! ("room:" ++ name)) as [room|]; [|discriminate].
  destruct (parse_clue clue) as [[num direction]|]; [|discriminate].
  unfold lift.
  destruct (correct_answer_loop _ _ _) as [t|e] eqn:Hloop; [|discriminate].
  simpl. intros [= <- <-]. split; [reflexivity|].
  apply correct_answer_loop_text in Hloop as (values & Hall & ->).
  exists room, num, direction, values. auto.
Qed.

End AnswerText.

(** X11: blanks never matter to [parse_answer]: two texts that differ only
    by blanks, inside a group or outside, parse to the same result. *)
Theorem parse_answer_ignores_blanks (s t : string) :
  remove_spaces s = remove_spaces t -> parse_answer s = parse_answer t.
Proof.
  intros H. unfold parse_answer.
  rewrite (parse_answer_loop_spaces s), (parse_answer_loop_spaces t), H.
  reflexivity.
Qed.

Lemma parse_answer_ignores_blanks_witness :
  parse_answer " (r e d) vel vet " = parse_answer "(red)velvet".
Proof.
  apply (parse_answer_ignores_blanks " (r e d) vel vet " "(red)velvet").
  reflexivity.
Defined.

(** X12: a text with no opening parenthesis parses to one entry for each of
    its characters that is not a blank, in order: the empty entry for a dot,
    the character itself otherwise; a closing parenthesis with no group open
    is an entry like any other character. *)
Theorem parse_answer_plain (s : string) :
  has_no "(" s ->
  parse_answer s
  = Ok (map entry_of_char (list_ascii_of_string (remove_spaces s))).
Proof.
  intros Hno. unfold parse_answer.
  rewrite (parse_answer_loop_plain s Hno []). reflexivity.
Qed.

Lemma parse_answer_plain_witness :
  parse_answer "a. )b" = Ok ["a"; ""; ")"; "b"].
Proof. apply (parse_answer_plain "a. )b"). reflexivity. Defined.

(** X13: a group whose body has no closing parenthesis parses to the single
    entry made of the body without its blanks: a dot or an opening
    parenthesis in the body is kept as it is, and an empty body gives the
    empty entry.  The closing parenthesis may be missing at the end of the
    text: the result is the same. *)
Theorem parse_answer_group (body : string) :
  has_no ")" body ->
  parse_answer ("(" ++ body ++ ")") = Ok [remove_spaces body]
  /\ parse_answer ("(" ++ body) = Ok [remove_spaces body].
Proof.
  intros Hno. unfold parse_answer.
  change ("(" ++ body ++ ")") with (String "(" (body ++ ")")).
  change ("(" ++ body) with (String "(" body).
  cbn [parse_answer_loop].
  change (parse_answer_step ([], false) "(")
    with (Ok ([EmptyString], true) : result (list string * bool)).
  cbn [rbind]. rewrite parse_answer_loop_app.
  pose proof (parse_answer_loop_group body Hno [] EmptyString) as Hg.
  change ([] ++ [EmptyString])%list with [EmptyString] in Hg.
  change (EmptyString ++ remove_spaces body) with (remove_spaces body) in Hg.
  rewrite Hg. split; reflexivity.
Qed.

Lemma parse_answer_group_witness :
  parse_answer "(a.( b)" = Ok ["a.(b"] /\ parse_answer "(a.( b" = Ok ["a.(b"].
Proof. apply (parse_answer_group "a.( b"). reflexivity. Defined.

(** X14: parsing composes: when a first text leaves no group open, the
    entries of the first text followed by a second text are the entries of
    the first followed by the entries of the second. *)
Theorem parse_answer_app (s1 s2 : string) (l1 l2 : list string) :
  parse_answer_loop s1 ([], false) = Ok (l1, false) ->
  parse_answer s2 = Ok l2 ->
  parse_answer (s1 ++ s2) = Ok (l1 ++ l2)%list.
Proof.
  intros H1 H2. unfold parse_answer in *.
  rewrite parse_answer_loop_app, H1. cbn [rbind].
  destruct (parse_answer_loop s2 ([], false)) as [[cells b]|e] eqn:Hs2;
    [|discriminate H2].
  simpl in H2. injection H2 as ->.
  rewrite (parse_answer_loop_prefix s2 l1 l2 b Hs2). reflexivity.
Qed.

Lemma parse_answer_app_witness :
  parse_answer ("(re)d" ++ ".(x)") = Ok (["re"; "d"] ++ [""; "x"])%list.
Proof.
  apply (parse_answer_app "(re)d" ".(x)" ["re"; "d"] [""; "x"]); reflexivity.
Defined.

(** X15: the text that [get_correct_answer] returns is made of the values of
    the cells of the clue in the grid of the solution, a value of one
    character as it is and any other value between parentheses; the call
    changes nothing.  When no value has a blank or a closing parenthesis,
    and a value of one character is no dot and no opening parenthesis,
    [parse_answer] gives these values back from the text. *)
Theorem get_correct_answer_parses_back
    (get_answer_cells : Puzzle.t -> Z -> string -> list (nat * nat))
    (name : string) (clue : option string) (w w' : World) (text : string) :
  get_correct_answer get_answer_cells name clue w = (Ok (Some text), w') ->
  w' = w
  /\ exists room num direction values,
       store w !! ("room:" ++ name) = Some room
       /\ parse_clue clue = Some (num, direction)
       /\ Forall2 (fun p value =>
                     grid_get (Puzzle.cells (Room.puzzle room)) p.2 p.1
                     = Ok (Some value))
            (get_answer_cells (Room.puzzle room) num direction) values
       /\ text = answer_text values
       /\ (Forall answer_safe values -> parse_answer text = Ok values).
Proof.
  intros (-> & room & num & direction & values & Hroom & Hclue & Hall & ->)
           %get_correct_answer_inv.
  split; [reflexivity|]. exists room, num, direction, values.
  repeat (split; [assumption || reflexivity|]). apply parse_answer_text.
Qed.

Lemma get_correct_answer_parses_back_witness :
  mkWorld (demo_room "created" CAT CAT None 0)
    (<["room:demo" :=
         demo_room "playing" [Some "C"; Some "RE"; Some "T"]
           [Some ""; Some ""; Some ""] (Some 0) 0]> ∅)
  = mkWorld (demo_room "created" CAT CAT None 0)
      (<["room:demo" :=
           demo_room "playing" [Some "C"; Some "RE"; Some "T"]
             [Some ""; Some ""; Some ""] (Some 0) 0]> ∅)
  /\ exists room num direction values,
       (<["room:demo" :=
            demo_room "playing" [Some "C"; Some "RE"; Some "T"]
              [Some ""; Some ""; Some ""] (Some 0) 0]> ∅ : gmap string Room.t)
         !! ("room:" ++ "demo") = Some room
       /\ parse_clue (Some "1A") = Some (num, direction)
       /\ Forall2 (fun p value =>
                     grid_get (Puzzle.cells (Room.puzzle room)) p.2 p.1
                     = Ok (Some value))
            (demo_answer_cells (Room.puzzle room) num direction) values
       /\ "C(RE)T" = answer_text values
       /\ (Forall answer_safe values -> parse_answer "C(RE)T" = Ok values).
Proof.
  assert (Hrun :
    get_correct_answer demo_answer_cells "demo" (Some "1A")
      (mkWorld (demo_room "created" CAT CAT None 0)
         (<["room:demo" :=
              demo_room "playing" [Some "C"; Some "RE"; Some "T"]
                [Some ""; Some ""; Some ""] (Some 0) 0]> ∅))
    = (Ok (Some "C(RE)T"),
       mkWorld (demo_room "created" CAT CAT None 0)
         (<["room:demo" :=
              demo_room "playing" [Some "C"; Some "RE"; Some "T"]
                [Some ""; Some ""; Some ""] (Some 0) 0]> ∅)))
    by (vm_compute; reflexivity).
  exact (get_correct_answer_parses_back demo_answer_cells "demo" (Some "1A")
           _ _ _ Hrun).
Defined.

(** X16: [get_correct_answer] returns [None] exactly when no room is saved
    under the name or the clue does not parse, and the call changes nothing.
    A clue that parses and resolves to no cell is not reported: its answer
    is the empty text. *)
Theorem get_correct_answer_none_iff
    (get_answer_cells : Puzzle.t -> Z -> string -> list (nat * nat))
    (name : string) (clue : option string) (w w' : World) :
  (get_correct_answer get_answer_cells name clue w = (Ok None, w')
   <-> w' = w
       /\ (store w !! ("room:" ++ name) = None \/ parse_clue clue = None))
  /\ (forall room num direction,
        store w !! ("room:" ++ name) = Some room ->
        parse_clue clue = Some (num, direction) ->
        get_answer_cells (Room.puzzle room) num direction = [] ->
        get_correct_answer get_answer_cells name clue w
        = (Ok (Some EmptyString), w)).
Proof.
  unfold get_correct_answer, bind, get_room. simpl. split.
  - destruct (store w !! ("room:" ++ name)) as [room|]; cycle 1.
    { simpl. split; [intros [= <-]; auto | intros [-> _]; reflexivity]. }
    destruct (parse_clue clue) as [[num direction]|]; cycle 1.
    { simpl. split; [intros [= <-]; auto | intros [-> _]; reflexivity]. }
    unfold lift. destruct (correct_answer_loop _ _ _); simpl.
    + split; [discriminate | intros [_ [H|H]]; discriminate H].
    + split; [discriminate | intros [_ [H|H]]; discriminate H].
  - intros room num direction -> -> ->. reflexivity.
Qed.

Section Reveal.

Lemma Forall2_Forall_r {A B} (P : A -> B -> Prop) (Q : B -> Prop)
    (l : list A) (k : list B) :
  Forall2 P l k -> (forall a b, a ∈ l -> P a b -> Q b) -> Forall Q k.
Proof.
  induction 1 as [|a b l k Hab Hlk IH]; intros HQ; constructor.
  - apply (HQ a b); [apply list_elem_of_here | exact Hab].
  - apply IH. intros a' b' Ha'. apply HQ. apply list_elem_of_further, Ha'.
Qed.

End Reveal.

(** X17: the answer that [get_correct_answer] gives for a clue fits the
    clue: when the room saved under the name has the puzzle of the room
    object, the coordinates of the clue are distinct, and the value of each
    cell of the clue in the solution is not empty and is given back by
    [parse_answer], a call of [apply_answer] with that answer that raises
    nothing does not reject, and every cell of the clue then holds its
    value in the solution. *)
Theorem revealed_answer_fills_clue
    (get_answer_cells : Puzzle.t -> Z -> string -> list (nat * nat))
    (name : string) (clue : option string) (allow_clearing : bool)
    (now : datetime) (w w0 w' : World) (text : string) (r : option Room.t)
    (room : Room.t) (num : Z) (direction : string) :
  get_correct_answer get_answer_cells name clue w = (Ok (Some text), w0) ->
  store w !! ("room:" ++ name) = Some room ->
  Room.puzzle room = Room.puzzle (obj w) ->
  parse_clue clue = Some (num, direction) ->
  NoDup (get_answer_cells (Room.puzzle (obj w)) num direction) ->
  (forall x y value,
     (x, y) ∈ get_answer_cells (Room.puzzle (obj w)) num direction ->
     grid_get (Puzzle.cells (Room.puzzle (obj w))) y x = Ok (Some value) ->
     answer_safe value /\ value <> EmptyString) ->
  apply_answer get_answer_cells name clue text allow_clearing now w = (Ok r, w') ->
  exists room',
    r = Some room'
    /\ forall x y,
         (x, y) ∈ get_answer_cells (Room.puzzle (obj w)) num direction ->
         grid_get (Room.cells room') y x
         = grid_get (Puzzle.cells (Room.puzzle (obj w))) y x.
Proof.
  intros Hreveal Hroom Hpuzzle Hclue Hnd Hsafe Hrun.
  apply get_correct_answer_inv in Hreveal
    as (_ & room0 & num0 & dir0 & values & Hroom0 & Hclue0 & Hall & ->).
  rewrite Hroom in Hroom0. injection Hroom0 as <-.
  rewrite Hclue in Hclue0. injection Hclue0 as <- <-.
  rewrite Hpuzzle in Hall.
  assert (Hvalues : Forall (fun value => answer_safe value /\ value <> EmptyString)
                      values).
  { apply (Forall2_Forall_r _ _ _ _ Hall). intros [x y] value Hin Hv.
    apply (Hsafe x y value Hin Hv). }
  assert (Hans : parse_answer (answer_text values) = Ok values).
  { apply parse_answer_text. eapply Forall_impl; [exact Hvalues|].
    intros value [H _]. exact H. }
  assert (Hlen : length values
                 = length (get_answer_cells (Room.puzzle (obj w)) num direction))
    by (symmetry; eapply Forall2_length, Hall).
  rewrite (apply_answer_run get_answer_cells _ _ _ _ _ _ _ _ _ Hclue Hans Hlen)
    in Hrun.
  apply bind_Ok in Hrun as ([] & wb & Hloops & Hfin).
  apply bind_Ok in Hloops as ([] & wa & Hwrite & Hupd).
  apply update_filled_flags in Hupd as (Hcb & _).
  apply finish_inv in Hfin as (room' & -> & _ & Hroom').
  exists room'. split; [reflexivity|].
  assert (Hc : Room.cells room' = Room.cells (obj wa)).
  { destruct Hroom' as [(_ & started & _ & ->) | (_ & ->)]; simpl; exact Hcb. }
  intros x y Hin. rewrite Hc.
  apply list_elem_of_lookup_1 in Hin as [i Hi].
  destruct (Forall2_lookup_l _ _ _ _ _ Hall Hi) as (value & Hvi & Hsol).
  simpl in Hsol. rewrite Hsol.
  rewrite (write_loop_written allow_clearing
             (zip values (get_answer_cells (Room.puzzle (obj w)) num direction)))
    with (w := w) (i := i) (value := value).
  - unfold written. rewrite Forall_forall in Hvalues.
    destruct (Hvalues value) as [_ Hne]; [eapply list_elem_of_lookup_2, Hvi|].
    destruct (String.eqb_spec value EmptyString); [contradiction|].
    rewrite orb_true_r. reflexivity.
  - rewrite snd_zip by lia. exact Hnd.
  - exact Hwrite.
  - rewrite lookup_zip_with, Hvi. simpl. rewrite Hi. reflexivity.
Qed.

Lemma revealed_answer_fills_clue_witness :
  exists room',
    Some (Room.mk "complete" (demo_puzzle [Some "C"; Some "RE"; Some "T"])
            [[Some "C"; Some "RE"; Some "T"]]
            (<[1 := true]> ∅)
            (<[1 := true]> (<[2 := true]> (<[3 := true]> ∅)))
            None 0) = Some room'
    /\ forall x y,
         (x, y) ∈ demo_answer_cells (demo_puzzle [Some "C"; Some "RE"; Some "T"]) 1 "a" ->
         grid_get (Room.cells room') y x
         = grid_get [[Some "C"; Some "RE"; Some "T"]] y x.
Proof.
  refine (revealed_answer_fills_clue demo_answer_cells "demo" (Some "1A") false 9
    (mkWorld (demo_room "playing" [Some "C"; Some "RE"; Some "T"]
                [Some "X"; Some ""; Some ""] (Some 0) 0)
       (<["room:demo" :=
            demo_room "playing" [Some "C"; Some "RE"; Some "T"]
              [Some "X"; Some ""; Some ""] (Some 0) 0]> ∅))
    (mkWorld (demo_room "playing" [Some "C"; Some "RE"; Some "T"]
                [Some "X"; Some ""; Some ""] (Some 0) 0)
       (<["room:demo" :=
            demo_room "playing" [Some "C"; Some "RE"; Some "T"]
              [Some "X"; Some ""; Some ""] (Some 0) 0]> ∅))
    _ "C(RE)T" _
    (demo_room "playing" [Some "C"; Some "RE"; Some "T"]
       [Some "X"; Some ""; Some ""] (Some 0) 0)
    1 "a" _ _ _ _ _ _ _).
  - vm_compute. reflexivity.
  - vm_compute. reflexivity.
  - reflexivity.
  - reflexivity.
  - apply (bool_decide_unpack _). vm_compute. exact I.
  - intros x y value Hin Hv. simpl in Hin.
    apply elem_of_cons in Hin as [[= -> ->] | Hin];
      [|apply elem_of_cons in Hin as [[= -> ->] | Hin];
        [|apply elem_of_cons in Hin as [[= -> ->] | Hin]; [|inversion Hin]]];
      injection Hv as <-; (split; [|discriminate]); vm_compute; auto;
      repeat split; discriminate.
  - vm_compute. reflexivity.
Defined.

(** ** Room names *)

Section RoomNames.

Lemma utf8_decode_ascii (b : Byte.byte) (r : list Byte.byte) :
  (Byte.to_N b < 128)%N ->
  utf8_decode (b :: r) = rbind (utf8_decode r) (fun s => Ok (Byte.to_N b :: s)).
Proof.
  intros Hb. cbn [utf8_decode].
  destruct (N.ltb_spec (Byte.to_N b) 128); [reflexivity | lia].
Qed.

(** The UTF-8 bytes of a character of a [string]: one byte below 128, two
    from 128 on. *)
Definition byte_of_N (n : N) : Byte.byte :=
  match Byte.of_N n with
  | Some b => b
  | None => Byte.x00
  end.

Definition utf8_encode_char (c : ascii) : list Byte.byte :=
  let n := N_of_ascii c in
  if (n <? 128)%N then [byte_of_N n]
  else [byte_of_N (192 + n / 64); byte_of_N (128 + n mod 64)].

(** [s.encode("utf-8")] *)
Fixpoint utf8_encode (s : string) : list Byte.byte :=
  match s with
  | EmptyString => []
  | String c rest => (utf8_encode_char c ++ utf8_encode rest)%list
  end.

(** The code points of a [string]. *)
Fixpoint code_points (s : string) : list N :=
  match s with
  | EmptyString => []
  | String c rest => N_of_ascii c :: code_points rest
  end.

Lemma utf8_decode_encode_char (c : ascii) (r : list Byte.byte) :
  utf8_decode (utf8_encode_char c ++ r)%list
  = rbind (utf8_decode r) (fun s => Ok (N_of_ascii c :: s)).
Proof. destruct c as [[] [] [] [] [] [] [] []]; reflexivity. Qed.

Lemma utf8_decode_encode (s : string) :
  utf8_decode (utf8_encode s) = Ok (code_points s).
Proof.
  induction s as [|c s IH]; [reflexivity|].
  cbn [utf8_encode code_points]. rewrite utf8_decode_encode_char, IH.
  reflexivity.
Qed.

Lemma parse_room_name_encode (name : string) :
  parse_room_name (utf8_encode ("room:" ++ name)) = Ok (code_points name).
Proof.
  unfold parse_room_name. rewrite utf8_decode_encode. reflexivity.
Qed.

End RoomNames.

(** X18: [parse_room_name] drops the first five characters of the name it
    is given without looking at them: after any five ASCII bytes, the result
    is the decoding of the remaining bytes, and it raises when those are not
    valid UTF-8. *)
Theorem parse_room_name_drops_five (prefix rest : list Byte.byte) :
  length prefix = 5%nat ->
  Forall (fun b => (Byte.to_N b < 128)%N) prefix ->
  parse_room_name (prefix ++ rest) = utf8_decode rest.
Proof.
  intros Hlen Hascii.
  destruct prefix as [|b1 [|b2 [|b3 [|b4 [|b5 [|b6 tail]]]]]]; try discriminate Hlen.
  apply Forall_cons in Hascii as [H1 Hascii].
  apply Forall_cons in Hascii as [H2 Hascii].
  apply Forall_cons in Hascii as [H3 Hascii].
  apply Forall_cons in Hascii as [H4 Hascii].
  apply Forall_cons in Hascii as [H5 _].
  unfold parse_room_name.
  change ([b1; b2; b3; b4; b5] ++ rest)%list
    with (b1 :: b2 :: b3 :: b4 :: b5 :: rest).
  rewrite (utf8_decode_ascii b1) by assumption.
  rewrite (utf8_decode_ascii b2) by assumption.
  rewrite (utf8_decode_ascii b3) by assumption.
  rewrite (utf8_decode_ascii b4) by assumption.
  rewrite (utf8_decode_ascii b5) by assumption.
  destruct (utf8_decode rest); reflexivity.
Qed.

Lemma parse_room_name_drops_five_witness :
  parse_room_name
    ([Byte.x72; Byte.x6f; Byte.x6f; Byte.x6d; Byte.x3a]
       ++ [Byte.x63; Byte.xc3; Byte.xa9])%list
  = utf8_decode [Byte.x63; Byte.xc3; Byte.xa9].
Proof.
  apply (parse_room_name_drops_five
           [Byte.x72; Byte.x6f; Byte.x6f; Byte.x6d; Byte.x3a]
           [Byte.x63; Byte.xc3; Byte.xa9]).
  - reflexivity.
  - repeat constructor.
Defined.

(** X19: the key of a room gives back the name of the room: the UTF-8 bytes
    of ["room:" + name] go through [parse_room_name] to the characters of
    [name], and [get_all_room_names] turns the keys of a list of names into
    these names, in order. *)
Theorem room_name_round_trip :
  (forall name : string,
     parse_room_name (utf8_encode ("room:" ++ name)) = Ok (code_points name))
  /\ (forall names : list string,
        get_all_room_names (map (fun name => utf8_encode ("room:" ++ name)) names)
        = Ok (map code_points names)).
Proof.
  split; [exact parse_room_name_encode|].
  induction names as [|name names IH]; [reflexivity|].
  unfold get_all_room_names in *. cbn [map].
  rewrite parse_room_name_encode. cbn [rbind]. rewrite IH. reflexivity.
Qed.

(** ** Documents that lack a field *)

Section MissingField.

Import Json.

Lemma traverse_keys (fields : list (string * document))
    (items : list (key * value)) :
  traverse (fun kv => rbind (loads (snd kv)) (fun v => Ok (KStr (fst kv), v)))
    fields = Ok items ->
  map fst items = map (fun kv => KStr (fst kv)) fields.
Proof.
  revert items. induction fields as [|[s d] fields IH]; intros items.
  - intros [= <-]. reflexivity.
  - rewrite traverse_cons. cbn [fst snd].
    destruct (loads d) as [v|]; [|discriminate]. cbn [rbind].
    destruct (traverse _ fields) as [rest|]; [|discriminate]. cbn [rbind].
    intros [= <-]. cbn [map fst]. rewrite (IH rest eq_refl). reflexivity.
Qed.

(** What [json.loads] reads in an object is a dictionary with the names of
    the fields as keys. *)
Lemma loads_obj_keys (fields : list (string * document)) (v : value) :
  loads (DObj fields) = Ok v ->
  exists items,
    v = VDict items /\ map fst items = map (fun kv => KStr (fst kv)) fields.
Proof.
  rewrite loads_obj.
  destruct (traverse _ fields) as [items|] eqn:Ht; [|discriminate].
  cbn [rbind]. intros [= <-]. exists items. split; [reflexivity|].
  apply traverse_keys, Ht.
Qed.

Lemma getitem_missing (fields : list (string * document))
    (items : list (key * value)) (k : string) :
  map fst items = map (fun kv => KStr (fst kv)) fields ->
  k ∉ map fst fields ->
  getitem items k = Raise KeyError.
Proof.
  intros Hkeys Hk. unfold getitem.
  destruct (find (is_key k) _) as [kv|] eqn:Hfind; [|reflexivity].
  exfalso. apply find_some in Hfind as [Hin His].
  apply in_rev in Hin.
  assert (Hfst : In (fst kv) (map fst items)) by (apply in_map, Hin).
  rewrite Hkeys in Hfst. apply in_map_iff in Hfst as ([s d] & Heq & Hin').
  unfold is_key in His. rewrite <- Heq in His. simpl in His.
  apply String.eqb_eq in His. subst s.
  apply Hk. apply list_elem_of_In, in_map_iff. exists (k, d). auto.
Qed.

End MissingField.

(** X20: [from_json] makes up no field: on a JSON object that lacks one of
    the seven fields of a room it raises.  When the missing field is
    "across_clues_filled", the first one that is read, the exception is
    [KeyError], unless [json.loads] has refused the text before any field
    is read, and then it is the exception of [json.loads]: an object whose
    only field is an integer of 4301 digits gives [ValueError]. *)
Theorem from_json_missing_field
    (dateutil_parse : string -> result datetime)
    (from_dict : Json.value -> result Puzzle.t)
    (fields : list (string * Json.document)) (k : string) :
  k ∈ ["play_pause_state"; "puzzle"; "cells"; "across_clues_filled";
       "down_clues_filled"; "last_start_time"; "total_time_secs"] ->
  k ∉ map fst fields ->
  (exists e, Json.from_json dateutil_parse from_dict (Json.DObj fields) = Raise e)
  /\ (k = "across_clues_filled" ->
      Json.from_json dateutil_parse from_dict (Json.DObj fields)
      = match Json.loads (Json.DObj fields) with
        | Ok _ => Raise KeyError
        | Raise e => Raise e
        end)
  /\ Json.from_json dateutil_parse from_dict
       (Json.DObj [("total_time_secs", Json.DInt (10 ^ 4300))])
     = Raise ValueError.
Proof.
  intros Hk Hmissing.
  assert (Hlong : Json.loads (Json.DObj [("total_time_secs", Json.DInt (10 ^ 4300))])
                  = Raise ValueError).
  { rewrite loads_obj, traverse_cons. cbn [fst snd Json.loads].
    rewrite (int_decimal_text_long _ long_power). reflexivity. }
  rewrite (and_assoc _ _ _). split; [|unfold Json.from_json; rewrite Hlong; reflexivity].
  unfold Json.from_json.
  destruct (Json.loads (Json.DObj fields)) as [v|e] eqn:Hloads; cycle 1.
  { split; [exists e; reflexivity | reflexivity]. }
  apply loads_obj_keys in Hloads as (items & -> & Hkeys).
  pose proof (getitem_missing fields items k Hkeys Hmissing) as Hget.
  cbn [rbind]. split.
  - repeat (apply elem_of_cons in Hk as [-> | Hk]);
      [.. | inversion Hk];
      repeat match goal with
        | |- exists e, rbind ?x _ = Raise e =>
            first
              [ rewrite Hget; eexists; reflexivity
              | destruct x; [cbn [rbind] | eexists; reflexivity] ]
        end.
  - intros ->. rewrite Hget. reflexivity.
Qed.

Lemma from_json_missing_field_witness :
  exists e,
    Json.from_json demo_parse demo_from_dict
      (Json.DObj [("play_pause_state", Json.DStr "paused");
                  ("across_clues_filled", Json.DObj []);
                  ("down_clues_filled", Json.DObj []);
                  ("last_start_time", Json.DNull)])
    = Raise e.
Proof.
  refine (proj1 (from_json_missing_field demo_parse demo_from_dict _ "puzzle" _ _)).
  - apply (bool_decide_unpack _). vm_compute. exact I.
  - apply (bool_decide_unpack _). vm_compute. exact I.
Defined.

(** ** Writing without clearing *)

Section Keeping.

Definition filled_kept (w w' : World) : Prop :=
  forall p, nonblank (Room.cells (obj w)) p -> nonblank (Room.cells (obj w')) p.

Lemma write_value_filled_kept (p : string * (nat * nat)) (w w' : World) :
  write_value false p w = (Ok tt, w') -> filled_kept w w'.
Proof.
  destruct p as [value [x y]]. unfold write_value. simpl.
  destruct (String.eqb_spec value EmptyString) as [->|Hne]; simpl.
  - intros [= <-] q Hq. exact Hq.
  - intros (g' & Hset & ->)%set_cell_Ok [x' y'] (v & Hv & Hnb).
    unfold nonblank. simpl in *. rewrite (grid_get_set _ _ _ _ _ Hset).
    case_decide as H.
    + exists (Some value). split; [reflexivity|]. congruence.
    + exists v. auto.
Qed.

End Keeping.

(** X21: without clearing, [apply_answer] blanks nothing: a cell that
    differed from the empty string before a call that returns a room still
    differs from it in the returned grid, whatever the answer and whether or
    not the coordinates of the clue are distinct. *)
Theorem apply_answer_without_clearing_keeps_filled
    (get_answer_cells : Puzzle.t -> Z -> string -> list (nat * nat))
    (name : string) (clue : option string) (answer : string)
    (now : datetime) (w w' : World) (room' : Room.t) :
  apply_answer get_answer_cells name clue answer false now w
  = (Ok (Some room'), w') ->
  forall p, nonblank (Room.cells (obj w)) p -> nonblank (Room.cells room') p.
Proof.
  intros Hrun.
  apply apply_answer_Ok in Hrun
    as (num & direction & values & wa & wb & _ & _ & _ & Hwrite & Hupd & Hfin).
  apply finish_Ok in Hfin as (Hc & _).
  apply update_filled_flags in Hupd as (Hcb & _).
  rewrite Hc, Hcb. revert Hwrite. apply (for_each_rel filled_kept).
  - intros w0 p Hp. exact Hp.
  - intros w1 w2 w3 H12 H23 p Hp. apply H23, H12, Hp.
  - apply write_value_filled_kept.
Qed.

Lemma apply_answer_without_clearing_keeps_filled_witness :
  nonblank [[Some "C"; Some "A"; Some "T"]] (1%nat, 0%nat).
Proof.
  refine (apply_answer_without_clearing_keeps_filled demo_answer_cells "demo"
    (Some "1a") "..T" 9
    (demo_world (demo_room "playing" COT [Some "C"; Some "A"; Some ""] (Some 0) 0))
    (mkWorld
       (Room.mk "playing" (demo_puzzle COT) [CAT]
          (<[1 := true]> ∅)
          (<[1 := true]> (<[2 := true]> (<[3 := true]> ∅)))
          (Some 0) 0)
       (<["room:demo" :=
            Room.mk "playing" (demo_puzzle COT) [CAT]
              (<[1 := true]> ∅)
              (<[1 := true]> (<[2 := true]> (<[3 := true]> ∅)))
              (Some 0) 0]> ∅))
    (Room.mk "playing" (demo_puzzle COT) [CAT]
       (<[1 := true]> ∅)
       (<[1 := true]> (<[2 := true]> (<[3 := true]> ∅)))
       (Some 0) 0)
    _ (1%nat, 0%nat) _).
  - vm_compute. reflexivity.
  - exists (Some "A"). split; [reflexivity | discriminate].
Defined.

(** ** Blanks around a clue reference *)

Section StripAny.

Lemma rstrip_app_blanks (s ws : string) :
  blanks ws -> Py.rstrip (s ++ ws) = Py.rstrip s.
Proof.
  intros Hws. induction s as [|c s IH].
  - simpl. apply rstrip_blanks_nil, Hws.
  - change (String c s ++ ws) with (String c (s ++ ws)).
    cbn [Py.rstrip]. rewrite IH. reflexivity.
Qed.

Lemma lstrip_app_blanks (s ws : string) :
  blanks ws -> Py.rstrip (Py.lstrip (s ++ ws)) = Py.rstrip (Py.lstrip s).
Proof.
  intros Hws. induction s as [|c s IH].
  - pose proof (lstrip_blanks ws EmptyString Hws) as H.
    rewrite append_nil_r in H.
    change (EmptyString ++ ws) with ws. rewrite H. reflexivity.
  - change (String c s ++ ws) with (String c (s ++ ws)).
    cbn [Py.lstrip]. destruct (Py.isspace c); [exact IH|].
    change (String c (s ++ ws)) with (String c s ++ ws).
    apply rstrip_app_blanks, Hws.
Qed.

Lemma strip_blanks_around (ws1 s ws2 : string) :
  blanks ws1 -> blanks ws2 -> Py.strip (ws1 ++ s ++ ws2) = Py.strip s.
Proof.
  intros H1 H2. unfold Py.strip. rewrite (lstrip_blanks ws1 _ H1).
  apply lstrip_app_blanks, H2.
Qed.

End StripAny.

(** X22: blanks around the text never matter to [parse_clue]: with blanks
    before and after, any text, well formed or not, parses to what it
    parses to without them. *)
Theorem parse_clue_ignores_blanks_around (ws1 s ws2 : string) :
  blanks ws1 -> blanks ws2 ->
  parse_clue (Some (ws1 ++ s ++ ws2)) = parse_clue (Some s).
Proof.
  intros H1 H2. unfold parse_clue.
  rewrite (strip_blanks_around ws1 s ws2 H1 H2). reflexivity.
Qed.

Lemma parse_clue_ignores_blanks_around_witness :
  parse_clue (Some ("  " ++ "-3 D" ++ " ")) = parse_clue (Some "-3 D").
Proof.
  apply (parse_clue_ignores_blanks_around "  " "-3 D" " "); reflexivity.
Defined.

(** ** The timer across several calls *)

(** X23: the play time of a solve counts the playing intervals and nothing
    else.  From a room that is "created" or "paused", toggling at [t0]
    (start), at [t1] (pause) and at [t2] (start again), each call given the
    room the call before returned, and then completing the grid with
    [apply_answer] at [t3] gives a "complete" room with no last start whose
    total is the first total plus [int(delta.total_seconds())] for
    [t1 - t0] plus the same for [t3 - t2]; the pause from [t1] to [t2] adds
    nothing.  When the clock has not gone back and each of the two
    intervals is shorter than 2^33 seconds, these are the whole seconds of
    the two intervals. *)
Theorem timer_counts_playing_intervals
    (get_answer_cells : Puzzle.t -> Z -> string -> list (nat * nat))
    (name : string) (clue : option string) (answer : string)
    (allow_clearing : bool) (t0 t1 t2 t3 : datetime)
    (w w1 w2 w3 w4 : World) (r1 r2 r3 r4 : Room.t) :
  Room.play_pause_state (obj w) = "created"
  \/ Room.play_pause_state (obj w) = "paused" ->
  play_pause name t0 w = (Ok r1, w1) ->
  play_pause name t1 (mkWorld r1 (store w1)) = (Ok r2, w2) ->
  play_pause name t2 (mkWorld r2 (store w2)) = (Ok r3, w3) ->
  apply_answer get_answer_cells name clue answer allow_clearing t3
    (mkWorld r3 (store w3)) = (Ok (Some r4), w4) ->
  Room.cells r4 = Puzzle.cells (Room.puzzle r4) ->
  Room.play_pause_state r4 = "complete"
  /\ Room.last_start_time r4 = None
  /\ Room.total_time_secs r4
     = Room.total_time_secs (obj w)
       + whole_seconds (t1 - t0) + whole_seconds (t3 - t2)
  /\ (0 <= t1 - t0 < 2 ^ 33 * 1000000 ->
      0 <= t3 - t2 < 2 ^ 33 * 1000000 ->
      Room.total_time_secs r4
      = Room.total_time_secs (obj w)
        + (t1 - t0) / 1000000 + (t3 - t2) / 1000000).
Proof.
  intros Hst H0 H1 H2 H3 Hdone.
  rewrite (play_pause_start name t0 w Hst) in H0.
  unfold saves in H0. injection H0 as <- <-.
  match type of H1 with
  | play_pause _ _ ?W = _ =>
      rewrite (play_pause_stop name t1 t0 W eq_refl eq_refl) in H1
  end.
  unfold saves in H1. injection H1 as <- <-.
  match type of H2 with
  | play_pause _ _ ?W = _ =>
      rewrite (play_pause_start name t2 W (or_intror eq_refl)) in H2
  end.
  unfold saves in H2. injection H2 as <- <-.
  match type of H3 with
  | apply_answer _ _ _ _ _ _ ?W = _ =>
      destruct (apply_answer_cases get_answer_cells name clue answer
                  allow_clearing t3 W)
        as [[_ Hcase] | [(num & dir & values & _ & _ & _ & Hcase)
                        | (num & dir & values & _ & _ & _ & Hcase)]]
  end;
    rewrite Hcase in H3; try discriminate H3.
  apply bind_Ok in H3 as ([] & wb & Hloops & Hfin).
  apply (quiet_run _ _ _ _ (quiet_write_and_update get_answer_cells _ _)) in Hloops
    as [Hfr _].
  apply frozen_state in Hfr as (Hs & Hp & Hl & Ht).
  apply finish_inv in Hfin
    as (r & [= <-] & _ & [(_ & started & Hstarted & ->) | (Hnot & ->)]).
  - simpl in *. rewrite Hl in Hstarted. injection Hstarted as <-.
    rewrite Ht. split; [reflexivity|]. split; [reflexivity|].
    split; [reflexivity|].
    intros H10 H32. rewrite (whole_seconds_floor _ H10).
    rewrite (whole_seconds_floor _ H32). reflexivity.
  - contradiction.
Qed.

Lemma timer_counts_playing_intervals_witness :
  Room.total_time_secs
    (Room.mk "complete" (demo_puzzle CAT) [CAT]
       (<[1 := true]> ∅)
       (<[1 := true]> (<[2 := true]> (<[3 := true]> ∅)))
       None 120)
  = 0 + whole_seconds (60000000 - 0) + whole_seconds (130000000 - 70000000).
Proof.
  pose (room := demo_room "created" CAT [Some "C"; Some "A"; Some ""] None 0).
  pose (r1 := Room.evolve room "playing" (Some 0) 0).
  pose (r2 := Room.evolve room "paused" None 60).
  pose (r3 := Room.evolve room "playing" (Some 70000000) 60).
  pose (r3' := Room.mk "playing" (demo_puzzle CAT) [CAT]
                 (<[1 := true]> ∅)
                 (<[1 := true]> (<[2 := true]> (<[3 := true]> ∅)))
                 (Some 70000000) 60).
  pose (r4 := Room.evolve r3' "complete" None 120).
  refine (proj1 (proj2 (proj2 (timer_counts_playing_intervals demo_answer_cells "demo"
    (Some "1a") "..T" false 0 60000000 70000000 130000000
    (demo_world room)
    (mkWorld room (<["room:demo" := r1]> ∅))
    (mkWorld r1 (<["room:demo" := r2]> ∅))
    (mkWorld r2 (<["room:demo" := r3]> ∅))
    (mkWorld r3' (<["room:demo" := r4]> ∅))
    r1 r2 r3 r4 (or_introl eq_refl) _ _ _ _ _))));
    vm_compute; reflexivity.
Defined.
